(** * Qsnap: a shallow embedding of the library store, the staging workflow,
      the extraction adapter, the save task and the PDF page numbering.

    The definitions follow the handlers of the [App] component.  A React
    state updater [setSubjects(prev => ...)] is a pure function on the
    library value, and is embedded as such; values read from component state
    ([newSubjectName], [selectedStagedIds], ...) and from the environment
    ([Date.now()], [Math.random()], the network) are explicit arguments. *)

From Stdlib Require Import NArith String Ascii PrimFloat.
From stdpp Require Import strings pretty list gmap sorting.

Set Warnings "-register-all,-inexact-float".

Local Open Scope N_scope.
Local Open Scope nat_scope.

(** ** JavaScript strings

    A JavaScript string is a sequence of UTF-16 code units. *)

Abbreviation jsstring := (list N).

(** The code units of a literal (all literals of the program are ASCII). *)
Definition js (s : string) : jsstring :=
  N_of_ascii <$> list_ascii_of_string s.
Global Arguments js : simpl never.

(** Truthiness of a string: only the empty string is falsy. *)
Definition str_truthy (s : jsstring) : bool :=
  match s with [] => false | _ :: _ => true end.

(** The class [\s] of a regular expression, which is also the set stripped by
    [String.prototype.trim]: WhiteSpace and LineTerminator code points. *)
Definition is_space (c : N) : bool :=
  ((9 <=? c) && (c <=? 13) || (c =? 32) || (c =? 160) || (c =? 5760)
   || (8192 <=? c) && (c <=? 8202) || (c =? 8232) || (c =? 8233)
   || (c =? 8239) || (c =? 8287) || (c =? 12288) || (c =? 65279))%N.

(** The rest of [s] after its longest prefix in the class [p]. *)
Fixpoint skip (p : N → bool) (s : jsstring) : jsstring :=
  match s with
  | c :: s' => if p c then skip p s' else s
  | [] => []
  end.

Definition trimStart (s : jsstring) : jsstring := skip is_space s.

Definition trimEnd (s : jsstring) : jsstring :=
  reverse (trimStart (reverse s)).

(** [s.trim()] *)
Definition trim (s : jsstring) : jsstring := trimEnd (trimStart s).

(** [String(n)] for a non-negative integer. *)
Definition decimal (n : N) : jsstring := js (pretty n).
Global Arguments decimal : simpl never.

(** [s.toLowerCase()] on the ASCII letters.  No code unit outside [A-Z]
    lower-cases to a letter of the word the program compares with. *)
Definition toLowerCase (s : jsstring) : jsstring :=
  (λ c, if (65 <=? c) && (c <=? 90) then c + 32 else c)%N <$> s.

(** ** JSON values, as returned by [JSON.parse]

    A number is kept as its canonical rendering [String(n)]. *)

Inductive json :=
| JNull
| JBool (b : bool)
| JNum (repr : jsstring)
| JStr (s : jsstring)
| JArr (items : list json)
| JObj (fields : list (jsstring * json)).

(** Truthiness of a value. *)
Definition truthy (v : json) : bool :=
  match v with
  | JNull => false
  | JBool b => b
  | JNum r => negb (bool_decide (r = js "0")) && negb (bool_decide (r = js "NaN"))
  | JStr s => str_truthy s
  | JArr _ | JObj _ => true
  end.

(** ** Data model *)

(** [question] and [answer] hold whatever [q.question || ''] and
    [q.answer || ''] evaluated to: a [JStr] for every response that follows
    the requested schema. *)
Inductive Question :=
| MCQ (id : jsstring) (question : json) (options : list jsstring)
      (correctAnswer : option nat)
| ShortAnswerQuestion (id : jsstring) (question : json) (answer : json).

Definition q_id (q : Question) : jsstring :=
  match q with MCQ i _ _ _ | ShortAnswerQuestion i _ _ => i end.

(** [{ ...q, id: i }] *)
Definition q_with_id (i : jsstring) (q : Question) : Question :=
  match q with
  | MCQ _ t o c => MCQ i t o c
  | ShortAnswerQuestion _ t a => ShortAnswerQuestion i t a
  end.

Record Lecture := mkLecture {
  l_id : jsstring;
  l_name : jsstring;
  l_questions : list Question }.

Record Subject := mkSubject {
  s_id : jsstring;
  s_name : jsstring;
  s_lectures : list Lecture }.

Abbreviation Library := (list Subject).

Record ExtractionResult := mkResult {
  imageUrl : option jsstring;
  r_questions : list Question;
  r_error : option jsstring }.

(** [r.error] as a condition: an absent or empty message is falsy. *)
Definition has_error (r : ExtractionResult) : bool :=
  match r_error r with Some m => str_truthy m | None => false end.

(** ** Array helpers *)

(** [l.findIndex(p)]; [None] stands for [-1]. *)
Fixpoint findIndex {A} (p : A → bool) (l : list A) : option nat :=
  match l with
  | [] => None
  | x :: l' => if p x then Some 0 else S <$> findIndex p l'
  end.

(** [l.splice(i, 0, x)] for [i] a valid index or the length. *)
Definition splice_in {A} (i : nat) (x : A) (l : list A) : list A :=
  take i l ++ x :: drop i l.

(** [l.find(p)] *)
Definition find {A} (p : A → bool) (l : list A) : option A :=
  findIndex p l ≫= (l !!.).

(** The first subject with a given id, as [subjects.find(s => s.id === id)]. *)
Definition findSubject (subjectId : jsstring) (lib : Library) : option Subject :=
  find (λ s, bool_decide (s_id s = subjectId)) lib.

Definition lectureIndex (lectureId : jsstring) (ls : list Lecture) : option nat :=
  findIndex (λ l, bool_decide (l_id l = lectureId)) ls.

(** ** Library store *)

Module Store.

(** [handleAddSubject]: [name] is the form field and [now] is [Date.now()]. *)
Definition handleAddSubject (newSubjectName : jsstring) (now : N)
    (prev : Library) : Library :=
  if str_truthy (trim newSubjectName) then
    prev ++ [mkSubject (js "sub-" ++ decimal now) (trim newSubjectName) []]
  else prev.

(** [handleUpdateSubject] *)
Definition handleUpdateSubject (editingSubject : option Subject)
    (managedSubjectName : jsstring) (prev : Library) : Library :=
  match editingSubject with
  | Some editing =>
      if str_truthy (trim managedSubjectName) then
        (λ sub, if bool_decide (s_id sub = s_id editing)
                then mkSubject (s_id sub) (trim managedSubjectName) (s_lectures sub)
                else sub) <$> prev
      else prev
  | None => prev
  end.

(** The names every object inherits from [Object.prototype].  Read on an
    object literal that has no own property of that name, each gives a
    function, or for [__proto__] the prototype object: a value that is not
    nullish and has no method [trim]. *)
Definition inherited : list jsstring :=
  [js "constructor"; js "__defineGetter__"; js "__defineSetter__";
   js "hasOwnProperty"; js "__lookupGetter__"; js "__lookupSetter__";
   js "isPrototypeOf"; js "propertyIsEnumerable"; js "toString"; js "valueOf";
   js "__proto__"; js "toLocaleString"].

(** What [newLectureNames[subjectId]?.trim()] comes to.  [newLectureNames]
    is the per-subject form state, an object literal given here by its own
    properties: an own entry is a string and is trimmed; without one the
    lookup goes to the prototype, where it finds nothing ([undefined], and
    the optional call is skipped) or an inherited value, on which calling
    the missing [trim] raises a [TypeError]. *)
Inductive Lookup :=
| Undefined
| Trimmed (lectureName : jsstring)
| LookupRaises.

Definition lectureName (newLectureNames : gmap jsstring jsstring)
    (subjectId : jsstring) : Lookup :=
  match newLectureNames !! subjectId with
  | Some typed => Trimmed (trim typed)
  | None =>
      if bool_decide (subjectId ∈ inherited) then LookupRaises else Undefined
  end.

(** What a handler comes to: it returns, with this library as the new
    state, or it raises a [TypeError] before it reaches [setSubjects]. *)
Inductive Outcome :=
| Done (subjects : Library)
| TypeError.

(** [handleAddLecture] *)
Definition handleAddLecture (newLectureNames : gmap jsstring jsstring)
    (subjectId : jsstring) (now : N) (prev : Library) : Outcome :=
  match lectureName newLectureNames subjectId with
  | LookupRaises => TypeError
  | Trimmed lectureName =>
      if str_truthy lectureName then
        Done
          ((λ sub, if bool_decide (s_id sub = subjectId)
                   then mkSubject (s_id sub) (s_name sub)
                          (s_lectures sub
                           ++ [mkLecture (js "lec-" ++ decimal now) lectureName []])
                   else sub) <$> prev)
      else Done prev
  | Undefined => Done prev
  end.

Inductive ItemToDelete :=
| DelSubject (id : jsstring)
| DelLecture (id : jsstring) (subjectId : option jsstring).

(** [handleConfirmDelete] *)
Definition handleConfirmDelete (deleteConfirmation : jsstring)
    (itemToDelete : option ItemToDelete) (prev : Library) : Library :=
  if negb (bool_decide (toLowerCase deleteConfirmation = js "delete")) then prev
  else match itemToDelete with
  | Some (DelSubject id) =>
      filter (λ sub, s_id sub ≠ id) prev
  | Some (DelLecture lectureId (Some subjectId)) =>
      if str_truthy subjectId then
        (λ sub, if bool_decide (s_id sub = subjectId)
                then mkSubject (s_id sub) (s_name sub)
                       (filter (λ lec, l_id lec ≠ lectureId) (s_lectures sub))
                else sub) <$> prev
      else prev
  | Some (DelLecture _ None) | None => prev
  end.

(** [handleDeleteQuestion] *)
Definition handleDeleteQuestion (subjectId lectureId questionId : jsstring)
    (prev : Library) : Library :=
  (λ sub, if bool_decide (s_id sub ≠ subjectId) then sub
          else mkSubject (s_id sub) (s_name sub)
                 ((λ lec, if bool_decide (l_id lec ≠ lectureId) then lec
                          else mkLecture (l_id lec) (l_name lec)
                                 (filter (λ q, q_id q ≠ questionId) (l_questions lec)))
                    <$> s_lectures sub)) <$> prev.

(** [handleSaveLecture] *)
Definition handleSaveLecture (editingLecture : option (jsstring * jsstring * jsstring))
    (prev : Library) : Library :=
  match editingLecture with
  | Some (id, name, subjectId) =>
      (λ sub, if bool_decide (s_id sub = subjectId)
              then mkSubject (s_id sub) (s_name sub)
                     ((λ lec, if bool_decide (l_id lec = id)
                              then mkLecture (l_id lec) name (l_questions lec)
                              else lec) <$> s_lectures sub)
              else sub) <$> prev
  | None => prev
  end.

(** [handleSaveEdit] *)
Definition handleSaveEdit (editedContent : option Question)
    (editingQuestionId : option jsstring) (prev : Library) : Library :=
  match editedContent, editingQuestionId with
  | Some edited, Some qid =>
      if str_truthy qid then
        (λ sub, mkSubject (s_id sub) (s_name sub)
           ((λ lec, mkLecture (l_id lec) (l_name lec)
               ((λ q, if bool_decide (q_id q = qid) then edited else q)
                  <$> l_questions lec)) <$> s_lectures sub)) <$> prev
      else prev
  | _, _ => prev
  end.

(** The two [splice] calls of [handleDrop] on the lecture array. *)
Definition moveLecture (draggedIndex targetIndex : nat) (lectures : list Lecture)
    : list Lecture :=
  match lectures !! draggedIndex with
  | Some draggedItem => splice_in targetIndex draggedItem (delete draggedIndex lectures)
  | None => lectures
  end.

(** [handleDrop]: [draggedLectureId] is [e.dataTransfer.getData('lectureId')].
    The updater works on a deep copy ([JSON.parse(JSON.stringify(prev))]),
    which is the same value; [find] selects the first subject with the id. *)
Definition handleDrop (draggedLectureId subjectId droppedOnLectureId : jsstring)
    (prevSubjects : Library) : Library :=
  if negb (str_truthy draggedLectureId)
     || bool_decide (draggedLectureId = droppedOnLectureId) then prevSubjects
  else
    match findIndex (λ s, bool_decide (s_id s = subjectId)) prevSubjects with
    | None => prevSubjects
    | Some si =>
        match prevSubjects !! si with
        | None => prevSubjects
        | Some subject =>
            match findIndex (λ l, bool_decide (l_id l = draggedLectureId)) (s_lectures subject),
                  findIndex (λ l, bool_decide (l_id l = droppedOnLectureId)) (s_lectures subject) with
            | Some draggedIndex, Some targetIndex =>
                <[si := mkSubject (s_id subject) (s_name subject)
                          (moveLecture draggedIndex targetIndex (s_lectures subject))]>
                  prevSubjects
            | _, _ => prevSubjects
            end
        end
    end.

End Store.

(** ** Vocabulary for the statements on the library store *)

(** The ids of all subjects. *)
Definition subject_ids (lib : Library) : list jsstring := s_id <$> lib.

(** The ids of the lectures filed under a subject id. *)
Definition lecture_ids (subjectId : jsstring) (lib : Library) : list jsstring :=
  lib ≫= λ s, if bool_decide (s_id s = subjectId) then l_id <$> s_lectures s else [].

(** The ids of the questions filed under a subject id and a lecture id. *)
Definition question_ids (subjectId lectureId : jsstring) (lib : Library)
    : list jsstring :=
  lib ≫= λ s,
    if bool_decide (s_id s = subjectId) then
      s_lectures s ≫= λ l,
        if bool_decide (l_id l = lectureId) then q_id <$> l_questions l else []
    else [].

(** The ids of all lectures of the library. *)
Definition all_lecture_ids (lib : Library) : list jsstring :=
  lib ≫= λ s, l_id <$> s_lectures s.

(** The ids of all questions of the library. *)
Definition all_question_ids (lib : Library) : list jsstring :=
  lib ≫= λ s, s_lectures s ≫= λ l, q_id <$> l_questions l.

(** A lecture with id [m] directly followed by a lecture with id [t]. *)
Definition immediately_before (m t : jsstring) (ls : list Lecture) : Prop :=
  ∃ i x y, ls !! i = Some x ∧ ls !! S i = Some y ∧ l_id x = m ∧ l_id y = t.

(** "Reorder puts the moved lecture immediately before the target", at one
    input. *)
Definition reorder_lands_before_target
    (lib : Library) (subjectId movedId targetId : jsstring) : Prop :=
  ∀ subject,
    findSubject subjectId lib = Some subject →
    movedId ≠ targetId →
    movedId ∈ l_id <$> s_lectures subject →
    targetId ∈ l_id <$> s_lectures subject →
    ∃ subject',
      findSubject subjectId (Store.handleDrop movedId subjectId targetId lib)
        = Some subject'
      ∧ immediately_before movedId targetId (s_lectures subject').

(** What a reorder may change in a subject: the order of its lectures. *)
Definition order_only (subjectId : jsstring) (s s' : Subject) : Prop :=
  s_id s' = s_id s ∧ s_name s' = s_name s
  ∧ s_lectures s' ≡ₚ s_lectures s
  ∧ (s_id s ≠ subjectId → s' = s).

(** [addLecture]: a subject with the given id gains one empty lecture of the
    given name at the end, any other subject is kept. *)
Definition gains_lecture (subjectId name : jsstring) (s s' : Subject) : Prop :=
  if bool_decide (s_id s = subjectId) then
    ∃ lec, s' = mkSubject (s_id s) (s_name s) (s_lectures s ++ [lec])
           ∧ l_name lec = name ∧ l_questions lec = []
  else s' = s.

(** [renameSubject]: a subject with the given id takes the given name. *)
Definition renamed_to (subjectId name : jsstring) (s s' : Subject) : Prop :=
  s_id s' = s_id s ∧ s_lectures s' = s_lectures s
  ∧ s_name s' = (if bool_decide (s_id s = subjectId) then name else s_name s).
(** ** Staging workflow *)

Module Staging.

(** What [Date.now()] and [Math.random()] return during one call of the
    handler: the [k]-th evaluation of the id template reads [clock k] and
    the rendering [random k] of the random number. *)
Record IdEnv := mkIdEnv { clock : nat → N; random : nat → jsstring }.

(** Computations that draw ids: the state is the number of draws so far. *)
Definition Gen (A : Type) : Type := nat → A * nat.

#[global] Instance gen_ret : MRet Gen := λ A x k, (x, k).

#[global] Instance gen_bind : MBind Gen :=
  λ A B f m k, let (x, k') := m k in f x k'.

(** The id drawn at tick [k]. *)
Definition libId (env : IdEnv) (k : nat) : jsstring :=
  js "lib-" ++ decimal (clock env k) ++ js "-" ++ random env k.

(** [`lib-${Date.now()}-${Math.random()}`] *)
Definition freshId (env : IdEnv) : Gen jsstring := λ k, (libId env k, S k).

Record State := mkState {
  subjects : Library;
  extractionResults : list ExtractionResult;
  selectedStagedIds : gset jsstring }.

(** [extractionResults.flatMap(r => r.questions).filter(q => selected.has(q.id))] *)
Definition questionsToAdd (results : list ExtractionResult)
    (selected : gset jsstring) : list Question :=
  filter (λ q, q_id q ∈ selected) (results ≫= r_questions).

Definition addToLecture (env : IdEnv) (toAdd : list Question)
    (lectureId : jsstring) (lecture : Lecture) : Gen Lecture :=
  if bool_decide (l_id lecture ≠ lectureId) then mret lecture
  else
    newQuestions ← mapM (λ q, i ← freshId env; mret (q_with_id i q)) toAdd;
    mret (mkLecture (l_id lecture) (l_name lecture)
           (l_questions lecture ++ newQuestions)).

Definition addToSubject (env : IdEnv) (toAdd : list Question)
    (subjectId lectureId : jsstring) (subject : Subject) : Gen Subject :=
  if bool_decide (s_id subject ≠ subjectId) then mret subject
  else
    lectures ← mapM (addToLecture env toAdd lectureId) (s_lectures subject);
    mret (mkSubject (s_id subject) (s_name subject) lectures).

(** The staging result without its committed questions. *)
Definition withoutSelected (selected : gset jsstring) (r : ExtractionResult)
    : ExtractionResult :=
  mkResult (imageUrl r)
    (filter (λ q, q_id q ∉ selected) (r_questions r)) (r_error r).

(** [result.questions.length > 0 || result.error] *)
Definition keepResult (r : ExtractionResult) : bool :=
  (0 <? length (r_questions r)) || has_error r.

(** [handleAddQuestionsToLecture] *)
Definition handleAddQuestionsToLecture (env : IdEnv)
    (selectedSubjectId selectedLectureId : jsstring) (st : State) : State :=
  let toAdd := questionsToAdd (extractionResults st) (selectedStagedIds st) in
  if negb (str_truthy selectedSubjectId) || negb (str_truthy selectedLectureId)
     || (length toAdd =? 0) then st
  else
    mkState
      (fst (mapM (addToSubject env toAdd selectedSubjectId selectedLectureId)
              (subjects st) 0))
      (filter (λ r, keepResult r)
         (withoutSelected (selectedStagedIds st) <$> extractionResults st))
      ∅.

(** [handleToggleStagedQuestion] *)
Definition handleToggleStagedQuestion (questionId : jsstring) (st : State) : State :=
  mkState (subjects st) (extractionResults st)
    (if bool_decide (questionId ∈ selectedStagedIds st)
     then selectedStagedIds st ∖ {[questionId]}
     else selectedStagedIds st ∪ {[questionId]}).

(** [handleSelectAllStaged] *)
Definition handleSelectAllStaged (st : State) : State :=
  mkState (subjects st) (extractionResults st)
    (list_to_set (q_id <$> (extractionResults st ≫= r_questions))).

End Staging.

(** *** Vocabulary for the statements on commit *)

(** The lecture after commit: a lecture with the chosen id has the selected
    questions at its end, in order, under ids drawn from the environment;
    any other lecture is kept. *)
Definition commit_lecture (env : Staging.IdEnv) (lectureId : jsstring)
    (toAdd : list Question) (l l' : Lecture) : Prop :=
  if bool_decide (l_id l = lectureId) then
    ∃ k, l' = mkLecture (l_id l) (l_name l)
                (l_questions l
                 ++ zip_with q_with_id (Staging.libId env <$> seq k (length toAdd)) toAdd)
  else l' = l.

Definition commit_subject (env : Staging.IdEnv) (subjectId lectureId : jsstring)
    (toAdd : list Question) (s s' : Subject) : Prop :=
  if bool_decide (s_id s = subjectId) then
    s_id s' = s_id s ∧ s_name s' = s_name s
    ∧ Forall2 (commit_lecture env lectureId toAdd) (s_lectures s) (s_lectures s')
  else s' = s.

(** The same question under another id. *)
Definition same_but_id (q q' : Question) : Prop :=
  match q, q' with
  | MCQ _ t o c, MCQ _ t' o' c' => t = t' ∧ o = o' ∧ c = c'
  | ShortAnswerQuestion _ t a, ShortAnswerQuestion _ t' a' => t = t' ∧ a = a'
  | _, _ => False
  end.

(** The lecture after commit, with the ids spelled out: a lecture with the
    chosen id has, at its end and in order, the selected questions under
    the ids [gid k], [gid (k + 1)], ...; any other lecture is kept. *)
Definition committed_lecture (gid : nat → jsstring) (lectureId : jsstring)
    (toAdd : list Question) (l l' : Lecture) : Prop :=
  if bool_decide (l_id l = lectureId) then
    ∃ k added,
      l' = mkLecture (l_id l) (l_name l) (l_questions l ++ added)
      ∧ Forall2 same_but_id toAdd added
      ∧ q_id <$> added = gid <$> seq k (length toAdd)
  else l' = l.

Definition committed_subject (gid : nat → jsstring) (subjectId lectureId : jsstring)
    (toAdd : list Question) (s s' : Subject) : Prop :=
  if bool_decide (s_id s = subjectId) then
    s_id s' = s_id s ∧ s_name s' = s_name s
    ∧ Forall2 (committed_lecture gid lectureId toAdd) (s_lectures s) (s_lectures s')
  else s' = s.

(** [Date.now()] and [Math.random()] never give the same pair twice. *)
Definition never_repeats (env : Staging.IdEnv) : Prop :=
  ∀ i j, Staging.clock env i = Staging.clock env j →
         Staging.random env i = Staging.random env j → i = j.
(** ** Extraction adapter *)

Module Extraction.

(** [[a-zA-Z0-9]] *)
Definition is_alnum (c : N) : bool :=
  ((48 <=? c) && (c <=? 57) || (65 <=? c) && (c <=? 90)
   || (97 <=? c) && (c <=? 122))%N.

(** [[.)]] *)
Definition is_closer (c : N) : bool := ((c =? 46) || (c =? 41))%N.

(** The rest of [s] after a match of [/^\s*[a-zA-Z0-9]+[.)]\s*/], if there
    is one.  The three classes are pairwise disjoint, so the greedy match
    is the only candidate at each step and the matcher never backtracks. *)
Definition labelEnd (s : jsstring) : option jsstring :=
  match skip is_space s with
  | c :: s1 =>
      if is_alnum c then
        match skip is_alnum s1 with
        | d :: s2 => if is_closer d then Some (skip is_space s2) else None
        | [] => None
        end
      else None
  | [] => None
  end.

(** [s.replace(/^\s*[a-zA-Z0-9]+[.)]\s*/, '')] *)
Definition stripLabel (s : jsstring) : jsstring := default s (labelEnd s).

(** The rule applied to an option text:
    [opt.replace(/^\s*[a-zA-Z0-9]+[.)]\s*/, '').trim()]. *)
Definition cleanOption (opt : jsstring) : jsstring := trim (stripLabel opt).

(** [a.join(",")] on rendered items. *)
Fixpoint join (items : list jsstring) : jsstring :=
  match items with
  | [] => []
  | [x] => x
  | x :: rest => x ++ js "," ++ join rest
  end.

(** [String(v)], for a value whose conversion returns (see [converts]). *)
Fixpoint js_String (v : json) : jsstring :=
  match v with
  | JNull => js "null"
  | JBool true => js "true"
  | JBool false => js "false"
  | JNum r => r
  | JStr s => s
  | JArr items =>
      join ((fix each (l : list json) : list jsstring :=
               match l with
               | [] => []
               | x :: l' =>
                   (match x with JNull => [] | _ => js_String x end) :: each l'
               end) items)
  | JObj _ => js "[object Object]"
  end.

(** Whether [String(v)] returns.  A parsed object with an own property
    [toString] holds a value there that cannot be called, and the
    conversion raises a [TypeError]; any other object is converted by
    [Object.prototype.toString].  An array converts its elements and raises
    where one of them does. *)
Fixpoint converts (v : json) : bool :=
  match v with
  | JArr items =>
      (fix each (l : list json) : bool :=
         match l with
         | [] => true
         | x :: l' => converts x && each l'
         end) items
  | JObj fields => negb (existsb (λ kv, bool_decide (kv.1 = js "toString")) fields)
  | _ => true
  end.

(** [String(opt ?? '')]; [None] when the conversion raises. *)
Definition optionText (opt : json) : option jsstring :=
  match opt with
  | JNull => Some []
  | _ => if converts opt then Some (js_String opt) else None
  end.

(** [o[name]] on the own properties of a parsed object (keys are distinct);
    [None] is [undefined]. *)
Fixpoint field (name : jsstring) (fields : list (jsstring * json)) : option json :=
  match fields with
  | [] => None
  | (k, v) :: rest => if bool_decide (k = name) then Some v else field name rest
  end.

(** [v || ''] for a possibly undefined [v]. *)
Definition orEmpty (v : option json) : json :=
  match v with
  | Some x => if truthy x then x else JStr []
  | None => JStr []
  end.

(** [`ext-${Date.now()}-${index}-${qIndex}`] *)
Definition extId (now : N) (index qIndex : nat) : jsstring :=
  js "ext-" ++ decimal now ++ js "-" ++ decimal (N.of_nat index)
  ++ js "-" ++ decimal (N.of_nat qIndex).

(** The callback of [parsedResponse.map]: [None] when it throws (reading a
    property of [null], or converting an option that does not convert),
    [Some None] when it returns [null].  Values that are not objects have
    no property [type].  [clock index qIndex] is what [Date.now()] returns
    there. *)
Definition toQuestion (clock : nat → nat → N) (index qIndex : nat) (q : json)
    : option (option Question) :=
  match q with
  | JNull => None
  | JObj fields =>
      match field (js "type") fields with
      | Some (JStr type) =>
          if bool_decide (type = js "mcq") then
            match mapM (λ opt, cleanOption <$> optionText opt)
                    match field (js "options") fields with
                    | Some (JArr opts) => opts
                    | _ => []
                    end with
            | Some options =>
                Some (Some (MCQ (extId (clock index qIndex) index qIndex)
                  (orEmpty (field (js "question") fields)) options None))
            | None => None
            end
          else if bool_decide (type = js "short_answer") then
            Some (Some (ShortAnswerQuestion (extId (clock index qIndex) index qIndex)
              (orEmpty (field (js "question") fields))
              (orEmpty (field (js "answer") fields))))
          else Some None
      | _ => Some None
      end
  | _ => Some None
  end.

(** What the service call for one image comes to. *)
Inductive Outcome :=
| CallFails
    (** [fileToGenerativePart] or [generateContent] rejects *)
| Responds (parsed : option json)
    (** [JSON.parse(response.text)]; [None] when it throws *).

Record File := mkFile { mimeType : jsstring; data : jsstring }.

(** The result of the [catch] branch. *)
Definition failed (imageUrls : list jsstring) (index : nat) : ExtractionResult :=
  mkResult (imageUrls !! index) []
    (Some (js "Failed to extract questions from image "
           ++ decimal (N.of_nat (index + 1)) ++ js ". Please try again.")).

(** The body of [images.map(async (file, index) => ...)]. *)
Definition analyzeImage (imageUrls : list jsstring) (clock : nat → nat → N)
    (index : nat) (outcome : Outcome) : ExtractionResult :=
  match outcome with
  | CallFails | Responds None => failed imageUrls index
  | Responds (Some (JArr items)) =>
      match mapM (λ '(qIndex, q), toQuestion clock index qIndex q)
                 (imap pair items) with
      | Some mapped => mkResult (imageUrls !! index) (omap id mapped) None
      | None => failed imageUrls index
      end
  | Responds (Some _) => mkResult (imageUrls !! index) [] None
  end.

Record State := mkState {
  images : list File;
  imageUrls : list jsstring;
  extractionResults : list ExtractionResult;
  selectedStagedIds : gset jsstring;
  isLoading : bool;
  error : option jsstring }.

(** [analyzeImages]: [service index file] is the outcome of the call for
    the image at [index]; [Promise.all] returns the results in the order
    of [images] whatever the order of completion. *)
Definition analyzeImages (service : nat → File → Outcome)
    (clock : nat → nat → N) (st : State) : State :=
  if length (images st) =? 0 then
    mkState (images st) (imageUrls st) (extractionResults st)
      (selectedStagedIds st) (isLoading st)
      (Some (js "Please upload one or more images first."))
  else
    mkState (images st) (imageUrls st)
      (imap (λ index file,
               analyzeImage (imageUrls st) clock index (service index file))
         (images st))
      ∅ false None.

End Extraction.

(** *** The adapter of [index.tsx]

    The earlier revision extracts multiple-choice questions only: the
    callback spreads the response object and cleans its options, and throws
    on anything whose [options] is not an array of strings. *)

Module IndexTsx.

(** [{ ...q, options: ..., id: ..., correctAnswer: undefined }]: the own
    properties of [q] other than the three that are overridden. *)
Record MCQ := mkMCQ {
  spread : list (jsstring * json);
  options : list jsstring;
  id : jsstring }.

Record ExtractionResult := mkResult {
  imageUrl : option jsstring;
  questions : list MCQ;
  error : option jsstring }.

(** [opt.replace(...).trim()]; [None] when [opt] is not a string. *)
Definition cleanOption (opt : json) : option jsstring :=
  match opt with
  | JStr s => Some (Extraction.cleanOption s)
  | _ => None
  end.

(** The callback of [parsedResponse.map]; [None] when it throws. *)
Definition toQuestion (clock : nat → nat → N) (index qIndex : nat) (q : json)
    : option MCQ :=
  match q with
  | JObj fields =>
      match Extraction.field (js "options") fields with
      | Some (JArr opts) =>
          cleaned ← mapM cleanOption opts;
          Some (mkMCQ
            (filter (λ kv, kv.1 ≠ js "options" ∧ kv.1 ≠ js "id"
                           ∧ kv.1 ≠ js "correctAnswer") fields)
            cleaned
            (Extraction.extId (clock index qIndex) index qIndex))
      | _ => None
      end
  | _ => None
  end.

Definition failed (imageUrls : list jsstring) (index : nat) : ExtractionResult :=
  mkResult (imageUrls !! index) []
    (Some (js "Failed to extract questions from image "
           ++ decimal (N.of_nat (index + 1)) ++ js ". Please try again.")).

Definition analyzeImage (imageUrls : list jsstring) (clock : nat → nat → N)
    (index : nat) (outcome : Extraction.Outcome) : ExtractionResult :=
  match outcome with
  | Extraction.CallFails | Extraction.Responds None => failed imageUrls index
  | Extraction.Responds (Some (JArr items)) =>
      match mapM (λ '(qIndex, q), toQuestion clock index qIndex q)
                 (imap pair items) with
      | Some questionsWithIds => mkResult (imageUrls !! index) questionsWithIds None
      | None => failed imageUrls index
      end
  | Extraction.Responds (Some _) => mkResult (imageUrls !! index) [] None
  end.

Record State := mkState {
  images : list Extraction.File;
  imageUrls : list jsstring;
  extractionResults : list ExtractionResult;
  isLoading : bool;
  appError : option jsstring }.

Definition analyzeImages (service : nat → Extraction.File → Extraction.Outcome)
    (clock : nat → nat → N) (st : State) : State :=
  if length (images st) =? 0 then
    mkState (images st) (imageUrls st) (extractionResults st) (isLoading st)
      (Some (js "Please upload one or more images first."))
  else
    mkState (images st) (imageUrls st)
      (imap (λ index file,
               analyzeImage (imageUrls st) clock index (service index file))
         (images st))
      false None.

End IndexTsx.

(** *** Vocabulary for the statements on the option rule *)

(** [s] starts with a match of [\s*[a-zA-Z0-9]+[.)]\s*]: blanks [ws1], the
    label [al], its closing sign [d], blanks [ws2], and then [rest]. *)
Definition label_match (s ws1 al : jsstring) (d : N) (ws2 rest : jsstring) : Prop :=
  s = ws1 ++ al ++ d :: ws2 ++ rest
  ∧ Forall (λ c, is_space c = true) ws1
  ∧ al ≠ [] ∧ Forall (λ c, Extraction.is_alnum c = true) al
  ∧ Extraction.is_closer d = true
  ∧ Forall (λ c, is_space c = true) ws2.

Definition has_label (s : jsstring) : Prop :=
  ∃ ws1 al d ws2 rest, label_match s ws1 al d ws2 rest.

(** "An input without leading marker is returned unchanged", at one input. *)
Definition unlabelled_is_unchanged (s : jsstring) : Prop :=
  ¬ has_label s → Extraction.cleanOption s = s.

(** An array element that is no question for the callback of [toQuestion]:
    not [null], and not an object whose [type] is one of the two kinds. *)
Definition not_question (q : json) : Prop :=
  match q with
  | JNull => False
  | JObj fields =>
      match Extraction.field (js "type") fields with
      | Some (JStr type) => type ≠ js "mcq" ∧ type ≠ js "short_answer"
      | _ => True
      end
  | _ => True
  end.

(** A response that is not a JSON array of objects. *)
Definition off_schema (parsed : option json) : Prop :=
  match parsed with
  | Some (JArr items) => ¬ Forall (λ q, ∃ fields, q = JObj fields) items
  | _ => True
  end.

(** "A response off the schema gives no question and no error", at one
    response. *)
Definition off_schema_is_silent (parsed : option json) : Prop :=
  off_schema parsed →
  ∀ imageUrls clock index,
    let r := Extraction.analyzeImage imageUrls clock index (Extraction.Responds parsed) in
    r_questions r = [] ∧ r_error r = None.

(** A value whose conversion to a string raises: an object with an own
    property [toString], or an array that holds such a value. *)
Inductive unconvertible : json → Prop :=
| unconvertible_object fields value :
    Extraction.field (js "toString") fields = Some value →
    unconvertible (JObj fields)
| unconvertible_array items x :
    x ∈ items → unconvertible x → unconvertible (JArr items).

(** An array element that is a question: an object whose [type] is one of
    the two kinds. *)
Definition is_question (q : json) : bool :=
  match q with
  | JObj fields =>
      match Extraction.field (js "type") fields with
      | Some (JStr type) =>
          bool_decide (type = js "mcq") || bool_decide (type = js "short_answer")
      | _ => false
      end
  | _ => false
  end.

(** An array element on which the callback raises: [null], or a
    multiple-choice question with an option that does not convert. *)
Definition raises (q : json) : Prop :=
  match q with
  | JNull => True
  | JObj fields =>
      Extraction.field (js "type") fields = Some (JStr (js "mcq"))
      ∧ ∃ opts opt,
          Extraction.field (js "options") fields = Some (JArr opts)
          ∧ opt ∈ opts ∧ unconvertible opt
  | _ => False
  end.

(** The positions of the questions in an array. *)
Definition question_positions (items : list json) : list nat :=
  fst <$> filter (λ p, is_question p.2 = true) (imap pair items).
(** ** Sync engine: the debounced save *)

Module Sync.

Inductive SaveStatus := Idle | Saving | Saved | Error.

(** What [await getGithubFile(pat)] comes to: it throws, returns [null] on
    404, or returns the parsed body (a field is [None] when the body has no
    string there); or the request never settles, for no timeout is set,
    and the task stays at the [await]. *)
Inductive ReadOutcome :=
| ReadFails
| NotFound
| Found (content : option jsstring) (sha : option jsstring)
| ReadPending.

(** What [await saveGithubFile(...)] comes to: it throws, or returns a body
    whose [content.sha] may be missing; or the request never settles. *)
Inductive WriteOutcome :=
| WriteFails
| Written (newSha : option jsstring)
| WritePending.

(** The state the save touches.  [writes] records the calls of
    [saveGithubFile] with their content and expected version. *)
Record State := mkState {
  saveStatus : SaveStatus;
  error : option jsstring;
  localStorage : gmap jsstring jsstring;
  writes : list (jsstring * option jsstring) }.

(** [s.replace(/\s/g, '')] *)
Definition removeWhitespace (s : jsstring) : jsstring :=
  filter (λ c, is_space c = false) s.

(** [sha || null] *)
Definition orNull (sha : option jsstring) : option jsstring :=
  match sha with
  | Some s => if str_truthy s then Some s else None
  | None => None
  end.

(** The [catch] branch. *)
Definition saveFailed (st : State) : State :=
  mkState Error
    (Some (js "Failed to save data to GitHub. Please check your token and repository settings."))
    (localStorage st) (writes st).

Section save.
(** [JSON.stringify(subjects, null, 2)], and [btoa], which throws on a
    code unit above 255. *)
Variable JSON_stringify : Library → jsstring.
Variable btoa : jsstring → option jsstring.

(** The remote store: the answer to the read of this run, and to a write
    of a content under an expected version. *)
Variable read : ReadOutcome.
Variable write : jsstring → option jsstring → WriteOutcome.

(** The effect on [subjects], [pat] and [isDataLoading]: it arms the
    timer and shows [Saving], unless the guard returns first. *)
Definition saveEffect (isInitialLoad : bool) (pat : option jsstring)
    (isDataLoading : bool) (st : State) : option State :=
  if isInitialLoad || negb (from_option str_truthy false pat) || isDataLoading
  then None
  else Some (mkState Saving (error st) (localStorage st) (writes st)).

(** The write and the mirroring that follows it. *)
Definition saveAndMirror (contentToSave encodedContent : jsstring)
    (expected : option jsstring) (st : State) : State :=
  match write encodedContent expected with
  | WriteFails =>
      saveFailed (mkState (saveStatus st) (error st) (localStorage st)
                    (writes st ++ [(encodedContent, expected)]))
  | Written newSha =>
      mkState Saved (error st)
        (let stored := <[js "qsnap_subjects" := contentToSave]> (localStorage st) in
         match orNull newSha with
         | Some s => <[js "qsnap_sha" := s]> stored
         | None => stored
         end)
        (writes st ++ [(encodedContent, expected)])
  | WritePending =>
      mkState (saveStatus st) (error st) (localStorage st)
        (writes st ++ [(encodedContent, expected)])
  end.

(** The timer callback. *)
Definition saveTask (subjects : Library) (st : State) : State :=
  match read with
  | ReadPending => st
  | ReadFails => saveFailed st
  | NotFound =>
      match btoa (JSON_stringify subjects) with
      | None => saveFailed st
      | Some encodedContent =>
          saveAndMirror (JSON_stringify subjects) encodedContent None st
      end
  | Found content sha =>
      match btoa (JSON_stringify subjects) with
      | None => saveFailed st
      | Some encodedContent =>
          match content with
          | None => saveFailed st
          | Some remote =>
              if bool_decide (removeWhitespace remote = removeWhitespace encodedContent)
              then mkState Saved (error st) (localStorage st) (writes st)
              else saveAndMirror (JSON_stringify subjects) encodedContent
                     (orNull sha) st
          end
      end
  end.

(** The write of [index.tsx], which keeps no local mirror. *)
Definition saveOnly (encodedContent : jsstring) (expected : option jsstring)
    (st : State) : State :=
  match write encodedContent expected with
  | WriteFails =>
      saveFailed (mkState (saveStatus st) (error st) (localStorage st)
                    (writes st ++ [(encodedContent, expected)]))
  | Written _ =>
      mkState Saved (error st) (localStorage st)
        (writes st ++ [(encodedContent, expected)])
  | WritePending =>
      mkState (saveStatus st) (error st) (localStorage st)
        (writes st ++ [(encodedContent, expected)])
  end.

(** The timer callback of [index.tsx]. *)
Definition saveTask_indexTsx (subjects : Library) (st : State) : State :=
  match read with
  | ReadPending => st
  | ReadFails => saveFailed st
  | NotFound =>
      match btoa (JSON_stringify subjects) with
      | None => saveFailed st
      | Some encodedContent => saveOnly encodedContent None st
      end
  | Found content sha =>
      match btoa (JSON_stringify subjects) with
      | None => saveFailed st
      | Some encodedContent =>
          match content with
          | None => saveFailed st
          | Some remote =>
              if bool_decide (removeWhitespace remote = removeWhitespace encodedContent)
              then mkState Saved (error st) (localStorage st) (writes st)
              else saveOnly encodedContent (orNull sha) st
          end
      end
  end.
End save.

End Sync.
(** ** PDF export

    The document object of jsPDF is modelled by what the export uses of it:
    the pages as lists of drawing commands, the current page (numbered from
    1) and the graphics state.  Lengths are JavaScript numbers, that is
    binary64 floats. *)

Module Pdf.

Local Open Scope float_scope.

Inductive FontStyle := Normal | Bold.

Abbreviation Color := (N * N * N)%type.

Inductive Draw :=
| Text (lines : list jsstring) (x y : float) (alignRight : bool)
       (lineHeightFactor : option float)
       (style : FontStyle) (size : float) (color : Color)
| Rect (x y w h : float) (fill : Color)
| Line (x1 y1 x2 y2 : float) (dash : list float).

Record Doc := mkDoc {
  pages : list (list Draw);
  current : nat;
  fontStyle : FontStyle;
  fontSize : float;
  textColor : Color;
  fillColor : Color;
  lineDash : list float }.

(** [new jsPDF()]: one empty page, 16pt, black. *)
Definition newDoc : Doc := mkDoc [[]] 1%nat Normal 16 (0, 0, 0)%N (0, 0, 0)%N [].

Definition getNumberOfPages (d : Doc) : nat := length (pages d).

(** [doc.addPage()] appends a page at the end and makes it current. *)
Definition addPage (d : Doc) : Doc :=
  mkDoc (pages d ++ [[]]) (length (pages d) + 1)%nat (fontStyle d) (fontSize d)
    (textColor d) (fillColor d) (lineDash d).

(** [doc.setPage(n)], for a page that exists. *)
Definition setPage (n : nat) (d : Doc) : Doc :=
  if (0 <? n)%nat && (n <=? length (pages d))%nat then
    mkDoc (pages d) n (fontStyle d) (fontSize d) (textColor d) (fillColor d)
      (lineDash d)
  else d.

(** [doc.movePage(target, before)]: the page numbered [target] is taken out
    and put back so that it is numbered [before]; it becomes current. *)
Definition movePage (target before : nat) (d : Doc) : Doc :=
  if (target =? before)%nat || (target =? 0)%nat || (before =? 0)%nat then d
  else
    match pages d !! (target - 1)%nat with
    | Some p =>
        mkDoc (splice_in (before - 1)%nat p (delete (target - 1)%nat (pages d)))
          before (fontStyle d) (fontSize d) (textColor d) (fillColor d) (lineDash d)
    | None => d
    end.

Definition setFont (s : FontStyle) (d : Doc) : Doc :=
  mkDoc (pages d) (current d) s (fontSize d) (textColor d) (fillColor d) (lineDash d).

Definition setFontSize (s : float) (d : Doc) : Doc :=
  mkDoc (pages d) (current d) (fontStyle d) s (textColor d) (fillColor d) (lineDash d).

Definition setTextColor (c : Color) (d : Doc) : Doc :=
  mkDoc (pages d) (current d) (fontStyle d) (fontSize d) c (fillColor d) (lineDash d).

Definition setFillColor (c : Color) (d : Doc) : Doc :=
  mkDoc (pages d) (current d) (fontStyle d) (fontSize d) (textColor d) c (lineDash d).

Definition setLineDashPattern (p : list float) (d : Doc) : Doc :=
  mkDoc (pages d) (current d) (fontStyle d) (fontSize d) (textColor d) (fillColor d) p.

(** A drawing command goes to the current page. *)
Definition draw (c : Draw) (d : Doc) : Doc :=
  mkDoc (alter (λ p, p ++ [c]) (current d - 1)%nat (pages d)) (current d)
    (fontStyle d) (fontSize d) (textColor d) (fillColor d) (lineDash d).

Definition text (lines : list jsstring) (x y : float) (alignRight : bool)
    (lineHeightFactor : option float) (d : Doc) : Doc :=
  draw (Text lines x y alignRight lineHeightFactor (fontStyle d) (fontSize d)
          (textColor d)) d.

Definition rect (x y w h : float) (d : Doc) : Doc :=
  draw (Rect x y w h (fillColor d)) d.

Definition line (x1 y1 x2 y2 : float) (d : Doc) : Doc :=
  draw (Line x1 y1 x2 y2 (lineDash d)) d.

(** A loop index as a number. *)
Fixpoint number (n : nat) : float :=
  match n with O => 0 | S n' => number n' + 1 end.

Inductive Level := SubjectLevel | LectureLevel.

Record TocEntry := mkTocEntry { title : jsstring; page : nat; level : Level }.

(** The layout cursor of [generatePdf]: the document, [y] and [toc]. *)
Record Layout := mkLayout { doc : Doc; y : float; toc : list TocEntry }.

Definition margin : float := 15.
Definition defaultTextColor : Color := (26, 32, 44)%N.
Definition darkTextColor : Color := (26, 32, 44)%N.
Definition gold : Color := (252, 230, 148)%N.

Section export.
(** The page size and the text metrics of jsPDF, under the current font. *)
Variables pageHeight pageWidth scaleFactor : float.
Variable splitTextToSize : FontStyle → float → jsstring → float → list jsstring.
Variable getTextDimensions :
  FontStyle → list jsstring → float → option float → float * float.
Variable getStringUnitWidth : FontStyle → jsstring → float.

(** The inputs of the export dialog. *)
Variable subjects : Library.
Variable selectedPdfLectures : gset jsstring.
Variable pdfTextSize : float.
Variable pdfShowAnswers : bool.

Definition baseFontSize : float := pdfTextSize.
Definition subjectFontSize : float := baseFontSize * 1.4.
Definition lectureFontSize : float := baseFontSize * 1.2.
Definition questionFontSize : float := baseFontSize.

(** The highlight rectangles of [addWrappedText], one per line. *)
Definition highlightLines (lines : list jsstring) (x yPos size : float)
    (d : Doc) : Doc :=
  let d := setFillColor gold d in
  let singleLineH := (getTextDimensions (fontStyle d) [js "M"] size None).2 in
  let singleLineHeightWithFactor := singleLineH * 1.25 in
  foldl (λ d '(index, ln),
           let lineWidth := getStringUnitWidth (fontStyle d) ln * size / scaleFactor in
           let currentLineY := yPos + number index * singleLineHeightWithFactor in
           rect (x - 1) (currentLineY - singleLineH * 0.85) (lineWidth + 2)
             (singleLineH * 1.1) d)
    d (imap pair lines).

(** [addWrappedText(text, x, yPos, { fontSize, fontStyle, highlight })] *)
Definition addWrappedText (txt : jsstring) (x yPos size : float)
    (style : FontStyle) (highlight : bool) (d : Doc) : Doc * float :=
  let d := setFontSize size (setFont style d) in
  let lines := splitTextToSize (fontStyle d) (fontSize d) txt (pageWidth - x - margin) in
  let textBlockHeight := (getTextDimensions (fontStyle d) lines size (Some 1.25)).2 in
  let '(d, yPos) :=
    if pageHeight - margin <? yPos + textBlockHeight
    then (addPage d, margin) else (d, yPos) in
  let d := if highlight then highlightLines lines x yPos size d else d in
  let d := setTextColor (if highlight then darkTextColor else defaultTextColor) d in
  let d := text lines x yPos false (Some 1.25) d in
  let d := if highlight then setTextColor defaultTextColor d else d in
  (d, yPos + textBlockHeight).

(** [y = addWrappedText(...) + gap] *)
Definition put (txt : jsstring) (x size : float) (style : FontStyle)
    (highlight : bool) (gap : float) (st : Layout) : Layout :=
  let '(d, y') := addWrappedText txt x (y st) size style highlight (doc st) in
  mkLayout d (y' + gap) (toc st).

(** [if (y + needed > pageHeight - margin) { doc.addPage(); y = margin; }] *)
Definition breakIfNeeded (needed : float) (st : Layout) : Layout :=
  if pageHeight - margin <? y st + needed
  then mkLayout (addPage (doc st)) margin (toc st) else st.

Definition pushToc (name : jsstring) (lvl : Level) (st : Layout) : Layout :=
  mkLayout (doc st) (y st)
    (toc st ++ [mkTocEntry name (getNumberOfPages (doc st)) lvl]).

Definition renderOption (correctAnswer : option nat) (st : Layout)
    (io : nat * jsstring) : Layout :=
  let '(oIndex, opt) := io in
  let isCorrect := pdfShowAnswers && bool_decide (correctAnswer = Some oIndex) in
  put ([N.of_nat (97 + oIndex) mod 65536; 41; 32]%N ++ opt) (margin + 5)
    questionFontSize (if isCorrect then Bold else Normal) isCorrect 2 st.

Definition renderQuestion (st : Layout) (iq : nat * Question) : Layout :=
  let '(qIndex, q) := iq in
  let st :=
    match q with
    | MCQ _ question options correctAnswer =>
        let st := put (decimal (N.of_nat (qIndex + 1)) ++ js ". "
                       ++ Extraction.js_String question)
                    margin questionFontSize Normal false 5 st in
        foldl (renderOption correctAnswer) st (imap pair options)
    | ShortAnswerQuestion _ question answer =>
        let st := put (decimal (N.of_nat (qIndex + 1)) ++ js ". "
                       ++ Extraction.js_String question)
                    margin questionFontSize Normal false 5 st in
        if pdfShowAnswers && truthy answer then
          put (js "Answer: " ++ Extraction.js_String answer) (margin + 5)
            questionFontSize Normal true 2 st
        else st
    end in
  mkLayout (doc st) (y st + 8) (toc st).

Definition renderLecture (st : Layout) (lecture : Lecture) : Layout :=
  let st := breakIfNeeded (lectureFontSize * 1.5) st in
  let st := pushToc (l_name lecture) LectureLevel st in
  let st := put (l_name lecture) margin lectureFontSize Bold true 8 st in
  foldl renderQuestion st (imap pair (l_questions lecture)).

Definition renderSubject (st : Layout) (subject : Subject) : Layout :=
  let selectedLectures :=
    filter (λ lec, l_id lec ∈ selectedPdfLectures) (s_lectures subject) in
  if (length selectedLectures =? 0)%nat then st
  else
    let st := breakIfNeeded (subjectFontSize * 1.5) st in
    let st := pushToc (s_name subject) SubjectLevel st in
    let st := put (s_name subject) margin subjectFontSize Bold true 10 st in
    foldl renderLecture st selectedLectures.

(** Pass 1: the content and the entries of the table of contents. *)
Definition contentPass : Layout :=
  foldl renderSubject
    (mkLayout (setTextColor defaultTextColor newDoc) margin []) subjects.

(** [doc.addPage(); doc.movePage(totalContentPages + 1, 1); doc.setPage(1);] *)
Definition insertTocPage (totalContentPages : nat) (d : Doc) : Doc :=
  setPage 1 (movePage (totalContentPages + 1) 1 (addPage d)).

Definition renderTocEntry (st : Layout) (entry : TocEntry) : Layout :=
  let st := if pageHeight - margin <? y st
            then mkLayout (addPage (doc st)) margin (toc st) else st in
  let d := doc st in
  let pageNumStr := decimal (N.of_nat (page entry)) in
  let x := match level entry with
           | LectureLevel => margin + 10
           | SubjectLevel => margin
           end in
  let pageNumWidth :=
    getStringUnitWidth (fontStyle d) pageNumStr * baseFontSize / scaleFactor in
  let availableWidth := pageWidth - x - margin - pageNumWidth - 10 in
  let truncatedTitle :=
    default [] (head (splitTextToSize (fontStyle d) (fontSize d) (title entry)
                        availableWidth)) in
  let titleWidth :=
    getStringUnitWidth (fontStyle d) truncatedTitle * baseFontSize / scaleFactor in
  let d := text [truncatedTitle] x (y st) false None d in
  let d := text [pageNumStr] (pageWidth - margin) (y st) true None d in
  let dotXStart := x + titleWidth + 2 in
  let dotXEnd := pageWidth - margin - pageNumWidth - 2 in
  let dotY := y st - baseFontSize * 0.25 in
  let d := setLineDashPattern [0.5; 1.5] d in
  let d := if dotXStart <? dotXEnd then line dotXStart dotY dotXEnd dotY d else d in
  let d := setLineDashPattern [] d in
  mkLayout d (y st + baseFontSize * 1.5) (toc st).

(** [`Page ${i - 1} of ${totalContentPages}`] *)
Definition pageNumText (totalContentPages i : nat) : jsstring :=
  js "Page " ++ decimal (N.of_nat (i - 1)) ++ js " of "
  ++ decimal (N.of_nat totalContentPages).

(** The body of the footer loop, for the page numbered [i]. *)
Definition stampFooter (totalContentPages : nat) (d : Doc) (i : nat) : Doc :=
  let d := setPage i d in
  let d := setFontSize 10 d in
  let textMetrics :=
    getTextDimensions (fontStyle d) [pageNumText totalContentPages i] 10 None in
  let d := setFillColor gold d in
  let d := rect (pageWidth - margin - textMetrics.1 - 2)
             (pageHeight - 10 - textMetrics.2 + 2)
             (textMetrics.1 + 4) textMetrics.2 d in
  let d := setTextColor darkTextColor d in
  let d := text [pageNumText totalContentPages i] (pageWidth - margin)
             (pageHeight - 10) true None d in
  setTextColor defaultTextColor d.

(** Pass 2 and the whole of [generatePdf]: the document that is saved. *)
Definition generatePdf : Doc :=
  let content := contentPass in
  let totalContentPages := getNumberOfPages (doc content) in
  let d := insertTocPage totalContentPages (doc content) in
  let '(d, y1) := addWrappedText (js "Table of Contents") margin margin
                    subjectFontSize Bold false d in
  let d := setTextColor defaultTextColor (setFont Normal (setFontSize baseFontSize d)) in
  let st := foldl renderTocEntry (mkLayout d (y1 + 15) []) (toc content) in
  foldl (stampFooter totalContentPages) (doc st)
    (seq 2 totalContentPages).

(** The two commands of the footer of the [i]-th content page. *)
Definition footer (totalContentPages i : nat) : list Draw :=
  let textMetrics :=
    getTextDimensions Normal [pageNumText totalContentPages (i + 1)] 10 None in
  [Rect (pageWidth - margin - textMetrics.1 - 2)
        (pageHeight - 10 - textMetrics.2 + 2)
        (textMetrics.1 + 4) textMetrics.2 gold;
   Text [pageNumText totalContentPages (i + 1)] (pageWidth - margin)
        (pageHeight - 10) true None Normal 10 darkTextColor].
End export.

End Pdf.

(** What pass 2 keeps true while it lays out the table of contents: the
    content pages [C] sit behind the first page, and the current page is
    the first one or one behind the content. *)
Definition beside (C : list (list Pdf.Draw)) (d : Pdf.Doc) : Prop :=
  (∃ p1 extra, Pdf.pages d = p1 :: C ++ extra)
  ∧ (Pdf.current d = 1 ∨ length C + 1 < Pdf.current d).
(** ** Further vocabulary for the library store *)

(** The names of the lectures filed under a subject id and a lecture id. *)
Definition lecture_names (subjectId lectureId : jsstring) (lib : Library)
    : list jsstring :=
  lib ≫= λ s,
    if bool_decide (s_id s = subjectId) then
      s_lectures s ≫= λ l,
        if bool_decide (l_id l = lectureId) then [l_name l] else []
    else [].

(** Subject ids are pairwise distinct, and so are the lecture ids within each
    subject. *)
Definition well_keyed (lib : Library) : Prop :=
  NoDup (subject_ids lib) ∧ Forall (λ s, NoDup (l_id <$> s_lectures s)) lib.

(** The shape of the library: its ids, level by level. *)
Definition skeleton (lib : Library) : list (jsstring * list (jsstring * list jsstring)) :=
  (λ s, (s_id s, (λ l, (l_id l, q_id <$> l_questions l)) <$> s_lectures s)) <$> lib.

(** All questions of the library, in order. *)
Definition all_questions (lib : Library) : list Question :=
  lib ≫= λ s, s_lectures s ≫= l_questions.

(** What a deletion inside a subject may change: lectures go, nothing else
    moves. *)
Definition lectures_removed (subjectId lectureId : jsstring) (s s' : Subject) : Prop :=
  s_id s' = s_id s ∧ s_name s' = s_name s
  ∧ s_lectures s' `sublist_of` s_lectures s
  ∧ (∀ l, l ∈ s_lectures s → s_id s ≠ subjectId ∨ l_id l ≠ lectureId →
          l ∈ s_lectures s')
  ∧ (s_id s = subjectId → lectureId ∉ l_id <$> s_lectures s').
(** ** Staging workflow: the other handlers *)

Module StagingMore.

(** [handleSelectStagedAnswer] *)
Definition handleSelectStagedAnswer (questionId : jsstring) (optionIndex : nat)
    (st : Staging.State) : Staging.State :=
  Staging.mkState (Staging.subjects st)
    ((λ result,
        mkResult (imageUrl result)
          ((λ q, match q with
                 | MCQ i t o c =>
                     if bool_decide (i = questionId) then MCQ i t o (Some optionIndex)
                     else q
                 | ShortAnswerQuestion _ _ _ => q
                 end) <$> r_questions result)
          (r_error result)) <$> Staging.extractionResults st)
    (Staging.selectedStagedIds st).

(** [handleDeselectAllStaged] *)
Definition handleDeselectAllStaged (st : Staging.State) : Staging.State :=
  Staging.mkState (Staging.subjects st) (Staging.extractionResults st) ∅.

(** [extractionResults.some(r => r.questions.length > 0)] *)
Definition hasStagedQuestions (results : list ExtractionResult) : bool :=
  existsb (λ r, 0 <? length (r_questions r)) results.

(** [extractionResults.reduce((acc, r) => acc + r.questions.length, 0)] *)
Definition totalStagedQuestions (results : list ExtractionResult) : nat :=
  foldl (λ acc r, acc + length (r_questions r)) 0 results.

End StagingMore.

(** A question without its chosen answer. *)
Definition without_answer (q : Question) : Question :=
  match q with
  | MCQ i t o _ => MCQ i t o None
  | ShortAnswerQuestion _ _ _ => q
  end.

(** The staged questions, in order. *)
Definition staged (st : Staging.State) : list Question :=
  Staging.extractionResults st ≫= r_questions.

(** A chosen answer on a staged question. *)
Definition has_answer (k : nat) (q : Question) : Prop :=
  match q with
  | MCQ _ _ _ c => c = Some k
  | ShortAnswerQuestion _ _ _ => True
  end.
(** ** Further vocabulary for the extraction adapter *)

(** [[0-9]] *)
Definition is_digit (c : N) : bool := ((48 <=? c) && (c <=? 57))%N.

(** An id made for a question of the image at position [index]. *)
Definition from_image (index : nat) (id : jsstring) : Prop :=
  ∃ now qIndex, id = Extraction.extId now index qIndex.

(** A question as the adapter hands it to staging: no answer is chosen, and
    the options of a multiple-choice question are cleaned texts. *)
Definition freshly_extracted (q : Question) : Prop :=
  match q with
  | MCQ _ _ options correctAnswer =>
      correctAnswer = None ∧ Forall (λ o, trim o = o) options
  | ShortAnswerQuestion _ _ _ => True
  end.
(** ** Blob store client and the load on mount *)

Module Github.

(** What a [response.json()] of the contents API comes to: it rejects, it
    gives a falsy value, or it gives a body, read here at the two string
    fields the callers use ([None] when the field is absent). *)
Inductive Body :=
| JsonRejects (message : jsstring)
| JsonFalsy
| JsonBody (content : option jsstring) (sha : option jsstring).

(** What a [fetch] comes to. *)
Inductive Http :=
| FetchRejects (message : jsstring)
| Response (status : nat) (statusText : jsstring) (body : Body).

(** [response.ok] *)
Definition ok (status : nat) : bool := (200 <=? status) && (status <=? 299).

(** What [getGithubFile] comes to: it throws, or it returns a falsy value
    or a body. *)
Inductive FileOutcome :=
| FileThrows (message : jsstring)
| FileNull
| FileData (content : option jsstring) (sha : option jsstring).

(** [getGithubFile] *)
Definition getGithubFile (h : Http) : FileOutcome :=
  match h with
  | FetchRejects message => FileThrows message
  | Response status statusText body =>
      if status =? 404 then FileNull
      else if negb (ok status) then
        FileThrows (js "GitHub API error: " ++ statusText)
      else match body with
           | JsonRejects message => FileThrows message
           | JsonFalsy => FileNull
           | JsonBody content sha => FileData content sha
           end
  end.

(** The body of an answer to the PUT: [errorData.message] on an error, and
    [content.sha] on success. *)
Inductive PutBody :=
| PutJsonRejects (message : jsstring)
| PutJson (message : jsstring) (newSha : option jsstring).

Inductive PutHttp :=
| PutRejects (message : jsstring)
| PutResponse (status : nat) (statusText : jsstring) (body : PutBody).

(** [saveGithubFile]: the outcome and, when it throws, the message. *)
Definition saveGithubFile (h : PutHttp) : Sync.WriteOutcome * option jsstring :=
  match h with
  | PutRejects message => (Sync.WriteFails, Some message)
  | PutResponse status statusText body =>
      if negb (ok status) then
        match body with
        | PutJsonRejects message => (Sync.WriteFails, Some message)
        | PutJson message _ =>
            (Sync.WriteFails,
             Some (js "GitHub API error: " ++ statusText ++ js " - " ++ message))
        end
      else match body with
           | PutJsonRejects message => (Sync.WriteFails, Some message)
           | PutJson _ newSha => (Sync.Written newSha, None)
           end
  end.

(** The result of [getGithubFile] as the save task reads it. *)
Definition asRead (f : FileOutcome) : Sync.ReadOutcome :=
  match f with
  | FileThrows _ => Sync.ReadFails
  | FileNull => Sync.NotFound
  | FileData content sha => Sync.Found content sha
  end.

End Github.

Module Load.

(** [JSON.parse] of the stored document, with [Array.isArray] on its
    result. *)
Inductive ParseOutcome :=
| ParseThrows (message : jsstring)
| NotArray
| IsArray (parsed : Library).

(** What the request to the token endpoint comes to: [fetch] rejects, the
    answer is not ok, reading its body throws, or the body has this [pat]
    ([None] when absent). *)
Inductive PatOutcome :=
| PatFetchRejects (message : jsstring)
| PatNotOk
| PatJsonThrows (message : jsstring)
| PatBody (pat : option jsstring).

(** A call that returns or throws. *)
Inductive Result (A : Type) :=
| Returns (value : A)
| Throws (message : jsstring).
Global Arguments Returns {A} value.
Global Arguments Throws {A} message.

Record State := mkState {
  subjects : Library;
  error : option jsstring;
  isDataLoading : bool;
  pat : option jsstring;
  localStorage : gmap jsstring jsstring;
  isInitialLoad : bool }.

(** [s] as a condition, for a value that may be [null]. *)
Definition present (s : option jsstring) : bool :=
  match s with Some x => str_truthy x | None => false end.

(** [String(sha)] as [localStorage.setItem] stores it. *)
Definition stored (sha : option jsstring) : jsstring :=
  match sha with Some s => s | None => js "undefined" end.

Section load.
Variable JSON_parse : jsstring → ParseOutcome.
Variable JSON_stringify : Library → jsstring.
Variable atob : jsstring → Result jsstring.

(** The part before [syncWithRemote]: the cached library, if one parses,
    and whether it was loaded. *)
Definition loadLocal (storage : gmap jsstring jsstring) : State * bool :=
  let empty := mkState [] None false None storage true in
  match storage !! js "qsnap_subjects" with
  | Some localData =>
      if str_truthy localData then
        match JSON_parse localData with
        | IsArray parsedData =>
            (mkState parsedData None false None storage true, true)
        | NotArray => (empty, false)
        | ParseThrows _ =>
            (mkState [] None false None
               (delete (js "qsnap_sha") (delete (js "qsnap_subjects") storage)) true,
             false)
        end
      else (empty, false)
  | None => (empty, false)
  end.

(** The [catch] of [syncWithRemote]. *)
Definition loadFailed (localDataLoaded : bool) (message : jsstring) (st : State)
    : State :=
  if localDataLoaded then st
  else mkState []
         (Some (js "Failed to load library: " ++ message
                ++ js ". You can still use the app, but data will not be saved."))
         (isDataLoading st) (pat st) (localStorage st) (isInitialLoad st).

(** The [try] of [syncWithRemote] once the file is read. *)
Definition useRemote (localDataLoaded : bool) (file : Github.FileOutcome)
    (st : State) : State :=
  match file with
  | Github.FileThrows message => loadFailed localDataLoaded message st
  | Github.FileNull =>
      if localDataLoaded then
        mkState [] (error st) (isDataLoading st) (pat st)
          (delete (js "qsnap_sha") (delete (js "qsnap_subjects") (localStorage st)))
          (isInitialLoad st)
      else st
  | Github.FileData content sha =>
      if bool_decide (sha ≠ None ∧ sha = localStorage st !! js "qsnap_sha") then st
      else
        match atob (stored content) with
        | Throws message => loadFailed localDataLoaded message st
        | Returns decodedContent =>
            match JSON_parse decodedContent with
            | ParseThrows message => loadFailed localDataLoaded message st
            | NotArray =>
                loadFailed localDataLoaded (js "Remote data is not a valid array.") st
            | IsArray parsedData =>
                mkState parsedData (error st) (isDataLoading st) (pat st)
                  (<[js "qsnap_sha" := stored sha]>
                     (<[js "qsnap_subjects" := JSON_stringify parsedData]>
                        (localStorage st)))
                  (isInitialLoad st)
            end
        end
  end.

(** The effect on mount, up to the end of [syncWithRemote] and of its
    timer.  [file token] is what [getGithubFile(token)] comes to. *)
Definition loadOnMount (storage : gmap jsstring jsstring) (token : PatOutcome)
    (file : jsstring → Github.FileOutcome) : State :=
  let '(st, localDataLoaded) := loadLocal storage in
  let st := mkState (subjects st) None (negb localDataLoaded) (pat st)
              (localStorage st) (isInitialLoad st) in
  let st :=
    match token with
    | PatFetchRejects message | PatJsonThrows message =>
        loadFailed localDataLoaded message st
    | PatNotOk =>
        loadFailed localDataLoaded (js "Failed to fetch authentication token.") st
    | PatBody fetchedPat =>
        if present fetchedPat then
          let st := mkState (subjects st) (error st) (isDataLoading st) fetchedPat
                      (localStorage st) (isInitialLoad st) in
          useRemote localDataLoaded (file (stored fetchedPat)) st
        else loadFailed localDataLoaded (js "Authentication token is invalid.") st
    end in
  mkState (subjects st) (error st) false (pat st) (localStorage st) false.
End load.

End Load.

(** The remote part of the load fails in transport: no usable token, or the
    read of the file throws. *)
Definition transport_failure (token : Load.PatOutcome)
    (file : jsstring → Github.FileOutcome) : Prop :=
  match token with
  | Load.PatBody fetchedPat =>
      if Load.present fetchedPat
      then ∃ message, file (Load.stored fetchedPat) = Github.FileThrows message
      else True
  | _ => True
  end.

(** Stand-ins for [JSON.parse], [JSON.stringify] and [atob] on the empty
    library. *)
Definition parse_sample (s : jsstring) : Load.ParseOutcome :=
  if bool_decide (s = js "[]") then Load.IsArray [] else Load.ParseThrows (js "Unexpected token").

Definition atob_sample (s : jsstring) : Load.Result jsstring :=
  if bool_decide (s = js "W10=") then Load.Returns (js "[]")
  else Load.Throws (js "The string to be decoded is not correctly encoded.").

(** The message shown when the library could not be loaded. *)
Definition load_error (message : jsstring) : jsstring :=
  js "Failed to load library: " ++ message
  ++ js ". You can still use the app, but data will not be saved.".

(** A remote store that answers every read with 404 and accepts every
    write, and one that refuses every write as a conflict. *)
Definition get_404 : Github.Http :=
  Github.Response 404 (js "Not Found") (Github.JsonBody None None).

Definition put_created (content : jsstring) (sha : option jsstring) : Github.PutHttp :=
  Github.PutResponse 201 (js "Created") (Github.PutJson (js "undefined") (Some (js "9f2c"))).

Definition put_conflict (content : jsstring) (sha : option jsstring) : Github.PutHttp :=
  Github.PutResponse 409 (js "Conflict") (Github.PutJson (js "sha does not match") None).

Definition sync_idle : Sync.State := Sync.mkState Sync.Idle None ∅ [].

(** A stand-in for [JSON.stringify(subjects, null, 2)] that tells the empty
    library from the others, and a store that accepts the first write. *)
Definition pretty_sample (lib : Library) : jsstring :=
  match lib with [] => js "[]" | _ => js "[ ... ]" end.

Definition btoa_total (s : jsstring) : option jsstring :=
  if bool_decide (s = js "[]") then Some (js "W10=") else Some (js "WyAuLi4gXQ==").

Definition write_accepts (content : jsstring) (sha : option jsstring) : Sync.WriteOutcome :=
  Sync.Written (Some (js "9f2c")).
(** ** Sample inputs *)

Definition lib_abc : Library :=
  [mkSubject (js "s") (js "Physics")
     [mkLecture (js "a") (js "A") []; mkLecture (js "b") (js "B") [];
      mkLecture (js "c") (js "C") []]].


Definition env_1700 : Staging.IdEnv :=
  Staging.mkIdEnv (λ k, 1700 + N.of_nat k)%N (λ _, js "0.25").

(** An environment in which the clock stands still and the random number
    comes out the same at every reading. *)
Definition env_stuck : Staging.IdEnv :=
  Staging.mkIdEnv (λ _, 1700%N) (λ _, js "0.25").

(** Three staged results: one with a selected and an unselected question,
    one whose only question is selected, one that failed. *)
Definition staged_3 : Staging.State :=
  Staging.mkState lib_abc
    [mkResult (Some (js "blob:1"))
       [MCQ (js "ext-1-0-0") (JStr (js "Q1")) [js "x"; js "y"] None;
        MCQ (js "ext-1-0-1") (JStr (js "Q2")) [js "u"] None] None;
     mkResult (Some (js "blob:2"))
       [ShortAnswerQuestion (js "ext-1-1-0") (JStr (js "Q3")) (JStr (js "A3"))] None;
     mkResult (Some (js "blob:3")) [] (Some (js "Failed"))]
    {[js "ext-1-0-0"; js "ext-1-1-0"]}.

(** A batch of three images; the call for the second one fails. *)
Definition service_3 (index : nat) (file : Extraction.File) : Extraction.Outcome :=
  match index with
  | 0 => Extraction.Responds (Some (JArr
           [JObj [(js "type", JStr (js "mcq"));
                  (js "question", JStr (js "Capital of France?"));
                  (js "options", JArr [JStr (js "A. Rome"); JStr (js "B) Paris")])]]))
  | 1 => Extraction.CallFails
  | _ => Extraction.Responds (Some (JArr
           [JStr (js "note");
            JObj [(js "type", JStr (js "short_answer"));
                  (js "question", JStr (js "Define force."))]]))
  end.

Definition batch_3 : Extraction.State :=
  Extraction.mkState
    [Extraction.mkFile (js "image/png") (js "QQ==");
     Extraction.mkFile (js "image/png") (js "Qg==");
     Extraction.mkFile (js "image/png") (js "Qw==")]
    [js "blob:1"; js "blob:2"; js "blob:3"] [] ∅ false None.

(** Base64 of a string of code units below 256, as [btoa] computes it. *)
Definition b64char (n : N) : N :=
  (if n <? 26 then 65 + n
   else if n <? 52 then 97 + (n - 26)
   else if n <? 62 then 48 + (n - 52)
   else if n =? 62 then 43 else 47)%N.

Fixpoint b64 (bytes : list N) : list N :=
  match bytes with
  | a :: b :: c :: rest =>
      let n := (a * 65536 + b * 256 + c)%N in
      b64char (n / 262144) :: b64char ((n / 4096) mod 64)
      :: b64char ((n / 64) mod 64) :: b64char (n mod 64) :: b64 rest
  | [a; b] =>
      let n := (a * 65536 + b * 256)%N in
      [b64char (n / 262144); b64char ((n / 4096) mod 64);
       b64char ((n / 64) mod 64); 61%N]
  | [a] =>
      let n := (a * 65536)%N in
      [b64char (n / 262144); b64char ((n / 4096) mod 64); 61%N; 61%N]
  | [] => []
  end.

Definition btoa_sample (s : jsstring) : option jsstring :=
  if forallb (λ c, c <? 256)%N s then Some (b64 s) else None.

(** Toy metrics for a page 60 high: every line is kept whole and is 8 high. *)
Definition sample_pdf (subjects : Library) (selected : gset jsstring) : Pdf.Doc :=
  Pdf.generatePdf 60%float 210%float 1%float
    (λ _ _ txt _, [txt])
    (λ _ lines _ _, (40, Pdf.number (length lines) * 8)%float)
    (λ _ txt, Pdf.number (length txt))
    subjects selected 12%float false.

(** The text commands of a page. *)
Definition page_texts (p : list Pdf.Draw) : list jsstring :=
  p ≫= λ c, match c with Pdf.Text lines _ _ _ _ _ _ _ => lines | _ => [] end.

Definition lib_two_lectures : Library :=
  [mkSubject (js "s") (js "Physics")
     [mkLecture (js "a") (js "A")
        [ShortAnswerQuestion (js "q1") (JStr (js "Q1")) (JStr (js "x"));
         MCQ (js "q2") (JStr (js "Q2")) [js "u"; js "v"] (Some 1)];
      mkLecture (js "b") (js "B") [];
      mkLecture (js "c") (js "C")
        [ShortAnswerQuestion (js "q3") (JStr (js "Q3")) (JStr [])]]].

Definition batch_3_indexTsx : IndexTsx.State :=
  IndexTsx.mkState
    [Extraction.mkFile (js "image/png") (js "QQ==");
     Extraction.mkFile (js "image/png") (js "Qg==");
     Extraction.mkFile (js "image/png") (js "Qw==")]
    [js "blob:1"; js "blob:2"; js "blob:3"] [] false None.

(** Two subjects whose lectures hold a question under the same id. *)
Definition lib_shared_id : Library :=
  [mkSubject (js "s1") (js "Physics")
     [mkLecture (js "a") (js "A")
        [ShortAnswerQuestion (js "q1") (JStr (js "Old")) (JStr (js "x"))]];
   mkSubject (js "s2") (js "Maths")
     [mkLecture (js "b") (js "B")
        [MCQ (js "q1") (JStr (js "Other")) [js "u"] None]]].
(** ** The selection of the export dialog *)

Module PdfSelect.

(** [selectAllForPdf] *)
Definition selectAllForPdf (subjects : Library) : gset jsstring :=
  foldl (λ allLectureIds sub,
           foldl (λ ids lec, ids ∪ {[l_id lec]}) allLectureIds (s_lectures sub))
    ∅ subjects.

(** [deselectAllForPdf] *)
Definition deselectAllForPdf : gset jsstring := ∅.

(** [handleSubjectSelectAll], for the subject on view. *)
Definition handleSubjectSelectAll (subject : Subject)
    (selectedPdfLectures : gset jsstring) : gset jsstring :=
  foldl (λ newSelection lec, newSelection ∪ {[l_id lec]})
    selectedPdfLectures (s_lectures subject).

(** [handleSubjectDeselectAll] *)
Definition handleSubjectDeselectAll (subject : Subject)
    (selectedPdfLectures : gset jsstring) : gset jsstring :=
  foldl (λ newSelection lec, newSelection ∖ {[l_id lec]})
    selectedPdfLectures (s_lectures subject).

(** The [onChange] of the check box of a lecture. *)
Definition toggleLecture (checked : bool) (lecture : Lecture)
    (selectedPdfLectures : gset jsstring) : gset jsstring :=
  if checked then selectedPdfLectures ∪ {[l_id lecture]}
  else selectedPdfLectures ∖ {[l_id lecture]}.

(** [selectedCount] of the subject list. *)
Definition selectedCount (subject : Subject)
    (selectedPdfLectures : gset jsstring) : nat :=
  length (filter (λ lec, l_id lec ∈ selectedPdfLectures) (s_lectures subject)).

(** [disabled] of the Generate PDF button. *)
Definition generateDisabled (selectedPdfLectures : gset jsstring) : bool :=
  (size selectedPdfLectures =? 0)%nat.

End PdfSelect.

(** The headings an export is to list: each subject that has a selected
    lecture, followed by its selected lectures. *)
Definition outline (subjects : Library) (selected : gset jsstring)
    : list (jsstring * Pdf.Level) :=
  subjects ≫= λ s,
    match filter (λ lec, l_id lec ∈ selected) (s_lectures s) with
    | [] => []
    | ls => (s_name s, Pdf.SubjectLevel)
            :: ((λ lec, (l_name lec, Pdf.LectureLevel)) <$> ls)
    end.

(** The headings of the whole library. *)
Definition full_outline (subjects : Library) : list (jsstring * Pdf.Level) :=
  subjects ≫= λ s,
    match s_lectures s with
    | [] => []
    | ls => (s_name s, Pdf.SubjectLevel)
            :: ((λ lec, (l_name lec, Pdf.LectureLevel)) <$> ls)
    end.

Definition heading (e : Pdf.TocEntry) : jsstring * Pdf.Level :=
  (Pdf.title e, Pdf.level e).

(** A library with the answers taken out. *)
Definition hide_answer (q : Question) : Question :=
  match q with
  | MCQ i t o _ => MCQ i t o None
  | ShortAnswerQuestion i t _ => ShortAnswerQuestion i t JNull
  end.

Definition hide_answers (lib : Library) : Library :=
  (λ s, mkSubject (s_id s) (s_name s)
          ((λ l, mkLecture (l_id l) (l_name l) (hide_answer <$> l_questions l))
             <$> s_lectures s)) <$> lib.

(** The layout cursor is on the last page. *)
Definition on_last (d : Pdf.Doc) : Prop :=
  Pdf.current d = length (Pdf.pages d) ∧ 1 ≤ length (Pdf.pages d).

(** Growth of the document: the cursor stays on the last page and no page
    goes away. *)
Definition grows (d d' : Pdf.Doc) : Prop :=
  on_last d → on_last d' ∧ length (Pdf.pages d) ≤ length (Pdf.pages d').

(** What the content pass keeps true of the entries gathered so far: the
    cursor is on the last page, the page numbers do not decrease and each
    is the number of a page that exists. *)
Definition toc_ok (st : Pdf.Layout) : Prop :=
  on_last (Pdf.doc st)
  ∧ StronglySorted le (Pdf.page <$> Pdf.toc st)
  ∧ Forall (λ e, 1 ≤ Pdf.page e ≤ length (Pdf.pages (Pdf.doc st))) (Pdf.toc st).

(** A step of the layout that gathers no entry. *)
Definition quiet (st st' : Pdf.Layout) : Prop :=
  Pdf.toc st' = Pdf.toc st ∧ grows (Pdf.doc st) (Pdf.doc st').
(** ** Facts on the array helpers *)

Section array_facts.
Context {A : Type}.
Implicit Types (p : A → bool) (l : list A).

Lemma findIndex_Some p l i :
  findIndex p l = Some i →
  ∃ x, l !! i = Some x ∧ p x = true ∧
       ∀ j y, j < i → l !! j = Some y → p y = false.
Proof.
  revert i. induction l as [|a l IH]; intros i; simpl; [done|].
  destruct (p a) eqn:Hp.
  - intros [= <-]. exists a. split_and!; [done..|]. intros j y Hj. lia.
  - destruct (findIndex p l) as [k|] eqn:Hk; simpl; [|done].
    intros [= <-]. destruct (IH k eq_refl) as (x & Hx & Hpx & Hlt).
    exists x. split_and!; [done..|].
    intros [|j] y Hj; simpl; [by intros [= <-]|].
    apply Hlt. lia.
Qed.

Lemma findIndex_None p l :
  findIndex p l = None ↔ Forall (λ x, p x = false) l.
Proof.
  induction l as [|a l IH]; simpl.
  - split; [constructor|done].
  - destruct (p a) eqn:Hp.
    + split; [done|]. intros H%Forall_cons. destruct H; congruence.
    + destruct (findIndex p l); simpl.
      * split; [done|]. intros H%Forall_cons. destruct H as [_ H].
        apply IH in H. done.
      * split; [|done]. intros _. constructor; [done|]. by apply IH.
Qed.

Lemma findIndex_is_Some p l :
  is_Some (findIndex p l) ↔ ∃ x, x ∈ l ∧ p x = true.
Proof.
  split.
  - intros [i Hi]. apply findIndex_Some in Hi as (x & Hx & Hp & _).
    exists x. split; [|done]. by eapply list_elem_of_lookup_2.
  - intros (x & Hx & Hp). destruct (findIndex p l) eqn:E; [by eexists|].
    apply findIndex_None in E. rewrite Forall_forall in E.
    specialize (E x Hx). congruence.
Qed.

Lemma findIndex_insert p l i x :
  findIndex p l = Some i → p x = true → findIndex p (<[i:=x]> l) = Some i.
Proof.
  revert i. induction l as [|a l IH]; intros i; simpl; [done|].
  destruct (p a) eqn:Hp.
  - intros [= <-] Hx. simpl. by rewrite Hx.
  - destruct (findIndex p l) as [k|] eqn:Hk; simpl; [|done].
    intros [= <-] Hx. simpl. rewrite Hp. by rewrite (IH k eq_refl Hx).
Qed.

Lemma splice_in_Permutation i x l : splice_in i x l ≡ₚ x :: l.
Proof.
  unfold splice_in. rewrite <-Permutation_middle. by rewrite take_drop.
Qed.

Lemma splice_in_lookup i x l : i ≤ length l → splice_in i x l !! i = Some x.
Proof.
  intros Hi. unfold splice_in.
  rewrite lookup_app_r; rewrite length_take; [|lia].
  by replace (i - i `min` length l) with 0 by lia.
Qed.

Lemma splice_in_lookup_lt i j x l :
  j < i → i ≤ length l → splice_in i x l !! j = l !! j.
Proof.
  intros Hj Hi. unfold splice_in.
  rewrite lookup_app_l; [|rewrite length_take; lia].
  by rewrite lookup_take_lt.
Qed.

Lemma splice_in_lookup_gt i j x l :
  i ≤ j → i ≤ length l → splice_in i x l !! S j = l !! j.
Proof.
  intros Hj Hi. unfold splice_in.
  rewrite lookup_app_r; rewrite length_take; [|lia].
  replace (S j - i `min` length l) with (S (j - i)) by lia. simpl.
  rewrite lookup_drop. f_equal. lia.
Qed.
End array_facts.
(** ** The library store *)

Section store_facts.
Import Store.

Lemma fmap_fixed {A} (f : A → A) (l : list A) :
  Forall (λ x, f x = x) l → f <$> l = l.
Proof. induction 1 as [|x l Hx _ IH]; csimpl; [done|]. by rewrite Hx, IH. Qed.

Lemma filter_fixed {A} (P : A → Prop) `{!∀ x, Decision (P x)} (l : list A) :
  Forall P l → filter P l = l.
Proof.
  induction 1 as [|x l Hx _ IH]; [done|].
  rewrite filter_cons_True by done. by rewrite IH.
Qed.

Lemma str_truthy_false s : str_truthy s = false ↔ s = [].
Proof. by destruct s. Qed.

Lemma str_truthy_true s : str_truthy s = true ↔ s ≠ [].
Proof. by destruct s. Qed.

Lemma find_Some {A} (p : A → bool) l x :
  find p l = Some x →
  ∃ i, findIndex p l = Some i ∧ l !! i = Some x ∧ p x = true.
Proof.
  unfold find. destruct (findIndex p l) as [i|] eqn:Hi; simpl; [|done].
  intros Hx. exists i. split_and!; [done..|].
  apply findIndex_Some in Hi as (y & Hy & Hp & _). congruence.
Qed.

Lemma find_None {A} (p : A → bool) l :
  find p l = None ↔ findIndex p l = None.
Proof.
  unfold find. destruct (findIndex p l) as [i|] eqn:Hi; simpl; [|done].
  apply findIndex_Some in Hi as (y & Hy & _). rewrite Hy. done.
Qed.

Lemma lectureIndex_None lid ls :
  lectureIndex lid ls = None ↔ lid ∉ l_id <$> ls.
Proof.
  unfold lectureIndex. rewrite findIndex_None, Forall_forall. split.
  - intros H (l & -> & Hl)%list_elem_of_fmap.
    specialize (H l Hl). by rewrite bool_decide_eq_false in H.
  - intros H l Hl. rewrite bool_decide_eq_false. intros <-.
    apply H. by apply list_elem_of_fmap_2.
Qed.

Lemma findSubject_None sid lib :
  findSubject sid lib = None ↔ sid ∉ subject_ids lib.
Proof.
  unfold findSubject, subject_ids. rewrite find_None, findIndex_None, Forall_forall.
  split.
  - intros H (s & -> & Hs)%list_elem_of_fmap.
    specialize (H s Hs). by rewrite bool_decide_eq_false in H.
  - intros H s Hs. rewrite bool_decide_eq_false. intros <-.
    apply H. by apply list_elem_of_fmap_2.
Qed.

Lemma lecture_ids_found sid lib s lid :
  s ∈ lib → s_id s = sid → lid ∈ l_id <$> s_lectures s → lid ∈ lecture_ids sid lib.
Proof.
  intros Hs Hid Hl. unfold lecture_ids. apply list_elem_of_bind.
  exists s. split; [|done]. by rewrite bool_decide_eq_true_2.
Qed.

Lemma moveLecture_Permutation di ti ls : moveLecture di ti ls ≡ₚ ls.
Proof.
  unfold moveLecture. destruct (ls !! di) as [x|] eqn:E; [|done].
  rewrite splice_in_Permutation. symmetry. by apply delete_Permutation.
Qed.

(** The effective case of [handleDrop], and the only one. *)
Lemma handleDrop_cases m sid t lib :
  handleDrop m sid t lib = lib ∨
  ∃ si subject di ti,
    str_truthy m = true ∧ m ≠ t
    ∧ findIndex (λ s, bool_decide (s_id s = sid)) lib = Some si
    ∧ lib !! si = Some subject
    ∧ lectureIndex m (s_lectures subject) = Some di
    ∧ lectureIndex t (s_lectures subject) = Some ti
    ∧ handleDrop m sid t lib =
        <[si := mkSubject (s_id subject) (s_name subject)
                  (moveLecture di ti (s_lectures subject))]> lib.
Proof.
  unfold handleDrop, lectureIndex.
  destruct (str_truthy m) eqn:Hm; simpl; [|by left].
  case_bool_decide as Hmt; [by left|].
  destruct (findIndex _ lib) as [si|] eqn:Hsi; [|by left].
  destruct (lib !! si) as [subject|] eqn:Hsub; [|by left].
  destruct (findIndex _ (s_lectures subject)) as [di|] eqn:Hdi; [|by left].
  destruct (findIndex (λ l, bool_decide (l_id l = t)) _) as [ti|] eqn:Hti; [|by left].
  right. exists si, subject, di, ti. done.
Qed.

Lemma handleDrop_effective m sid t lib si subject di ti :
  str_truthy m = true → m ≠ t →
  findIndex (λ s, bool_decide (s_id s = sid)) lib = Some si →
  lib !! si = Some subject →
  lectureIndex m (s_lectures subject) = Some di →
  lectureIndex t (s_lectures subject) = Some ti →
  handleDrop m sid t lib =
    <[si := mkSubject (s_id subject) (s_name subject)
              (moveLecture di ti (s_lectures subject))]> lib.
Proof.
  intros Hm Hmt Hsi Hsub Hdi Hti. unfold handleDrop, lectureIndex in *.
  rewrite Hm, bool_decide_eq_false_2 by done. simpl.
  by rewrite Hsi, Hsub, Hdi, Hti.
Qed.

(** Every id-lookup failure of [handleDrop] returns the library as is. *)
Lemma handleDrop_noop m sid t lib :
  m = [] ∨ m = t ∨ sid ∉ subject_ids lib
  ∨ m ∉ lecture_ids sid lib ∨ t ∉ lecture_ids sid lib →
  handleDrop m sid t lib = lib.
Proof.
  intros Habs.
  destruct (handleDrop_cases m sid t lib)
    as [->|(si & subject & di & ti & Hm & Hmt & Hsi & Hsub & Hdi & Hti & _)]; [done|].
  exfalso.
  assert (Hin : subject ∈ lib) by by eapply list_elem_of_lookup_2.
  assert (Hid : s_id subject = sid).
  { apply findIndex_Some in Hsi as (x & Hx & Hp & _).
    rewrite bool_decide_eq_true in Hp. congruence. }
  assert (Hpresent : ∀ lid i, lectureIndex lid (s_lectures subject) = Some i →
                              lid ∈ lecture_ids sid lib).
  { intros lid i Hi. eapply lecture_ids_found; [done..|].
    destruct (decide (lid ∈ l_id <$> s_lectures subject)) as [|Hn]; [done|].
    apply lectureIndex_None in Hn. congruence. }
  destruct Habs as [->|[->|[Hs|[Hl|Hl]]]]; [done|done| | |].
  - apply Hs. unfold subject_ids. rewrite <-Hid. by apply list_elem_of_fmap_2.
  - by eapply Hl, Hpresent.
  - by eapply Hl, Hpresent.
Qed.

Lemma moveLecture_lookups di ti ls moved target :
  ls !! di = Some moved → ls !! ti = Some target →
  moveLecture di ti ls !! ti = Some moved
  ∧ (ti < di → moveLecture di ti ls !! S ti = Some target)
  ∧ (di < ti → moveLecture di ti ls !! (ti - 1) = Some target).
Proof.
  intros Hd Ht. unfold moveLecture. rewrite Hd.
  assert (Hlen : length (delete di ls) = length ls - 1)
    by by apply length_delete.
  apply lookup_lt_Some in Ht as Hlt.
  split_and!.
  - apply splice_in_lookup. lia.
  - intros Hcmp. rewrite splice_in_lookup_gt by lia.
    by rewrite list_lookup_delete_lt.
  - intros Hcmp. rewrite splice_in_lookup_lt by lia.
    rewrite list_lookup_delete_ge by lia.
    by replace (S (ti - 1)) with ti by lia.
Qed.

Lemma lecture_ids_absent lid sid lib s :
  lid ∉ lecture_ids sid lib → s ∈ lib → s_id s = sid →
  Forall (λ l, l_id l ≠ lid) (s_lectures s).
Proof.
  intros Habs Hs Hid. apply Forall_forall. intros l Hl <-.
  apply Habs. eapply lecture_ids_found; [done..|]. by apply list_elem_of_fmap_2.
Qed.

Lemma question_ids_absent qid sid lid lib s l :
  qid ∉ question_ids sid lid lib → s ∈ lib → s_id s = sid →
  l ∈ s_lectures s → l_id l = lid →
  Forall (λ q, q_id q ≠ qid) (l_questions l).
Proof.
  intros Habs Hs Hsid Hl Hlid. apply Forall_forall. intros q Hq <-.
  apply Habs. unfold question_ids. apply list_elem_of_bind.
  exists s. split; [|done]. rewrite bool_decide_eq_true_2 by done.
  apply list_elem_of_bind. exists l. split; [|done].
  rewrite bool_decide_eq_true_2 by done. by apply list_elem_of_fmap_2.
Qed.

Lemma all_question_ids_absent qid lib s l :
  qid ∉ all_question_ids lib → s ∈ lib → l ∈ s_lectures s →
  Forall (λ q, q_id q ≠ qid) (l_questions l).
Proof.
  intros Habs Hs Hl. apply Forall_forall. intros q Hq <-.
  apply Habs. unfold all_question_ids. apply list_elem_of_bind.
  exists s. split; [|done]. apply list_elem_of_bind. exists l.
  split; [|done]. by apply list_elem_of_fmap_2.
Qed.

Lemma subject_absent_no_lectures sid lib lid :
  sid ∉ subject_ids lib → lid ∉ lecture_ids sid lib.
Proof.
  intros Habs (s & Hl & Hs)%list_elem_of_bind.
  case_bool_decide as Hid; [|by apply not_elem_of_nil in Hl].
  apply Habs. unfold subject_ids. rewrite <-Hid. by apply list_elem_of_fmap_2.
Qed.

Lemma lecture_absent_no_questions sid lid lib qid :
  lid ∉ lecture_ids sid lib → qid ∉ question_ids sid lid lib.
Proof.
  intros Habs (s & Hq & Hs)%list_elem_of_bind.
  case_bool_decide as Hsid; [|by apply not_elem_of_nil in Hq].
  apply list_elem_of_bind in Hq as (l & Hq & Hl).
  case_bool_decide as Hlid; [|by apply not_elem_of_nil in Hq].
  apply Habs. eapply lecture_ids_found; [done..|].
  rewrite <-Hlid. by apply list_elem_of_fmap_2.
Qed.

Lemma lecture_ids_in_library sid lib lid :
  lid ∈ lecture_ids sid lib → lid ∈ all_lecture_ids lib.
Proof.
  intros (s & Hl & Hs)%list_elem_of_bind.
  case_bool_decide; [|by apply not_elem_of_nil in Hl].
  apply list_elem_of_bind. by exists s.
Qed.

Lemma question_ids_in_library sid lid lib qid :
  qid ∈ question_ids sid lid lib → qid ∈ all_question_ids lib.
Proof.
  intros (s & Hq & Hs)%list_elem_of_bind.
  case_bool_decide; [|by apply not_elem_of_nil in Hq].
  apply list_elem_of_bind in Hq as (l & Hq & Hl).
  case_bool_decide; [|by apply not_elem_of_nil in Hq].
  apply list_elem_of_bind. exists s. split; [|done].
  apply list_elem_of_bind. by exists l.
Qed.

Lemma lectureName_raises names sid :
  lectureName names sid = LookupRaises ↔ names !! sid = None ∧ sid ∈ inherited.
Proof.
  unfold lectureName. destruct (names !! sid) as [typed|]; [by split; [|intros []]|].
  case_bool_decide; split; try done; by intros [].
Qed.

Lemma handleAddLecture_raises names sid now lib :
  handleAddLecture names sid now lib = TypeError
  ↔ names !! sid = None ∧ sid ∈ inherited.
Proof.
  rewrite <-lectureName_raises. unfold handleAddLecture.
  destruct (lectureName names sid) as [|name|]; [done| |done].
  by destruct (str_truthy name).
Qed.

Lemma handleAddLecture_noop names sid now lib :
  sid ∉ subject_ids lib →
  is_Some (names !! sid) ∨ sid ∉ inherited →
  handleAddLecture names sid now lib = Done lib.
Proof.
  intros Habs Hown. unfold handleAddLecture, lectureName.
  destruct (names !! sid) as [typed|].
  - destruct (str_truthy (trim typed)); [|done]. f_equal.
    apply fmap_fixed, Forall_forall. intros s Hs.
    case_bool_decide as Hid; [|done]. exfalso. apply Habs.
    unfold subject_ids. rewrite <-Hid. by apply list_elem_of_fmap_2.
  - destruct Hown as [[? [=]]|Hout]. by rewrite bool_decide_eq_false_2.
Qed.

Lemma deleteLecture_noop conf lid sid lib :
  lid ∉ lecture_ids sid lib →
  handleConfirmDelete conf (Some (DelLecture lid (Some sid))) lib = lib.
Proof.
  intros Habs. unfold handleConfirmDelete.
  destruct (negb _); [done|]. destruct (str_truthy sid); [|done].
  apply fmap_fixed, Forall_forall. intros s Hs.
  case_bool_decide as Hid; [|done].
  rewrite filter_fixed by by eapply lecture_ids_absent. by destruct s.
Qed.

Lemma handleDeleteQuestion_noop sid lid qid lib :
  qid ∉ question_ids sid lid lib → handleDeleteQuestion sid lid qid lib = lib.
Proof.
  intros Habs. unfold handleDeleteQuestion.
  apply fmap_fixed, Forall_forall. intros s Hs.
  case_bool_decide as Hid; [done|].
  rewrite fmap_fixed; [by destruct s|].
  apply Forall_forall. intros l Hl.
  case_bool_decide as Hlid; [done|].
  rewrite filter_fixed by by eapply question_ids_absent. by destruct l.
Qed.

Lemma handleSaveEdit_noop edited qid lib :
  qid ∉ all_question_ids lib →
  handleSaveEdit (Some edited) (Some qid) lib = lib.
Proof.
  intros Habs. unfold handleSaveEdit. destruct (str_truthy qid); [|done].
  apply fmap_fixed, Forall_forall. intros s Hs.
  rewrite fmap_fixed; [by destruct s|].
  apply Forall_forall. intros l Hl.
  rewrite fmap_fixed; [by destruct l|].
  eapply Forall_impl; [by eapply all_question_ids_absent|].
  intros q Hq. simpl in Hq. by rewrite bool_decide_eq_false_2.
Qed.
End store_facts.

(** C8.  Reordering a lecture within a subject is a pure permutation: every
    subject keeps its id and name, its lectures (ids and contents) are the
    same multiset in a possibly different order, subjects with another id
    are untouched; dropping a lecture on itself leaves the library as it
    is. *)
Theorem handleDrop_permutation (m sid t : jsstring) (lib : Library) :
  Forall2 (order_only sid) lib (Store.handleDrop m sid t lib)
  ∧ Forall2 (λ s s', l_id <$> s_lectures s' ≡ₚ l_id <$> s_lectures s)
      lib (Store.handleDrop m sid t lib)
  ∧ Store.handleDrop t sid t lib = lib.
Proof.
  assert (Hrefl : Forall2 (order_only sid) lib lib).
  { apply Forall_Forall2_diag, Forall_forall. intros s _. by repeat split. }
  assert (H1 : Forall2 (order_only sid) lib (Store.handleDrop m sid t lib)).
  { destruct (handleDrop_cases m sid t lib)
      as [->|(si & subject & di & ti & _ & _ & Hsi & Hsub & _ & _ & ->)]; [done|].
    rewrite <-(list_insert_id lib si subject) at 1 by done.
    apply Forall2_insert; [done|]. repeat split; simpl.
    - apply moveLecture_Permutation.
    - intros Hne. apply findIndex_Some in Hsi as (x & Hx & Hp & _).
      rewrite bool_decide_eq_true in Hp. congruence. }
  split_and!; [done| |].
  - eapply Forall2_impl; [exact H1|]. intros s s' (_ & _ & Hp & _). by rewrite Hp.
  - unfold Store.handleDrop. rewrite bool_decide_eq_true_2 by done.
    by rewrite orb_true_r.
Qed.

(** C1 (as the code has it).  For a non-empty [m] distinct from [t], both
    found in the lectures of the first subject with id [sid], the reorder
    puts the moved lecture at the index the target had before the move:
    the target directly follows it when the moved lecture came from below
    the target, and directly precedes it when it came from above.  When the
    two ids are equal, or one of them is not among the lectures filed under
    [sid], the library is returned as it is. *)
Theorem handleDrop_takes_target_index (lib : Library) (sid m t : jsstring) :
  (∀ subject di ti,
     str_truthy m = true → m ≠ t →
     findSubject sid lib = Some subject →
     lectureIndex m (s_lectures subject) = Some di →
     lectureIndex t (s_lectures subject) = Some ti →
     ∃ moved target subject',
       s_lectures subject !! di = Some moved ∧ l_id moved = m
       ∧ s_lectures subject !! ti = Some target ∧ l_id target = t
       ∧ findSubject sid (Store.handleDrop m sid t lib) = Some subject'
       ∧ s_lectures subject' !! ti = Some moved
       ∧ (ti < di → s_lectures subject' !! S ti = Some target)
       ∧ (di < ti → s_lectures subject' !! (ti - 1) = Some target))
  ∧ (m = t ∨ m ∉ lecture_ids sid lib ∨ t ∉ lecture_ids sid lib →
     Store.handleDrop m sid t lib = lib).
Proof.
  split.
  - intros subject di ti Hm Hmt Hfind Hdi Hti.
    apply find_Some in Hfind as (si & Hsi & Hsub & Hp).
    pose proof Hdi as Hdi'. pose proof Hti as Hti'.
    apply findIndex_Some in Hdi' as (moved & Hmoved & Hmid & _).
    apply findIndex_Some in Hti' as (target & Htarget & Htid & _).
    rewrite bool_decide_eq_true in Hmid, Htid.
    destruct (moveLecture_lookups di ti _ _ _ Hmoved Htarget) as (H1 & H2 & H3).
    eexists moved, target, _. split_and!; [done..| | | |].
    + rewrite (handleDrop_effective m sid t lib si subject di ti) by done.
      unfold findSubject, find. erewrite findIndex_insert; [|done|done].
      simpl. apply list_lookup_insert_eq. by eapply lookup_lt_Some.
    + done.
    + done.
    + done.
  - intros H. apply handleDrop_noop. tauto.
Qed.

Lemma handleDrop_takes_target_index_witness :
  (∃ moved target subject',
     s_lectures (mkSubject (js "s") (js "Physics")
       [mkLecture (js "a") (js "A") []; mkLecture (js "b") (js "B") [];
        mkLecture (js "c") (js "C") []]) !! 0 = Some moved ∧ l_id moved = js "a"
     ∧ s_lectures (mkSubject (js "s") (js "Physics")
       [mkLecture (js "a") (js "A") []; mkLecture (js "b") (js "B") [];
        mkLecture (js "c") (js "C") []]) !! 2 = Some target ∧ l_id target = js "c"
     ∧ findSubject (js "s") (Store.handleDrop (js "a") (js "s") (js "c") lib_abc)
         = Some subject'
     ∧ s_lectures subject' !! 2 = Some moved
     ∧ (2 < 0 → s_lectures subject' !! 3 = Some target)
     ∧ (0 < 2 → s_lectures subject' !! (2 - 1) = Some target))
  ∧ Store.handleDrop (js "b") (js "s") (js "b") lib_abc = lib_abc.
Proof.
  split.
  - apply (proj1 (handleDrop_takes_target_index lib_abc (js "s") (js "a") (js "c")));
      [reflexivity | by vm_compute | reflexivity | reflexivity | reflexivity].
  - apply (proj2 (handleDrop_takes_target_index lib_abc (js "s") (js "b") (js "b"))).
    left. reflexivity.
Defined.

(** C1 as stated fails: dragging the first of three lectures onto the last
    leaves it after the target, not before. *)
Lemma handleDrop_lands_after_target :
  Store.handleDrop (js "a") (js "s") (js "c") lib_abc
    = [mkSubject (js "s") (js "Physics")
         [mkLecture (js "b") (js "B") []; mkLecture (js "c") (js "C") [];
          mkLecture (js "a") (js "A") []]]
  ∧ ¬ reorder_lands_before_target lib_abc (js "s") (js "a") (js "c").
Proof.
  split; [by vm_compute|].
  intros H.
  destruct (H (mkSubject (js "s") (js "Physics")
       [mkLecture (js "a") (js "A") []; mkLecture (js "b") (js "B") [];
        mkLecture (js "c") (js "C") []]))
    as (s' & Hs' & i & x & y & Hx & Hy & Hxm & Hyt).
  - reflexivity.
  - by vm_compute.
  - apply list_elem_of_In. vm_compute. tauto.
  - apply list_elem_of_In. vm_compute. tauto.
  - vm_compute in Hs'. injection Hs' as <-.
    destruct i as [|[|[|i]]]; simpl in Hx, Hy; simplify_eq; by vm_compute in Hxm, Hyt.
Qed.

(** Delete lecture, delete question, update question and reorder lecture,
    called with a subject id, lecture id or question id that the library
    does not hold, or does not hold at the addressed place, return the
    library they were given; none of them has an operation that can raise.
    Add lecture, called with a subject id that the library does not hold,
    returns with the library it was given when a name was typed for that
    id or the id is not the name of an inherited property. *)
Theorem missing_id_is_noop (lib : Library) :
  (∀ names sid now,
     sid ∉ subject_ids lib →
     is_Some (names !! sid) ∨ sid ∉ Store.inherited →
     Store.handleAddLecture names sid now lib = Store.Done lib)
  ∧ (∀ conf lid sid,
       sid ∉ subject_ids lib ∨ lid ∉ all_lecture_ids lib
       ∨ lid ∉ lecture_ids sid lib →
       Store.handleConfirmDelete conf (Some (Store.DelLecture lid (Some sid))) lib = lib)
  ∧ (∀ sid lid qid,
       sid ∉ subject_ids lib ∨ lid ∉ all_lecture_ids lib
       ∨ qid ∉ all_question_ids lib
       ∨ lid ∉ lecture_ids sid lib ∨ qid ∉ question_ids sid lid lib →
       Store.handleDeleteQuestion sid lid qid lib = lib)
  ∧ (∀ edited qid,
       qid ∉ all_question_ids lib →
       Store.handleSaveEdit (Some edited) (Some qid) lib = lib)
  ∧ (∀ m sid t,
       sid ∉ subject_ids lib
       ∨ m ∉ all_lecture_ids lib ∨ t ∉ all_lecture_ids lib
       ∨ m ∉ lecture_ids sid lib ∨ t ∉ lecture_ids sid lib →
       Store.handleDrop m sid t lib = lib).
Proof.
  split_and!.
  - intros names sid now. apply handleAddLecture_noop.
  - intros conf lid sid H. apply deleteLecture_noop.
    destruct H as [H|[H|H]]; [by apply subject_absent_no_lectures| |done].
    intros Hin. by apply H, (lecture_ids_in_library sid).
  - intros sid lid qid H. apply handleDeleteQuestion_noop.
    destruct H as [H|[H|[H|[H|H]]]]; [| | | |done].
    + by apply lecture_absent_no_questions, subject_absent_no_lectures.
    + apply lecture_absent_no_questions. intros Hin.
      by apply H, (lecture_ids_in_library sid).
    + intros Hin. by apply H, (question_ids_in_library sid lid).
    + by apply lecture_absent_no_questions.
  - intros edited qid. apply handleSaveEdit_noop.
  - intros m sid t H. apply handleDrop_noop.
    destruct H as [H|[H|[H|[H|H]]]]; [tauto| | |tauto|tauto].
    + right. right. right. left. intros Hin.
      by apply H, (lecture_ids_in_library sid).
    + right. right. right. right. intros Hin.
      by apply H, (lecture_ids_in_library sid).
Qed.

(** Membership in a concrete list of ids, decided by evaluation. *)
Ltac absent :=
  let H := fresh in
  intros H%list_elem_of_In; vm_compute in H; intuition discriminate.

Lemma missing_id_is_noop_witness :
  Store.handleAddLecture {[js "zz" := js "Optics"]} (js "zz") 1700 lib_abc
  = Store.Done lib_abc
  ∧ Store.handleConfirmDelete (js "DELETE")
      (Some (Store.DelLecture (js "x") (Some (js "s")))) lib_abc = lib_abc
  ∧ Store.handleDeleteQuestion (js "s") (js "a") (js "q1") lib_abc = lib_abc
  ∧ Store.handleSaveEdit (Some (ShortAnswerQuestion (js "q1") (JStr (js "Q")) (JStr [])))
      (Some (js "q1")) lib_abc = lib_abc
  ∧ Store.handleDrop (js "a") (js "s") (js "x") lib_abc = lib_abc.
Proof.
  destruct (missing_id_is_noop lib_abc) as (H1 & H2 & H3 & H4 & H5).
  split_and!.
  - apply H1; [absent|by left].
  - apply H2. right. left. absent.
  - apply H3. right. right. left. absent.
  - apply H4. absent.
  - apply H5. right. right. left. absent.
Defined.


(** C10.  A name whose trimmed form is empty leaves the library as it is
    under add subject, add lecture and rename subject; any other name is
    stored in its trimmed form. *)
Theorem names_are_trimmed (lib : Library) (name : jsstring) :
  (trim name = [] →
     (∀ now, Store.handleAddSubject name now lib = lib)
     ∧ (∀ names sid now,
          names !! sid = Some name →
          Store.handleAddLecture names sid now lib = Store.Done lib)
     ∧ (∀ editing, Store.handleUpdateSubject editing name lib = lib))
  ∧ (trim name ≠ [] →
     (∀ now, ∃ s,
          Store.handleAddSubject name now lib = lib ++ [s]
          ∧ s_name s = trim name ∧ s_lectures s = [])
     ∧ (∀ names sid now,
          names !! sid = Some name →
          ∃ lib',
            Store.handleAddLecture names sid now lib = Store.Done lib'
            ∧ Forall2 (gains_lecture sid (trim name)) lib lib')
     ∧ (∀ editing,
          Forall2 (renamed_to (s_id editing) (trim name)) lib
            (Store.handleUpdateSubject (Some editing) name lib))).
Proof.
  split.
  - intros Hempty. split_and!.
    + intros now. unfold Store.handleAddSubject. by rewrite Hempty.
    + intros names sid now Hname. unfold Store.handleAddLecture, Store.lectureName.
      rewrite Hname. by rewrite Hempty.
    + intros [editing|]; unfold Store.handleUpdateSubject; [|done].
      by rewrite Hempty.
  - intros Hname%str_truthy_true. split_and!.
    + intros now. eexists. unfold Store.handleAddSubject. rewrite Hname.
      by split_and!.
    + intros names sid now Hlook. unfold Store.handleAddLecture, Store.lectureName.
      rewrite Hlook, Hname. eexists. split; [done|].
      apply Forall2_fmap_r, Forall_Forall2_diag, Forall_forall.
      intros s _. unfold gains_lecture, compose. case_bool_decide; [|done].
      by eexists.
    + intros editing. unfold Store.handleUpdateSubject. rewrite Hname.
      apply Forall2_fmap_r, Forall_Forall2_diag, Forall_forall.
      intros s _. unfold renamed_to, compose. by case_bool_decide.
Qed.

Lemma names_are_trimmed_witness :
  (Store.handleAddSubject (js "   ") 1700 lib_abc = lib_abc
   ∧ Store.handleAddLecture {[js "s" := js "   "]} (js "s") 1700 lib_abc
     = Store.Done lib_abc
   ∧ Store.handleUpdateSubject (Some (mkSubject (js "s") (js "Physics") []))
       (js "   ") lib_abc = lib_abc)
  ∧ (∃ s, Store.handleAddSubject (js " Algebra ") 1700 lib_abc = lib_abc ++ [s]
          ∧ s_name s = trim (js " Algebra ") ∧ s_lectures s = [])
  ∧ (∃ lib',
       Store.handleAddLecture {[js "s" := js " Optics "]} (js "s") 1700 lib_abc
       = Store.Done lib'
       ∧ Forall2 (gains_lecture (js "s") (trim (js " Optics "))) lib_abc lib')
  ∧ Forall2 (renamed_to (js "s") (trim (js " Algebra "))) lib_abc
      (Store.handleUpdateSubject (Some (mkSubject (js "s") (js "Physics") []))
         (js " Algebra ") lib_abc).
Proof.
  destruct (proj1 (names_are_trimmed lib_abc (js "   ")) eq_refl) as (E1 & E2 & E3).
  assert (Hne : ∀ n, trim (js n) ≠ [] ↔ str_truthy (trim (js n)) = true)
    by (intros n; symmetry; apply str_truthy_true).
  destruct (proj2 (names_are_trimmed lib_abc (js " Algebra ")))
    as (A1 & _ & A3); [by apply Hne|].
  destruct (proj2 (names_are_trimmed lib_abc (js " Optics ")))
    as (_ & O2 & _); [by apply Hne|].
  split_and!.
  - apply E1.
  - apply E2. reflexivity.
  - apply E3.
  - apply A1.
  - apply O2. reflexivity.
  - apply (A3 (mkSubject (js "s") (js "Physics") [])).
Defined.

Example handleAddSubject_trims :
  Store.handleAddSubject (js " Algebra ") 1700 []
  = [mkSubject (js "sub-1700") (js "Algebra") []].
Proof. by vm_compute. Qed.
(** ** Decimal renderings and generated ids *)

Lemma js_cons c s : js (String c s) = N_of_ascii c :: js s.
Proof. done. Qed.

Lemma js_inj s s' : js s = js s' → s = s'.
Proof.
  revert s'. induction s as [|c s IH]; intros [|c' s']; try done.
  rewrite !js_cons. intros [= Hc Hs]. f_equal; [|by apply IH].
  apply (f_equal ascii_of_N) in Hc. by rewrite !ascii_N_embedding in Hc.
Qed.

Lemma decimal_inj a b : decimal a = decimal b → a = b.
Proof. intros H%js_inj. by apply (inj pretty). Qed.

Lemma pretty_N_char_digit k : is_digit (N_of_ascii (pretty_N_char k)) = true.
Proof. unfold pretty_N_char. by repeat case_match. Qed.

Lemma pretty_N_go_digits x s :
  Forall (λ c, is_digit c = true) (js s) →
  Forall (λ c, is_digit c = true) (js (pretty_N_go x s)).
Proof.
  revert s. induction (N.lt_wf_0 x) as [x _ IH]; intros s Hs.
  destruct (decide (x = 0)%N) as [->|Hx]; [by rewrite pretty_N_go_0|].
  rewrite pretty_N_go_step by lia. apply IH; [apply N.div_lt; lia|].
  rewrite js_cons. constructor; [apply pretty_N_char_digit|done].
Qed.

Lemma decimal_digits n : Forall (λ c, is_digit c = true) (decimal n).
Proof.
  unfold decimal, pretty, pretty_N. destruct (decide (n = 0)%N).
  - by repeat constructor.
  - apply pretty_N_go_digits. constructor.
Qed.

Lemma digits_dash_split X X' r r' :
  Forall (λ c, is_digit c = true) X → Forall (λ c, is_digit c = true) X' →
  X ++ 45%N :: r = X' ++ 45%N :: r' → X = X' ∧ r = r'.
Proof.
  intros HX. revert X'. induction HX as [|c X Hc _ IH]; intros X' HX'.
  - destruct HX' as [|c' X' Hc' _]; simpl; [by intros [= ->]|].
    intros [= <- _]. done.
  - destruct HX' as [|c' X' Hc' HX']; simpl.
    + intros [= -> _]. done.
    + intros [= -> H]. destruct (IH X' HX' H) as [-> ->]. done.
Qed.
(** ** The staging workflow *)

Section staging_facts.
Import Staging.
Context (env : IdEnv).

Lemma mapM_fresh (toAdd : list Question) (k : nat) :
  mapM (λ q, i ← freshId env; mret (q_with_id i q)) toAdd k
  = (zip_with q_with_id (libId env <$> seq k (length toAdd)) toAdd,
     k + length toAdd).
Proof.
  revert k. induction toAdd as [|q l IH]; intros k.
  - simpl. unfold mret, gen_ret. f_equal. lia.
  - change (mapM ?f (q :: l)) with (y ← f q; ys ← mapM f l; mret (y :: ys)).
    unfold mbind, gen_bind, freshId at 1. simpl. rewrite IH.
    unfold mret, gen_ret. f_equal. lia.
Qed.

Lemma mapM_Forall2 {A B} (R : A → B → Prop) (f : A → Gen B) :
  (∀ x k, R x (f x k).1) → ∀ l k, Forall2 R l (mapM f l k).1.
Proof.
  intros Hf l. induction l as [|x l IH]; intros k.
  - constructor.
  - change (mapM f (x :: l)) with (y ← f x; ys ← mapM f l; mret (y :: ys)).
    unfold mbind, gen_bind. specialize (Hf x k).
    destruct (f x k) as [y k1]. specialize (IH k1).
    destruct (mapM f l k1) as [ys k2]. simpl in *. by constructor.
Qed.

Lemma addToLecture_spec toAdd lid l k :
  commit_lecture env lid toAdd l (addToLecture env toAdd lid l k).1.
Proof.
  unfold commit_lecture, addToLecture.
  case_bool_decide as Hid.
  - rewrite bool_decide_eq_false_2 by (by intros ?).
    unfold mbind, gen_bind. rewrite mapM_fresh. simpl. by exists k.
  - by rewrite bool_decide_eq_true_2.
Qed.

Lemma addToSubject_spec toAdd sid lid s k :
  commit_subject env sid lid toAdd s (addToSubject env toAdd sid lid s k).1.
Proof.
  unfold commit_subject, addToSubject.
  case_bool_decide as Hid.
  - rewrite bool_decide_eq_false_2 by (by intros ?).
    unfold mbind, gen_bind.
    pose proof (mapM_Forall2 _ _ (addToLecture_spec toAdd lid) (s_lectures s) k) as H.
    destruct (mapM (M:=Gen) _ (s_lectures s) k) as [ls k']. simpl in *. done.
  - by rewrite bool_decide_eq_true_2.
Qed.

Lemma keepResult_iff r :
  keepResult r ↔ r_questions r ≠ [] ∨ has_error r.
Proof.
  unfold keepResult. rewrite orb_True. destruct (r_questions r); simpl.
  - split; intros [H|H]; auto; done.
  - split; intros _; by left.
Qed.
Lemma zip_with_same_but_id (ids : list jsstring) (toAdd : list Question) :
  length ids = length toAdd →
  Forall2 same_but_id toAdd (zip_with q_with_id ids toAdd)
  ∧ q_id <$> zip_with q_with_id ids toAdd = ids.
Proof.
  revert ids. induction toAdd as [|q toAdd IH]; intros [|i ids]; try done.
  intros [= Hlen]. destruct (IH ids Hlen) as [Hsame Hids]. split.
  - constructor; [by destruct q|done].
  - csimpl. rewrite Hids. by destruct q.
Qed.

Lemma addToLecture_committed toAdd lid l k :
  committed_lecture (libId env) lid toAdd l (addToLecture env toAdd lid l k).1.
Proof.
  unfold committed_lecture, addToLecture.
  case_bool_decide as Hid.
  - rewrite bool_decide_eq_false_2 by (by intros ?).
    unfold mbind, gen_bind. rewrite mapM_fresh. simpl.
    destruct (zip_with_same_but_id (libId env <$> seq k (length toAdd)) toAdd)
      as [Hsame Hids]; [by rewrite length_fmap, length_seq|].
    by eexists k, _.
  - by rewrite bool_decide_eq_true_2.
Qed.

Lemma addToSubject_committed toAdd sid lid s k :
  committed_subject (libId env) sid lid toAdd s (addToSubject env toAdd sid lid s k).1.
Proof.
  unfold committed_subject, addToSubject.
  case_bool_decide as Hid.
  - rewrite bool_decide_eq_false_2 by (by intros ?).
    unfold mbind, gen_bind.
    pose proof (mapM_Forall2 _ _ (addToLecture_committed toAdd lid) (s_lectures s) k)
      as H.
    destruct (mapM (M:=Gen) _ (s_lectures s) k) as [ls k']. simpl in *. done.
  - by rewrite bool_decide_eq_true_2.
Qed.

(** The ids drawn between two ticks. *)
Lemma drawn_app k a b :
  libId env <$> seq k (a + b)
  = (libId env <$> seq k a) ++ (libId env <$> seq (k + a) b).
Proof. by rewrite seq_app, fmap_app. Qed.

(** Accounting of ids through [mapM]: when each step adds to the ids of its
    item exactly the ids it draws, so does the whole pass. *)
Lemma mapM_accounts {A B} (idsA : A → list jsstring) (idsB : B → list jsstring)
    (f : A → Gen B) :
  (∀ x k, ∃ n, (f x k).2 = k + n
               ∧ idsB (f x k).1 ≡ₚ idsA x ++ (libId env <$> seq k n)) →
  ∀ l k, ∃ n, (mapM f l k).2 = k + n
              ∧ (mapM f l k).1 ≫= idsB ≡ₚ (l ≫= idsA) ++ (libId env <$> seq k n).
Proof.
  intros Hf l. induction l as [|x l IH]; intros k.
  - exists 0. split; [simpl; unfold mret, gen_ret; simpl; lia|done].
  - change (mapM f (x :: l)) with (y ← f x; ys ← mapM f l; mret (y :: ys)).
    unfold mbind, gen_bind. destruct (Hf x k) as (n1 & Hk1 & Hp1).
    destruct (f x k) as [y k1]. simpl in Hk1, Hp1. subst k1.
    destruct (IH (k + n1)) as (n2 & Hk2 & Hp2).
    destruct (mapM f l (k + n1)) as [ys k2]. simpl in Hk2, Hp2. subst k2.
    exists (n1 + n2). split; [simpl; lia|]. unfold mret, gen_ret. cbn [fst].
    rewrite !bind_cons, Hp1, Hp2, drawn_app.
    rewrite <-!app_assoc. f_equiv. rewrite !app_assoc. f_equiv.
    apply Permutation_app_comm.
Qed.

Lemma addToLecture_accounts toAdd lid l k :
  ∃ n, (addToLecture env toAdd lid l k).2 = k + n
       ∧ q_id <$> l_questions (addToLecture env toAdd lid l k).1
         ≡ₚ (q_id <$> l_questions l) ++ (libId env <$> seq k n).
Proof.
  unfold addToLecture. case_bool_decide.
  - exists 0. split; [simpl; lia|]. simpl. by rewrite app_nil_r.
  - unfold mbind, gen_bind. rewrite mapM_fresh. simpl.
    exists (length toAdd). split; [done|]. rewrite fmap_app.
    destruct (zip_with_same_but_id (libId env <$> seq k (length toAdd)) toAdd)
      as [_ ->]; [by rewrite length_fmap, length_seq|]. done.
Qed.

Lemma addToSubject_accounts toAdd sid lid s k :
  ∃ n, (addToSubject env toAdd sid lid s k).2 = k + n
       ∧ (s_lectures (addToSubject env toAdd sid lid s k).1
            ≫= λ l, q_id <$> l_questions l)
         ≡ₚ (s_lectures s ≫= λ l, q_id <$> l_questions l)
            ++ (libId env <$> seq k n).
Proof.
  unfold addToSubject. case_bool_decide.
  - exists 0. split; [simpl; lia|]. simpl. by rewrite app_nil_r.
  - unfold mbind, gen_bind.
    destruct (mapM_accounts (λ l, q_id <$> l_questions l)
                (λ l, q_id <$> l_questions l) (addToLecture env toAdd lid)
                (addToLecture_accounts toAdd lid) (s_lectures s) k)
      as (n & Hk & Hp).
    destruct (mapM (M:=Gen) _ (s_lectures s) k) as [ls k']. simpl in *.
    by exists n.
Qed.

Lemma commit_accounts toAdd sid lid lib :
  ∃ n, all_question_ids (mapM (addToSubject env toAdd sid lid) lib 0).1
       ≡ₚ all_question_ids lib ++ (libId env <$> seq 0 n).
Proof.
  destruct (mapM_accounts (λ s, s_lectures s ≫= λ l, q_id <$> l_questions l)
              (λ s, s_lectures s ≫= λ l, q_id <$> l_questions l)
              (addToSubject env toAdd sid lid)
              (addToSubject_accounts toAdd sid lid) lib 0) as (n & _ & Hp).
  by exists n.
Qed.

Lemma libId_inj i j :
  libId env i = libId env j → clock env i = clock env j ∧ random env i = random env j.
Proof.
  unfold libId. intros H%app_inv_head.
  change (js "-") with [45%N] in H. simpl in H.
  apply digits_dash_split in H as [Hc Hr]; [|apply decimal_digits..].
  by apply decimal_inj in Hc.
Qed.

Lemma drawn_NoDup k n : never_repeats env → NoDup (libId env <$> seq k n).
Proof.
  intros Hrep. apply NoDup_fmap_2_strong; [|apply NoDup_seq].
  intros i j _ _ [Hc Hr]%libId_inj. by apply Hrep.
Qed.
End staging_facts.




Example commit_staged_3 :
  Staging.subjects (Staging.handleAddQuestionsToLecture env_1700 (js "s") (js "a") staged_3)
  = [mkSubject (js "s") (js "Physics")
       [mkLecture (js "a") (js "A")
          [MCQ (js "lib-1700-0.25") (JStr (js "Q1")) [js "x"; js "y"] None;
           ShortAnswerQuestion (js "lib-1701-0.25") (JStr (js "Q3")) (JStr (js "A3"))];
        mkLecture (js "b") (js "B") []; mkLecture (js "c") (js "C") []]]
  ∧ Staging.extractionResults
      (Staging.handleAddQuestionsToLecture env_1700 (js "s") (js "a") staged_3)
  = [mkResult (Some (js "blob:1"))
       [MCQ (js "ext-1-0-1") (JStr (js "Q2")) [js "u"] None] None;
     mkResult (Some (js "blob:3")) [] (Some (js "Failed"))].
Proof. by vm_compute. Qed.
(** ** The extraction adapter *)

Section label_facts.
Import Extraction.

Ltac class_arith :=
  unfold is_alnum, is_space, is_closer;
  repeat (rewrite ?orb_true_iff, ?andb_true_iff, ?orb_false_iff,
            ?andb_false_iff, ?N.leb_le, ?N.eqb_eq, ?N.leb_gt, ?N.eqb_neq);
  lia.

Lemma alnum_not_space c : is_alnum c = true → is_space c = false.
Proof. class_arith. Qed.

Lemma closer_not_alnum c : is_closer c = true → is_alnum c = false.
Proof. class_arith. Qed.

Lemma skip_app p pre s :
  Forall (λ c, p c = true) pre → skip p (pre ++ s) = skip p s.
Proof. induction 1 as [|c pre Hc _ IH]; simpl; [done|]. by rewrite Hc. Qed.

Lemma skip_stop p c s : p c = false → skip p (c :: s) = c :: s.
Proof. intros H. simpl. by rewrite H. Qed.

Lemma skip_split p s :
  ∃ pre, s = pre ++ skip p s ∧ Forall (λ c, p c = true) pre.
Proof.
  induction s as [|c s (pre & Hs & Hpre)]; simpl.
  - by exists [].
  - destruct (p c) eqn:Hc.
    + exists (c :: pre). split; [by rewrite <-app_comm_cons, <-Hs|by constructor].
    + by exists [].
Qed.

Lemma skip_head p s c s' : skip p s = c :: s' → p c = false.
Proof.
  induction s as [|a s IH]; simpl; [done|].
  destruct (p a) eqn:Ha; [done|]. by intros [= <- _].
Qed.

Lemma skip_idem p s : skip p (skip p s) = skip p s.
Proof.
  destruct (skip p s) as [|c s'] eqn:E; [done|].
  apply skip_stop. by eapply skip_head.
Qed.

Lemma labelEnd_match s ws1 al d ws2 rest :
  label_match s ws1 al d ws2 rest → labelEnd s = Some (skip is_space rest).
Proof.
  intros (-> & Hws1 & Hne & Hal & Hd & Hws2). unfold labelEnd.
  rewrite skip_app by done.
  destruct al as [|c al]; [done|]. apply Forall_cons in Hal as [Hc Hal].
  rewrite <-app_comm_cons, skip_stop by by apply alnum_not_space.
  rewrite Hc, skip_app by done.
  rewrite skip_stop by by apply closer_not_alnum.
  by rewrite Hd, skip_app.
Qed.

Lemma labelEnd_Some s r :
  labelEnd s = Some r → ∃ ws1 al d ws2 rest, label_match s ws1 al d ws2 rest.
Proof.
  unfold labelEnd. intros H.
  destruct (skip_split is_space s) as (ws1 & Hs & Hws1).
  destruct (skip is_space s) as [|c s1]; [done|].
  destruct (is_alnum c) eqn:Hc; [|done].
  destruct (skip_split is_alnum s1) as (al & Hs1 & Hal).
  destruct (skip is_alnum s1) as [|d s2]; [done|].
  destruct (is_closer d) eqn:Hd; [|done].
  destruct (skip_split is_space s2) as (ws2 & Hs2 & Hws2).
  exists ws1, (c :: al), d, ws2, (skip is_space s2).
  split_and!; [|done|done|by constructor|done|done].
  etrans; [exact Hs|]. f_equal. simpl. f_equal.
  etrans; [exact Hs1|]. by do 2 f_equal.
Qed.

Lemma has_label_iff s : has_label s ↔ is_Some (labelEnd s).
Proof.
  split.
  - intros (ws1 & al & d & ws2 & rest & H). rewrite (labelEnd_match _ _ _ _ _ _ H).
    by eexists.
  - intros [r Hr]. by eapply labelEnd_Some.
Qed.

Lemma trim_skip s : trim (skip is_space s) = trim s.
Proof. unfold trim, trimStart. by rewrite skip_idem. Qed.

Lemma cleanOption_labelled s ws1 al d ws2 rest :
  label_match s ws1 al d ws2 rest → cleanOption s = trim rest.
Proof.
  intros H. unfold cleanOption, stripLabel.
  rewrite (labelEnd_match _ _ _ _ _ _ H). simpl. apply trim_skip.
Qed.

Lemma cleanOption_unlabelled s : ¬ has_label s → cleanOption s = trim s.
Proof.
  rewrite has_label_iff. intros H. unfold cleanOption, stripLabel.
  destruct (labelEnd s); [|done]. destruct H. by eexists.
Qed.
End label_facts.

(** C6 (as the code has it).  The option rule removes one leading label
    (blanks, letters or digits, a dot or closing parenthesis, blanks) and
    trims: ["B) Paris"] gives ["Paris"], ["3. 42"] gives ["42"]; an input
    without leading label comes back trimmed, hence unchanged when it has
    no blank at either end. *)
Theorem cleanOption_rule :
  Extraction.cleanOption (js "B) Paris") = js "Paris"
  ∧ Extraction.cleanOption (js "3. 42") = js "42"
  ∧ (∀ s ws1 al d ws2 rest,
       label_match s ws1 al d ws2 rest → Extraction.cleanOption s = trim rest)
  ∧ (∀ s, ¬ has_label s → Extraction.cleanOption s = trim s)
  ∧ (∀ s, ¬ has_label s → trim s = s → Extraction.cleanOption s = s).
Proof.
  split_and!; [by vm_compute|by vm_compute| | |].
  - apply cleanOption_labelled.
  - apply cleanOption_unlabelled.
  - intros s Hs Ht. by rewrite cleanOption_unlabelled.
Qed.

Lemma cleanOption_rule_witness :
  Extraction.cleanOption (js " a) b) Rome ") = trim (js "b) Rome ")
  ∧ Extraction.cleanOption (js " Paris ") = trim (js " Paris ")
  ∧ Extraction.cleanOption (js "New York") = js "New York".
Proof.
  destruct cleanOption_rule as (_ & _ & H1 & H2 & H3).
  assert (Hno : ∀ s, Extraction.labelEnd (js s) = None → ¬ has_label (js s)).
  { intros s Hs [r Hr]%has_label_iff. congruence. }
  split_and!.
  - apply (H1 _ (js " ") (js "a") 41%N (js " ") (js "b) Rome ")).
    unfold label_match. split_and!; [by vm_compute| |by vm_compute| |by vm_compute|];
      repeat constructor.
  - apply H2, Hno. by vm_compute.
  - apply H3; [apply Hno|]; by vm_compute.
Defined.

(** C6 as stated fails: an input without leading label but with a blank at
    its end is not returned unchanged. *)
Lemma cleanOption_trims_unlabelled :
  Extraction.cleanOption (js "Paris ") = js "Paris"
  ∧ ¬ unlabelled_is_unchanged (js "Paris ").
Proof.
  split; [by vm_compute|].
  intros H. unfold unlabelled_is_unchanged in H.
  assert (Hno : ¬ has_label (js "Paris ")).
  { intros [r Hr]%has_label_iff. by vm_compute in Hr. }
  specialize (H Hno). by vm_compute in H.
Qed.

Section batch_facts.
Import Extraction.

Lemma failed_has_error urls index :
  r_questions (failed urls index) = [] ∧ has_error (failed urls index) = true.
Proof. done. Qed.

Lemma failed_indexTsx_has_error urls index :
  IndexTsx.questions (IndexTsx.failed urls index) = []
  ∧ str_truthy <$> IndexTsx.error (IndexTsx.failed urls index) = Some true.
Proof. done. Qed.

Lemma analyzeImages_results service clock st :
  images st ≠ [] →
  extractionResults (analyzeImages service clock st)
  = imap (λ index file,
            analyzeImage (imageUrls st) clock index (service index file))
      (images st).
Proof. unfold analyzeImages. by destruct (images st). Qed.

Lemma analyzeImages_indexTsx_results service clock st :
  IndexTsx.images st ≠ [] →
  IndexTsx.extractionResults (IndexTsx.analyzeImages service clock st)
  = imap (λ index file,
            IndexTsx.analyzeImage (IndexTsx.imageUrls st) clock index
              (service index file))
      (IndexTsx.images st).
Proof. unfold IndexTsx.analyzeImages. by destruct (IndexTsx.images st). Qed.

Lemma lookup_nonempty {A} (l : list A) k x : l !! k = Some x → l ≠ [].
Proof. by destruct l. Qed.

Lemma toQuestion_not_question clock index n q :
  not_question q → toQuestion clock index n q = Some None.
Proof.
  destruct q; try done. simpl.
  destruct (field (js "type") fields) as [[]|]; try done.
  intros [H1 H2]. by rewrite !bool_decide_eq_false_2.
Qed.

(** Elements that are no questions are passed over. *)
Lemma mapM_toQuestion_skips clock index items n :
  Forall not_question items →
  ∃ mapped,
    mapM (λ '(qIndex, q), toQuestion clock index qIndex q)
      (imap (λ i, pair (n + i)) items) = Some mapped
    ∧ omap id mapped = [].
Proof.
  intros H. revert n. induction H as [|q items Hq Hrest IH]; intros n.
  - by exists [].
  - destruct (IH (S n)) as (mapped & Hm & Ho).
    exists (None :: mapped). split; [|done].
    simpl. rewrite toQuestion_not_question by done.
    simpl. unfold compose.
    erewrite imap_ext; [rewrite Hm; done|].
    intros i x _. simpl. f_equal. lia.
Qed.

(** A [null] element makes the callback throw. *)
Lemma mapM_toQuestion_null clock index items n :
  JNull ∈ items →
  mapM (λ '(qIndex, q), toQuestion clock index qIndex q)
    (imap (λ i, pair (n + i)) items) = None.
Proof.
  revert n. induction items as [|q items IH]; intros n H.
  - by apply not_elem_of_nil in H.
  - apply elem_of_cons in H as [<-|H]; [reflexivity|].
    simpl. destruct (toQuestion clock index (n + 0) q); [|done]. simpl.
    unfold compose. erewrite imap_ext; [rewrite (IH (S n)); done|].
    intros i x _. simpl. f_equal. lia.
Qed.

Lemma analyzeImage_not_array urls clock index v :
  (∀ items, v ≠ JArr items) →
  analyzeImage urls clock index (Responds (Some v)) = mkResult (urls !! index) [] None
  ∧ IndexTsx.analyzeImage urls clock index (Responds (Some v))
    = IndexTsx.mkResult (urls !! index) [] None.
Proof. intros H. destruct v; try done. by destruct (H items). Qed.
Lemma json_nested_ind (P : json → Prop) :
  P JNull → (∀ b, P (JBool b)) → (∀ r, P (JNum r)) → (∀ t, P (JStr t)) →
  (∀ items, Forall P items → P (JArr items)) → (∀ fields, P (JObj fields)) →
  ∀ v, P v.
Proof.
  intros Hnull Hbool Hnum Hstr Harr Hobj. fix IH 1. intros [|b|r|t|items|fields].
  - exact Hnull.
  - apply Hbool.
  - apply Hnum.
  - apply Hstr.
  - apply Harr. induction items as [|x items IHitems]; constructor.
    + apply IH.
    + exact IHitems.
  - apply Hobj.
Qed.

Lemma field_own name fields :
  existsb (λ kv, bool_decide (kv.1 = name)) fields = true
  ↔ ∃ value, field name fields = Some value.
Proof.
  induction fields as [|[k v] fields IH]; simpl.
  - split; [done|by intros [? ?]].
  - case_bool_decide; simpl; [|done]. split; [by eexists|done].
Qed.

Lemma converts_array items :
  converts (JArr items) = true ↔ Forall (λ x, converts x = true) items.
Proof.
  simpl. induction items as [|x items IH]; [by split; [constructor|]|].
  rewrite andb_true_iff, IH. split; [intros []; by constructor|].
  intros [? ?]%Forall_cons. done.
Qed.

(** The conversion raises exactly on the values described. *)
Lemma converts_unconvertible v : converts v = false ↔ unconvertible v.
Proof.
  induction v as [|b|r|t|items IH|fields] using json_nested_ind;
    try (split; [done|by inversion 1]).
  - rewrite <-not_true_iff_false, converts_array, <-Exists_Forall_neg
      by (intros x; destruct (converts x); [by left|by right]).
    rewrite Exists_exists. split.
    + intros (x & Hx & Hc). rewrite Forall_forall in IH.
      apply (unconvertible_array _ x); [done|]. apply IH; [done|].
      by apply not_true_is_false.
    + inversion 1 as [|items' x Hx Hu]; subst. exists x. split; [done|].
      rewrite Forall_forall in IH. apply IH in Hu; [|done]. by rewrite Hu.
  - simpl. rewrite negb_false_iff, field_own. split.
    + intros [value Hv]. by eapply unconvertible_object.
    + inversion 1; subst. by eexists.
Qed.

Lemma optionText_raises opt : optionText opt = None ↔ unconvertible opt.
Proof.
  rewrite <-converts_unconvertible. unfold optionText.
  destruct opt; try done; by destruct (converts _).
Qed.

Lemma options_raise opts :
  mapM (λ opt, cleanOption <$> optionText opt) opts = None
  ↔ ∃ opt, opt ∈ opts ∧ unconvertible opt.
Proof.
  rewrite mapM_None, Exists_exists. split; intros (opt & Hin & H); exists opt;
    (split; [done|]).
  - apply optionText_raises. by destruct (optionText opt).
  - apply optionText_raises in H. by rewrite H.
Qed.

(** The three ways of the callback. *)
Lemma toQuestion_cases clock index j q :
  (raises q → toQuestion clock index j q = None)
  ∧ (¬ raises q → is_question q = false → toQuestion clock index j q = Some None)
  ∧ (¬ raises q → is_question q = true →
     ∃ qq, toQuestion clock index j q = Some (Some qq)
           ∧ q_id qq = extId (clock index j) index j).
Proof.
  destruct q as [|b|r|t|items|fields]; try (by split_and!).
  unfold raises, is_question, toQuestion.
  destruct (field (js "type") fields) as [[| | |type| |]|]; try (by split_and!; [intros [[=] _]|..]).
  case_bool_decide as Hmcq; [subst type|].
  - destruct (mapM _ _) as [options|] eqn:Hopts.
    + split_and!; [|done|by eexists].
      intros (_ & opts & opt & Hf & Hin & Hu). rewrite Hf in Hopts.
      assert (Hnone : mapM (λ opt, cleanOption <$> optionText opt) opts = None)
        by (apply options_raise; eauto).
      by rewrite Hnone in Hopts.
    + split_and!; [done| |]; intros Hnot _; destruct Hnot; (split; [done|]);
        apply options_raise in Hopts as (opt & Hin & Hu);
        destruct (field (js "options") fields) as [[| | | |opts|]|];
        try (by apply elem_of_nil in Hin); by eexists _, _.
  - case_bool_decide; split_and!; try done; try (by eexists);
      by intros [[= ?] _].
Qed.

Lemma question_positions_from n q items :
  fst <$> filter (λ p, is_question p.2 = true) (imap (λ i, pair (n + i)) (q :: items))
  = (if is_question q then [n] else [])
    ++ (fst <$> filter (λ p, is_question p.2 = true)
                  (imap (λ i, pair (S n + i)) items)).
Proof.
  simpl. rewrite filter_cons. simpl. unfold compose.
  erewrite (imap_ext _ (λ i, pair (S n + i))); [|intros i x _; simpl; f_equal; lia].
  replace (n + 0) with n by lia.
  destruct (decide (is_question q = true)) as [->|Hq]; [done|].
  by apply not_true_is_false in Hq as ->.
Qed.

(** An array without raising element: the questions come out under the
    ids of their positions, and nothing else does. *)
Lemma mapM_toQuestion_quiet clock index items : ∀ n,
  ¬ Exists raises items →
  ∃ mapped,
    mapM (λ '(qIndex, q), toQuestion clock index qIndex q)
      (imap (λ i, pair (n + i)) items) = Some mapped
    ∧ q_id <$> omap id mapped
      = (λ j, extId (clock index j) index j)
          <$> (fst <$> filter (λ p, is_question p.2 = true)
                         (imap (λ i, pair (n + i)) items)).
Proof.
  induction items as [|q items IH]; intros n Hquiet.
  - by exists [].
  - rewrite Exists_cons in Hquiet.
    destruct (IH (S n)) as (mapped & Hm & Hids); [tauto|].
    rewrite question_positions_from.
    destruct (toQuestion_cases clock index (n + 0) q) as (_ & Hskip & Hemit).
    assert (Hmap : ∀ oq, toQuestion clock index (n + 0) q = Some oq →
      mapM (λ '(qIndex, q), toQuestion clock index qIndex q)
        (imap (λ i, pair (n + i)) (q :: items)) = Some (oq :: mapped)).
    { intros oq Hoq. simpl. rewrite Hoq. simpl. unfold compose.
      erewrite imap_ext; [rewrite Hm; done|].
      intros i x _. simpl. f_equal. lia. }
    destruct (is_question q) eqn:Hq.
    + destruct Hemit as (qq & Hqq & Hid); [tauto|done|].
      exists (Some qq :: mapped). split; [by apply Hmap|].
      csimpl. rewrite Hids, Hid. by replace (n + 0) with n by lia.
    + exists (None :: mapped). split; [apply Hmap, Hskip; [tauto|done]|].
      by csimpl.
Qed.

Lemma mapM_toQuestion_raises clock index items : ∀ n,
  Exists raises items →
  mapM (λ '(qIndex, q), toQuestion clock index qIndex q)
    (imap (λ i, pair (n + i)) items) = None.
Proof.
  intros n (q & Hin & Hq)%Exists_exists. apply mapM_None, Exists_exists.
  apply list_elem_of_lookup in Hin as [j Hj].
  exists (n + j, q). split.
  - apply list_elem_of_lookup. exists j. by rewrite list_lookup_imap, Hj.
  - destruct (toQuestion_cases clock index (n + j) q) as (Hr & _). by rewrite Hr.
Qed.

Lemma indexTsx_non_object urls clock index items :
  (∃ q, q ∈ items ∧ ∀ fields, q ≠ JObj fields) →
  IndexTsx.analyzeImage urls clock index (Responds (Some (JArr items)))
  = IndexTsx.failed urls index.
Proof.
  intros (q & Hq & Hobj). unfold IndexTsx.analyzeImage.
  assert (Hm : mapM (λ '(qIndex, q), IndexTsx.toQuestion clock index qIndex q)
                 (imap pair items) = None).
  { apply mapM_None_2, Exists_exists.
    apply list_elem_of_lookup in Hq as [j Hj].
    exists (j, q). split.
    - apply list_elem_of_lookup. exists j. by rewrite list_lookup_imap, Hj.
    - destruct q; try done. by destruct (Hobj fields). }
  by rewrite Hm.
Qed.
End batch_facts.

(** C5.  When the call for the image at position [k] fails, the result
    sequence has one entry per image, the entry at [k] carries an error and
    no question, and the entry at any position is computed from the outcome
    of the call for the image at that position alone: it is the same under
    any other behaviour of the service on the other images.  This holds for
    the adapter of either revision. *)
Theorem failed_image_is_isolated
    (service : nat → Extraction.File → Extraction.Outcome) (clock : nat → nat → N)
    (st : Extraction.State) (st1 : IndexTsx.State) (k : nat) (file : Extraction.File) :
  service k file = Extraction.CallFails →
  (Extraction.images st !! k = Some file →
   let results := Extraction.extractionResults (Extraction.analyzeImages service clock st) in
   length results = length (Extraction.images st)
   ∧ (∃ r, results !! k = Some r ∧ r_questions r = [] ∧ has_error r = true)
   ∧ (∀ j file_j,
        Extraction.images st !! j = Some file_j →
        results !! j = Some (Extraction.analyzeImage (Extraction.imageUrls st) clock j
                               (service j file_j)))
   ∧ (∀ service' j file_j,
        Extraction.images st !! j = Some file_j →
        service' j file_j = service j file_j →
        Extraction.extractionResults (Extraction.analyzeImages service' clock st) !! j
        = results !! j))
  ∧ (IndexTsx.images st1 !! k = Some file →
     let results := IndexTsx.extractionResults (IndexTsx.analyzeImages service clock st1) in
     length results = length (IndexTsx.images st1)
     ∧ (∃ r, results !! k = Some r ∧ IndexTsx.questions r = []
             ∧ str_truthy <$> IndexTsx.error r = Some true)
     ∧ (∀ j file_j,
          IndexTsx.images st1 !! j = Some file_j →
          results !! j = Some (IndexTsx.analyzeImage (IndexTsx.imageUrls st1) clock j
                                 (service j file_j)))
     ∧ (∀ service' j file_j,
          IndexTsx.images st1 !! j = Some file_j →
          service' j file_j = service j file_j →
          IndexTsx.extractionResults (IndexTsx.analyzeImages service' clock st1) !! j
          = results !! j)).
Proof.
  intros Hfail. split.
  - intros Hk results. apply lookup_nonempty in Hk as Hne.
    unfold results. rewrite analyzeImages_results by done.
    assert (Hat : ∀ service' j file_j,
      Extraction.images st !! j = Some file_j →
      imap (λ index file, Extraction.analyzeImage (Extraction.imageUrls st) clock
                            index (service' index file))
        (Extraction.images st) !! j
      = Some (Extraction.analyzeImage (Extraction.imageUrls st) clock j
                (service' j file_j))).
    { intros service' j file_j Hj. by rewrite list_lookup_imap, Hj. }
    split_and!.
    + apply length_imap.
    + eexists. split; [by apply Hat|]. rewrite Hfail. apply failed_has_error.
    + intros j file_j Hj. by apply Hat.
    + intros service' j file_j Hj Hsame.
      rewrite analyzeImages_results by done.
      by rewrite (Hat service' j file_j), (Hat service j file_j), Hsame.
  - intros Hk results. apply lookup_nonempty in Hk as Hne.
    unfold results. rewrite analyzeImages_indexTsx_results by done.
    assert (Hat : ∀ service' j file_j,
      IndexTsx.images st1 !! j = Some file_j →
      imap (λ index file, IndexTsx.analyzeImage (IndexTsx.imageUrls st1) clock
                            index (service' index file))
        (IndexTsx.images st1) !! j
      = Some (IndexTsx.analyzeImage (IndexTsx.imageUrls st1) clock j
                (service' j file_j))).
    { intros service' j file_j Hj. by rewrite list_lookup_imap, Hj. }
    split_and!.
    + apply length_imap.
    + eexists. split; [by apply Hat|]. rewrite Hfail. apply failed_indexTsx_has_error.
    + intros j file_j Hj. by apply Hat.
    + intros service' j file_j Hj Hsame.
      rewrite analyzeImages_indexTsx_results by done.
      by rewrite (Hat service' j file_j), (Hat service j file_j), Hsame.
Qed.


Lemma failed_image_is_isolated_witness :
  let results := Extraction.extractionResults
                   (Extraction.analyzeImages service_3 (λ _ _, 1700%N) batch_3) in
  let results1 := IndexTsx.extractionResults
                    (IndexTsx.analyzeImages service_3 (λ _ _, 1700%N) batch_3_indexTsx) in
  length results = 3
  ∧ (∃ r, results !! 1 = Some r ∧ r_questions r = [] ∧ has_error r = true)
  ∧ results !! 0
    = Some (mkResult (Some (js "blob:1"))
        [MCQ (js "ext-1700-0-0") (JStr (js "Capital of France?"))
           [js "Rome"; js "Paris"] None] None)
  ∧ results !! 2
    = Some (mkResult (Some (js "blob:3"))
        [ShortAnswerQuestion (js "ext-1700-2-1") (JStr (js "Define force."))
           (JStr [])] None)
  ∧ length results1 = 3
  ∧ (∃ r, results1 !! 1 = Some r ∧ IndexTsx.questions r = []
          ∧ str_truthy <$> IndexTsx.error r = Some true)
  ∧ results1 !! 0
    = Some (IndexTsx.mkResult (Some (js "blob:1"))
        [IndexTsx.mkMCQ
           [(js "type", JStr (js "mcq")); (js "question", JStr (js "Capital of France?"))]
           [js "Rome"; js "Paris"] (js "ext-1700-0-0")] None).
Proof.
  destruct (failed_image_is_isolated service_3 (λ _ _, 1700%N) batch_3
              batch_3_indexTsx 1
              (Extraction.mkFile (js "image/png") (js "Qg=="))
              eq_refl) as [H H1].
  destruct (H eq_refl) as (Hlen & Hk & Hat & _).
  destruct (H1 eq_refl) as (Hlen1 & Hk1 & Hat1 & _).
  split_and!.
  - exact Hlen.
  - exact Hk.
  - by rewrite (Hat 0 (Extraction.mkFile (js "image/png") (js "QQ==")) eq_refl).
  - by rewrite (Hat 2 (Extraction.mkFile (js "image/png") (js "Qw==")) eq_refl).
  - exact Hlen1.
  - exact Hk1.
  - by rewrite (Hat1 0 (Extraction.mkFile (js "image/png") (js "QQ==")) eq_refl).
Defined.

(** C7 (as the code has it).  A response that parses as JSON but is no
    array gives no question and no error; a response that does not parse
    gives no question and the error message of its image, as a failed call
    does; nothing is raised to the batch.  For an array, in [part_000]: an
    element on which the callback raises ([null], or a multiple-choice
    question with an option that cannot be converted to text) gives the
    error message of the image; without such an element there is no error,
    the elements that are no questions are passed over, and the questions
    at the other positions come out in order under the ids of their
    positions.  In [index.tsx] an element that is not an object gives the
    error message. *)
Theorem response_off_schema (urls : list jsstring) (clock : nat → nat → N)
    (index : nat) :
  (∀ v, (∀ items, v ≠ JArr items) →
     Extraction.analyzeImage urls clock index (Extraction.Responds (Some v))
       = mkResult (urls !! index) [] None
     ∧ IndexTsx.analyzeImage urls clock index (Extraction.Responds (Some v))
       = IndexTsx.mkResult (urls !! index) [] None)
  ∧ (Extraction.analyzeImage urls clock index (Extraction.Responds None)
       = Extraction.analyzeImage urls clock index Extraction.CallFails
     ∧ r_questions (Extraction.analyzeImage urls clock index (Extraction.Responds None)) = []
     ∧ has_error (Extraction.analyzeImage urls clock index (Extraction.Responds None)) = true)
  ∧ (IndexTsx.analyzeImage urls clock index (Extraction.Responds None)
       = IndexTsx.analyzeImage urls clock index Extraction.CallFails
     ∧ IndexTsx.questions (IndexTsx.analyzeImage urls clock index (Extraction.Responds None)) = []
     ∧ str_truthy <$> IndexTsx.error
         (IndexTsx.analyzeImage urls clock index (Extraction.Responds None)) = Some true)
  ∧ (∀ items, ¬ Exists raises items →
       let r := Extraction.analyzeImage urls clock index
                  (Extraction.Responds (Some (JArr items))) in
       imageUrl r = urls !! index
       ∧ r_error r = None
       ∧ q_id <$> r_questions r
         = (λ j, Extraction.extId (clock index j) index j) <$> question_positions items)
  ∧ (∀ items, Forall not_question items →
       Extraction.analyzeImage urls clock index (Extraction.Responds (Some (JArr items)))
       = mkResult (urls !! index) [] None)
  ∧ (∀ items, Exists raises items →
       Extraction.analyzeImage urls clock index (Extraction.Responds (Some (JArr items)))
       = Extraction.failed urls index)
  ∧ (∀ items, (∃ q, q ∈ items ∧ ∀ fields, q ≠ JObj fields) →
       IndexTsx.analyzeImage urls clock index (Extraction.Responds (Some (JArr items)))
       = IndexTsx.failed urls index).
Proof.
  split_and!; try done.
  - intros v Hv. by apply analyzeImage_not_array.
  - intros items Hquiet r. unfold r, Extraction.analyzeImage.
    destruct (mapM_toQuestion_quiet clock index items 0 Hquiet) as (mapped & Hm & Hids).
    change (imap (λ i, pair (0 + i)) items) with (imap pair items) in Hm, Hids.
    by rewrite Hm.
  - intros items Hitems. unfold Extraction.analyzeImage.
    destruct (mapM_toQuestion_skips clock index items 0 Hitems) as (mapped & Hm & Ho).
    change (imap (λ i, pair (0 + i)) items) with (imap pair items) in Hm.
    by rewrite Hm, Ho.
  - intros items Hraise. unfold Extraction.analyzeImage.
    pose proof (mapM_toQuestion_raises clock index items 0 Hraise) as Hm.
    change (imap (λ i, pair (0 + i)) items) with (imap pair items) in Hm.
    by rewrite Hm.
  - intros items. apply indexTsx_non_object.
Qed.

Lemma response_off_schema_witness :
  Extraction.analyzeImage [js "blob:1"] (λ _ _, 1700%N) 0
    (Extraction.Responds (Some (JObj []))) = mkResult (Some (js "blob:1")) [] None
  ∧ q_id <$> r_questions
      (Extraction.analyzeImage [js "blob:1"] (λ _ _, 1700%N) 0
         (Extraction.Responds (Some (JArr
            [JNum (js "7");
             JObj [(js "type", JStr (js "short_answer")); (js "question", JStr (js "Q"))];
             JObj [(js "type", JStr (js "essay"))]]))))
    = [js "ext-1700-0-1"]
  ∧ Extraction.analyzeImage [js "blob:1"] (λ _ _, 1700%N) 0
      (Extraction.Responds (Some (JArr
         [JObj [(js "type", JStr (js "mcq"));
                (js "options", JArr [JObj [(js "toString", JNum (js "1"))]])]])))
    = Extraction.failed [js "blob:1"] 0
  ∧ IndexTsx.analyzeImage [js "blob:1"] (λ _ _, 1700%N) 0
      (Extraction.Responds (Some (JArr [JStr (js "note")])))
    = IndexTsx.failed [js "blob:1"] 0.
Proof.
  destruct (response_off_schema [js "blob:1"] (λ _ _, 1700%N) 0)
    as (H1 & _ & _ & H4 & _ & H6 & H7).
  split_and!.
  - by apply H1.
  - assert (Hquiet : ¬ Exists raises
        [JNum (js "7");
         JObj [(js "type", JStr (js "short_answer")); (js "question", JStr (js "Q"))];
         JObj [(js "type", JStr (js "essay"))]]).
    { rewrite <-Forall_Exists_neg.
      repeat (apply Forall_cons; split;
              [intros H; vm_compute in H;
               first [by destruct H as [H _]|by destruct H]|]).
      constructor. }
    destruct (H4 _ Hquiet) as (_ & _ & Hids). rewrite Hids. by vm_compute.
  - apply H6. left. split; [done|]. eexists _, _. split_and!; [done|by left|].
    by eapply unconvertible_object.
  - apply H7. exists (JStr (js "note")). split; [by left|done].
Defined.

(** C7 as stated fails: a response that is not JSON text gives the error
    message of its image. *)
Lemma unparsable_response_reports_error :
  r_error (Extraction.analyzeImage [js "blob:1"] (λ _ _, 1700%N) 0
             (Extraction.Responds None))
  = Some (js "Failed to extract questions from image 1. Please try again.")
  ∧ ¬ off_schema_is_silent None.
Proof.
  split; [by vm_compute|].
  intros H. destruct (H I [js "blob:1"] (λ _ _, 1700%N) 0) as [_ He]. done.
Qed.
(** ** The debounced save *)

Section save_facts.
Import Sync.
Context (JSON_stringify : Library → jsstring) (btoa : jsstring → option jsstring)
        (read : ReadOutcome) (write : jsstring → option jsstring → WriteOutcome).

Lemma saveAndMirror_writes contentToSave encoded expected st :
  writes (saveAndMirror write contentToSave encoded expected st)
  = writes st ++ [(encoded, expected)].
Proof. unfold saveAndMirror. by destruct (write encoded expected). Qed.

Lemma saveOnly_writes encoded expected st :
  writes (saveOnly write encoded expected st) = writes st ++ [(encoded, expected)].
Proof. unfold saveOnly. by destruct (write encoded expected). Qed.
End save_facts.

(** C3.  When the save task runs and the content read back from the remote
    equals, blanks apart, the content about to be written for the library,
    the save status becomes [Saved] and nothing is written; a write is
    issued only when the read succeeded and the remote file is missing or
    differs, and then exactly once, with the version token of that read as
    the expected version ([null] when there is none).  This holds for the
    task of either revision. *)
Theorem save_skips_identical_content
    (JSON_stringify : Library → jsstring) (btoa : jsstring → option jsstring)
    (read : Sync.ReadOutcome) (write : jsstring → option jsstring → Sync.WriteOutcome)
    (subjects : Library) (st : Sync.State) :
  let run := Sync.saveTask JSON_stringify btoa read write subjects st in
  let run1 := Sync.saveTask_indexTsx JSON_stringify btoa read write subjects st in
  (∀ remote sha encoded,
     read = Sync.Found (Some remote) sha →
     btoa (JSON_stringify subjects) = Some encoded →
     Sync.removeWhitespace remote = Sync.removeWhitespace encoded →
     run = Sync.mkState Sync.Saved (Sync.error st) (Sync.localStorage st) (Sync.writes st)
     ∧ run1 = run)
  ∧ (∀ remote sha encoded,
       read = Sync.Found (Some remote) sha →
       btoa (JSON_stringify subjects) = Some encoded →
       Sync.removeWhitespace remote ≠ Sync.removeWhitespace encoded →
       Sync.writes run = Sync.writes st ++ [(encoded, Sync.orNull sha)]
       ∧ Sync.writes run1 = Sync.writes run)
  ∧ (Sync.writes run1 = Sync.writes run)
  ∧ (Sync.writes run = Sync.writes st
     ∨ ∃ encoded expected,
         btoa (JSON_stringify subjects) = Some encoded
         ∧ Sync.writes run = Sync.writes st ++ [(encoded, expected)]
         ∧ (read = Sync.NotFound ∧ expected = None
            ∨ ∃ remote sha,
                read = Sync.Found (Some remote) sha
                ∧ Sync.removeWhitespace remote ≠ Sync.removeWhitespace encoded
                ∧ expected = Sync.orNull sha)).
Proof.
  intros run run1. unfold run1, run, Sync.saveTask, Sync.saveTask_indexTsx.
  split_and!.
  - intros remote sha encoded -> -> Hsame. by rewrite bool_decide_eq_true_2.
  - intros remote sha encoded -> -> Hdiff. rewrite bool_decide_eq_false_2 by done.
    by rewrite saveAndMirror_writes, saveOnly_writes.
  - destruct read as [| |[remote|] sha|]; try done;
      destruct (btoa (JSON_stringify subjects)) as [encoded|]; try done.
    + by rewrite saveAndMirror_writes, saveOnly_writes.
    + case_bool_decide; [done|]. by rewrite saveAndMirror_writes, saveOnly_writes.
  - destruct read as [| |[remote|] sha|]; try (by left);
      destruct (btoa (JSON_stringify subjects)) as [encoded|]; try (by left).
    + right. exists encoded, None. rewrite saveAndMirror_writes. split_and!; auto.
    + case_bool_decide as Hcmp; [by left|]. right.
      exists encoded, (Sync.orNull sha). rewrite saveAndMirror_writes.
      split_and!; [done..|]. right. by exists remote, sha.
Qed.

Lemma save_skips_identical_content_witness :
  Sync.saveTask (λ _, js "[]") btoa_sample
    (Sync.Found (Some (js "W10=" ++ [10%N])) (Some (js "abc123"))) (λ _ _, Sync.WriteFails) []
    (Sync.mkState Sync.Saving None ∅ [])
  = Sync.mkState Sync.Saved None ∅ []
  ∧ Sync.writes
      (Sync.saveTask (λ _, js "[]") btoa_sample
         (Sync.Found (Some (js "e30=")) (Some (js "abc123")))
         (λ _ _, Sync.Written (Some (js "def456"))) []
         (Sync.mkState Sync.Saving None ∅ []))
    = [(js "W10=", Some (js "abc123"))].
Proof.
  split.
  - refine (proj1 (proj1 (save_skips_identical_content (λ _, js "[]") btoa_sample
      (Sync.Found (Some (js "W10=" ++ [10%N])) (Some (js "abc123"))) (λ _ _, Sync.WriteFails) []
      (Sync.mkState Sync.Saving None ∅ [])) _ _ _ eq_refl eq_refl _)).
    by vm_compute.
  - refine (proj1 (proj1 (proj2 (save_skips_identical_content (λ _, js "[]") btoa_sample
      (Sync.Found (Some (js "e30=")) (Some (js "abc123")))
      (λ _ _, Sync.Written (Some (js "def456"))) []
      (Sync.mkState Sync.Saving None ∅ []))) _ _ _ eq_refl eq_refl _)).
    by vm_compute.
Defined.
(** ** The PDF export *)

Section pdf_facts.
Import Pdf.
Context (pageHeight pageWidth scaleFactor : float)
        (splitTextToSize : FontStyle → float → jsstring → float → list jsstring)
        (getTextDimensions :
           FontStyle → list jsstring → float → option float → float * float)
        (getStringUnitWidth : FontStyle → jsstring → float)
        (pdfTextSize : float).

Lemma beside_draw C c d : beside C d → beside C (draw c d).
Proof.
  intros [(p1 & extra & Hp) Hc]. split; [|done]. simpl. rewrite Hp.
  destruct Hc as [->|Hc].
  - by exists (p1 ++ [c]), extra.
  - exists p1, (alter (λ p, p ++ [c]) (current d - 2 - length C) extra).
    replace (current d - 1) with (S (current d - 2)) by lia.
    change (alter ?f (S ?j) (p1 :: ?l)) with (p1 :: alter f j l).
    by rewrite alter_app_r_alt by lia.
Qed.

Lemma beside_addPage C d : beside C d → beside C (addPage d).
Proof.
  intros [(p1 & extra & Hp) Hc]. split; simpl.
  - exists p1, (extra ++ [[]]). rewrite Hp. simpl. by rewrite <-app_assoc.
  - right. rewrite Hp. simpl. rewrite length_app. lia.
Qed.

Lemma beside_text C lines x y a f d : beside C d → beside C (text lines x y a f d).
Proof. apply beside_draw. Qed.

Lemma beside_rect C x y w h d : beside C d → beside C (rect x y w h d).
Proof. apply beside_draw. Qed.

Lemma beside_line C x1 y1 x2 y2 d : beside C d → beside C (line x1 y1 x2 y2 d).
Proof. apply beside_draw. Qed.

Lemma beside_setFont C s d : beside C d → beside C (setFont s d).
Proof. done. Qed.

Lemma beside_setFontSize C s d : beside C d → beside C (setFontSize s d).
Proof. done. Qed.

Lemma beside_setTextColor C c d : beside C d → beside C (setTextColor c d).
Proof. done. Qed.

Lemma beside_setFillColor C c d : beside C d → beside C (setFillColor c d).
Proof. done. Qed.

Lemma beside_setLineDashPattern C p d :
  beside C d → beside C (setLineDashPattern p d).
Proof. done. Qed.

Create HintDb pdf.
Hint Resolve beside_addPage beside_text beside_rect beside_line beside_setFont
  beside_setFontSize beside_setTextColor beside_setFillColor
  beside_setLineDashPattern : pdf.

Lemma beside_highlightLines C lines x yPos size d :
  beside C d →
  beside C (highlightLines scaleFactor getTextDimensions getStringUnitWidth
              lines x yPos size d).
Proof.
  unfold highlightLines. intros H%(beside_setFillColor _ gold).
  revert H. generalize (setFillColor gold d). clear d. intros d0.
  generalize (getTextDimensions (fontStyle d0) [js "M"] size None).2. intros h.
  induction (imap pair lines) as [|[index ln] l IH] in d0 |- *; simpl; [done|].
  intros H0. apply IH. by apply beside_rect.
Qed.

Hint Resolve beside_highlightLines : pdf.

Lemma beside_addWrappedText C txt x yPos size style highlight d :
  beside C d →
  beside C (addWrappedText pageHeight pageWidth scaleFactor splitTextToSize
              getTextDimensions getStringUnitWidth
              txt x yPos size style highlight d).1.
Proof.
  intros H. unfold addWrappedText.
  destruct (_ <? _)%float; destruct highlight; simpl; eauto 10 with pdf.
Qed.

Lemma beside_renderTocEntry C st entry :
  beside C (doc st) →
  beside C (doc (renderTocEntry pageHeight pageWidth scaleFactor splitTextToSize
                   getStringUnitWidth pdfTextSize st entry)).
Proof.
  intros H. unfold renderTocEntry.
  destruct (_ <? _)%float; simpl; destruct (_ <? _)%float; eauto 10 with pdf.
Qed.

Lemma beside_toc C entries st :
  beside C (doc st) →
  beside C (doc (foldl (renderTocEntry pageHeight pageWidth scaleFactor
                          splitTextToSize getStringUnitWidth pdfTextSize)
                   st entries)).
Proof.
  revert st. induction entries as [|e entries IH]; intros st H; simpl; [done|].
  by apply IH, beside_renderTocEntry.
Qed.

Lemma style_renderTocEntry st entry :
  fontStyle (doc (renderTocEntry pageHeight pageWidth scaleFactor splitTextToSize
                    getStringUnitWidth pdfTextSize st entry))
  = fontStyle (doc st).
Proof.
  unfold renderTocEntry. simpl.
  destruct (_ <? _)%float; destruct (_ <? _)%float; done.
Qed.

Lemma style_toc entries st :
  fontStyle (doc (foldl (renderTocEntry pageHeight pageWidth scaleFactor
                           splitTextToSize getStringUnitWidth pdfTextSize)
                    st entries))
  = fontStyle (doc st).
Proof.
  revert st. induction entries as [|e entries IH]; intros st; simpl; [done|].
  by rewrite IH, style_renderTocEntry.
Qed.

Lemma movePage_addPage d :
  pages (movePage (length (pages d) + 1) 1 (addPage d)) = [] :: pages d
  ∧ current (movePage (length (pages d) + 1) 1 (addPage d)) = 1.
Proof.
  unfold movePage. destruct (decide (length (pages d) = 0)) as [Hz|Hnz].
  - rewrite Hz. simpl. apply nil_length_inv in Hz. by rewrite Hz.
  - replace ((length (pages d) + 1 =? 1) || (length (pages d) + 1 =? 0) || (1 =? 0))
      with false
      by (symmetry; rewrite !orb_false_iff, !Nat.eqb_neq; lia).
    change (pages (addPage d)) with (pages d ++ [[]]).
    replace (length (pages d) + 1 - 1) with (length (pages d)) by lia.
    rewrite list_lookup_middle by done. simpl.
    by rewrite delete_middle, app_nil_r.
Qed.

Lemma insertTocPage_pages d :
  pages (insertTocPage (getNumberOfPages d) d) = [] :: pages d
  ∧ current (insertTocPage (getNumberOfPages d) d) = 1.
Proof.
  unfold insertTocPage, getNumberOfPages, setPage.
  destruct (movePage_addPage d) as [Hp Hc].
  by destruct (_ && _).
Qed.

Lemma alter_page {X} (f : X → X) p1 A c B :
  alter f (length A + 2 - 1) (p1 :: A ++ c :: B) = p1 :: A ++ f c :: B.
Proof.
  replace (length A + 2 - 1) with (S (length A + 0)) by lia.
  change (alter f (S (length A + 0)) (p1 :: A ++ c :: B))
    with (p1 :: alter f (length A + 0) (A ++ c :: B)).
  by rewrite alter_app_r.
Qed.

Lemma stampFooter_spec total p1 A c B d :
  pages d = p1 :: A ++ c :: B → fontStyle d = Normal →
  pages (stampFooter pageHeight pageWidth getTextDimensions total d (length A + 2))
  = p1 :: A ++ (c ++ footer pageHeight pageWidth getTextDimensions total (S (length A))) :: B
  ∧ fontStyle (stampFooter pageHeight pageWidth getTextDimensions total d (length A + 2))
    = Normal.
Proof.
  intros Hp Hs. unfold stampFooter, setPage.
  replace ((0 <? length A + 2) && (length A + 2 <=? length (pages d))) with true.
  2: { symmetry. rewrite andb_true_iff, Nat.ltb_lt, Nat.leb_le, Hp.
       simpl. rewrite length_app. simpl. lia. }
  simpl. rewrite Hs. split; [|done].
  rewrite Hp, !alter_page. unfold footer.
  replace (length A + 2) with (S (length A) + 1) by lia.
  by rewrite <-app_assoc.
Qed.

Lemma stamp_pages total p1 C extra d k :
  pages d = p1 :: C ++ extra → fontStyle d = Normal → k ≤ length C →
  pages (foldl (stampFooter pageHeight pageWidth getTextDimensions total) d (seq 2 k))
  = p1 :: imap (λ j p, p ++ footer pageHeight pageWidth getTextDimensions total (S j))
            (take k C)
       ++ drop k C ++ extra
  ∧ fontStyle (foldl (stampFooter pageHeight pageWidth getTextDimensions total) d
                 (seq 2 k)) = Normal.
Proof.
  intros Hp Hs. induction k as [|k IH]; intros Hk.
  - simpl. by rewrite drop_0.
  - destruct IH as [IHp IHs]; [lia|].
    rewrite seq_S, foldl_snoc.
    destruct (lookup_lt_is_Some_2 C k) as [c Hc]; [lia|].
    rewrite (drop_S _ _ _ Hc) in IHp.
    assert (Hlen : length (imap (λ j p, p ++ footer pageHeight pageWidth
                      getTextDimensions total (S j)) (take k C)) = k).
    { rewrite length_imap, length_take. lia. }
    rewrite <-app_comm_cons in IHp.
    pose proof (stampFooter_spec total _ _ _ _ _ IHp IHs) as [Hp' Hs'].
    rewrite Hlen in Hp', Hs'. replace (2 + k) with (k + 2) by lia.
    split; [|done]. rewrite Hp'. f_equal.
    rewrite (take_S_r _ _ _ Hc), imap_app. simpl.
    rewrite length_take, Nat.min_l, Nat.add_0_r by lia.
    by rewrite <-!app_assoc.
Qed.
End pdf_facts.

(** C2.  With [N] the number of pages after the content pass, the page of
    the table of contents is put in front of them, so that the content
    page numbered [i] becomes page [i + 1], and the saved document is that
    first page, then the content pages in their order, the [i]-th of them
    with the footer ["Page i of N"] added after its content, then the pages
    the table of contents spilled onto, which carry no footer. *)
Theorem footers_number_content_pages
    (pageHeight pageWidth scaleFactor : float)
    (splitTextToSize : Pdf.FontStyle → float → jsstring → float → list jsstring)
    (getTextDimensions :
       Pdf.FontStyle → list jsstring → float → option float → float * float)
    (getStringUnitWidth : Pdf.FontStyle → jsstring → float)
    (subjects : Library) (selectedPdfLectures : gset jsstring)
    (pdfTextSize : float) (pdfShowAnswers : bool) :
  let content :=
    Pdf.doc (Pdf.contentPass pageHeight pageWidth scaleFactor splitTextToSize
               getTextDimensions getStringUnitWidth subjects selectedPdfLectures
               pdfTextSize pdfShowAnswers) in
  let N := Pdf.getNumberOfPages content in
  let final :=
    Pdf.generatePdf pageHeight pageWidth scaleFactor splitTextToSize
      getTextDimensions getStringUnitWidth subjects selectedPdfLectures
      pdfTextSize pdfShowAnswers in
  Pdf.pages (Pdf.insertTocPage N content) = [] :: Pdf.pages content
  ∧ (∃ tocPage overflow,
       Pdf.pages final
       = tocPage
         :: imap (λ j p, p ++ Pdf.footer pageHeight pageWidth getTextDimensions N (S j))
              (Pdf.pages content)
         ++ overflow)
  ∧ (∀ i, Pdf.footer pageHeight pageWidth getTextDimensions N i
          = [Pdf.Rect
               (pageWidth - Pdf.margin
                - (getTextDimensions Pdf.Normal [Pdf.pageNumText N (i + 1)] 10 None).1 - 2)
               (pageHeight - 10
                - (getTextDimensions Pdf.Normal [Pdf.pageNumText N (i + 1)] 10 None).2 + 2)
               ((getTextDimensions Pdf.Normal [Pdf.pageNumText N (i + 1)] 10 None).1 + 4)
               (getTextDimensions Pdf.Normal [Pdf.pageNumText N (i + 1)] 10 None).2
               Pdf.gold;
             Pdf.Text [js "Page " ++ decimal (N.of_nat i) ++ js " of "
                       ++ decimal (N.of_nat N)]
               (pageWidth - Pdf.margin) (pageHeight - 10) true None
               Pdf.Normal 10 Pdf.darkTextColor])%float.
Proof.
  intros content N final.
  destruct (insertTocPage_pages content) as [Hins Hcur].
  split_and!; [done| |].
  - unfold final, Pdf.generatePdf. fold content. fold N.
    assert (H0 : beside (Pdf.pages content) (Pdf.insertTocPage N content)).
    { split; [|by left]. exists [], []. by rewrite app_nil_r. }
    pose proof (beside_addWrappedText pageHeight pageWidth scaleFactor splitTextToSize
      getTextDimensions getStringUnitWidth _ (js "Table of Contents")
      Pdf.margin Pdf.margin (Pdf.subjectFontSize pdfTextSize) Pdf.Bold false _ H0) as H1.
    destruct (Pdf.addWrappedText _ _ _ _ _ _ _ _ _ _ _ _ (Pdf.insertTocPage N content))
      as [d1 y1]. simpl in H1.
    set (d2 := Pdf.setTextColor _ _).
    assert (H2 : beside (Pdf.pages content) d2) by done.
    assert (Hs2 : Pdf.fontStyle d2 = Pdf.Normal) by done.
    clearbody d2.
    set (st0 := Pdf.mkLayout d2 _ _).
    pose proof (beside_toc pageHeight pageWidth scaleFactor splitTextToSize
      getStringUnitWidth pdfTextSize _
      (Pdf.toc (Pdf.contentPass pageHeight pageWidth scaleFactor splitTextToSize
                  getTextDimensions getStringUnitWidth subjects selectedPdfLectures
                  pdfTextSize pdfShowAnswers)) st0 H2) as [(p1 & extra & Hp) _].
    pose proof (style_toc pageHeight pageWidth scaleFactor splitTextToSize
      getStringUnitWidth pdfTextSize
      (Pdf.toc (Pdf.contentPass pageHeight pageWidth scaleFactor splitTextToSize
                  getTextDimensions getStringUnitWidth subjects selectedPdfLectures
                  pdfTextSize pdfShowAnswers)) st0) as Hs.
    simpl in Hs. rewrite Hs2 in Hs.
    destruct (stamp_pages pageHeight pageWidth getTextDimensions N p1
                (Pdf.pages content) extra _ N Hp Hs) as [Hfinal _]; [done|].
    exists p1, extra. rewrite Hfinal.
    unfold N, Pdf.getNumberOfPages. by rewrite firstn_all, drop_all.
  - intros i. unfold Pdf.footer, Pdf.pageNumText.
    by replace (i + 1 - 1) with i by lia.
Qed.

(** An export of two selected lectures on short pages: five content pages,
    the table of contents in front, and its second page at the end. *)
Example sample_pdf_pages :
  page_texts <$> Pdf.pages (sample_pdf lib_two_lectures {[js "a"; js "c"]})
  = [[js "Table of Contents"; js "Physics"; js "1"];
     [js "Physics"; js "Page 1 of 5"];
     [js "A"; js "1. Q1"; js "Page 2 of 5"];
     [js "2. Q2"; js "a) u"; js "Page 3 of 5"];
     [js "b) v"; js "Page 4 of 5"];
     [js "C"; js "1. Q3"; js "Page 5 of 5"];
     [js "A"; js "2"; js "C"; js "5"]].
Proof. by vm_compute. Qed.
(** ** Further properties of the library store *)

Set Warnings "-clear-no-such-hyp".

Section store_more.
Import Store.

Lemma confirmed_delete conf :
  toLowerCase conf = js "delete" →
  negb (bool_decide (toLowerCase conf = js "delete")) = false.
Proof. intros H. by rewrite bool_decide_eq_true_2. Qed.

Lemma deleteSubject_eq conf id lib :
  toLowerCase conf = js "delete" →
  handleConfirmDelete conf (Some (DelSubject id)) lib
  = filter (λ sub, s_id sub ≠ id) lib.
Proof. intros H. unfold handleConfirmDelete. by rewrite confirmed_delete. Qed.

Lemma lecture_ids_nil sid lib : sid ∉ subject_ids lib → lecture_ids sid lib = [].
Proof.
  intros H. apply elem_of_nil_inv. intros lid.
  by apply subject_absent_no_lectures.
Qed.

Lemma filter_app_single {A} (P : A → Prop) `{!∀ x, Decision (P x)} l x :
  Forall P l → ¬ P x → filter P (l ++ [x]) = l.
Proof.
  intros Hl Hx. rewrite filter_app, filter_fixed by done.
  rewrite filter_cons_False by done. by rewrite filter_nil, app_nil_r.
Qed.
End store_more.

(** X1.  Deleting a subject needs the word "delete" typed in any letter
    case; then every subject with the id goes, with its lectures, and the
    other subjects stay, in their order.  With any other text nothing is
    deleted, whatever is marked for deletion. *)
Theorem deleteSubject_cascades (conf id : jsstring) (lib : Library) :
  (toLowerCase conf = js "delete" →
   let lib' := Store.handleConfirmDelete conf (Some (Store.DelSubject id)) lib in
   (id ∉ subject_ids lib') ∧ lecture_ids id lib' = []
   ∧ lib' `sublist_of` lib
   ∧ ∀ s, s ∈ lib → s_id s ≠ id → s ∈ lib')
  ∧ (toLowerCase conf ≠ js "delete" →
     ∀ item, Store.handleConfirmDelete conf item lib = lib).
Proof.
  split.
  - intros Hc lib'. unfold lib'. rewrite deleteSubject_eq by done.
    assert (Hgone : id ∉ subject_ids (filter (λ sub, s_id sub ≠ id) lib)).
    { intros (s & -> & [Hs _]%list_elem_of_filter)%list_elem_of_fmap. done. }
    split_and!; [done|by apply lecture_ids_nil|apply sublist_filter|].
    intros s Hs Hne. by apply list_elem_of_filter.
  - intros Hc item. unfold Store.handleConfirmDelete.
    by rewrite bool_decide_eq_false_2.
Qed.

Lemma deleteSubject_cascades_witness :
  (js "s" ∉ subject_ids
      (Store.handleConfirmDelete (js "Delete") (Some (Store.DelSubject (js "s"))) lib_abc))
  ∧ Store.handleConfirmDelete (js "remove") (Some (Store.DelSubject (js "s"))) lib_abc
    = lib_abc.
Proof.
  split.
  - apply (proj1 (deleteSubject_cascades (js "Delete") (js "s") lib_abc)).
    by vm_compute.
  - apply (proj2 (deleteSubject_cascades (js "remove") (js "s") lib_abc)).
    by vm_compute.
Defined.

(** X2.  A subject added under an id that the library does not hold yet and
    then deleted leaves the library as it was before the two steps. *)
Theorem addSubject_then_delete (name conf : jsstring) (now : N) (lib : Library) :
  (js "sub-" ++ decimal now) ∉ subject_ids lib →
  toLowerCase conf = js "delete" →
  Store.handleConfirmDelete conf (Some (Store.DelSubject (js "sub-" ++ decimal now)))
    (Store.handleAddSubject name now lib) = lib.
Proof.
  intros Hfresh Hc. rewrite deleteSubject_eq by done.
  assert (Hl : Forall (λ sub, s_id sub ≠ js "sub-" ++ decimal now) lib).
  { apply Forall_forall. intros s Hs Heq. apply Hfresh.
    unfold subject_ids. rewrite <-Heq. by apply list_elem_of_fmap_2. }
  unfold Store.handleAddSubject. destruct (str_truthy (trim name)).
  - apply filter_app_single; [done|]. simpl. by intros H.
  - by apply filter_fixed.
Qed.

Lemma addSubject_then_delete_witness :
  Store.handleConfirmDelete (js "delete") (Some (Store.DelSubject (js "sub-1700")))
    (Store.handleAddSubject (js "Optics") 1700 lib_abc) = lib_abc.
Proof.
  apply (addSubject_then_delete (js "Optics") (js "delete") 1700 lib_abc).
  - absent.
  - by vm_compute.
Defined.

Section store_shape.
Import Store.

Lemma bind_fmap_ext {A B C} (f : A → B) (g : B → list C) (h : A → list C) l :
  (∀ x, x ∈ l → g (f x) = h x) → (f <$> l) ≫= g = l ≫= h.
Proof.
  induction l as [|x l IH]; intros H; [done|]. csimpl.
  rewrite H by left. f_equal. apply IH. intros y Hy. apply H. by right.
Qed.

Lemma bind_ext_in {A B} (g h : A → list B) l :
  (∀ x, x ∈ l → g x = h x) → l ≫= g = l ≫= h.
Proof.
  intros H. rewrite <-(list_fmap_id l) at 1. by apply bind_fmap_ext.
Qed.

Lemma filter_bind {A B} (P : B → Prop) `{!∀ x, Decision (P x)} (g : A → list B) l :
  filter P (l ≫= g) = l ≫= λ x, filter P (g x).
Proof.
  induction l as [|x l IH]; [done|]. csimpl. by rewrite filter_app, IH.
Qed.

Lemma fmap_bind_comm {A B C} (f : B → C) (g : A → list B) (l : list A) :
  f <$> (l ≫= g) = l ≫= λ x, f <$> g x.
Proof.
  induction l as [|x l IH]; [done|]. csimpl. by rewrite fmap_app, IH.
Qed.

Lemma filter_fmap_ids {A} (key : A → jsstring) (id : jsstring) (l : list A) :
  key <$> filter (λ x, key x ≠ id) l = filter (λ k, k ≠ id) (key <$> l).
Proof.
  induction l as [|x l IH]; [done|]. csimpl.
  rewrite !filter_cons. destruct (decide (key x ≠ id)); csimpl; by rewrite IH.
Qed.

Lemma deleteLecture_eq conf lid sid lib :
  toLowerCase conf = js "delete" → sid ≠ [] →
  handleConfirmDelete conf (Some (DelLecture lid (Some sid))) lib
  = (λ sub, if bool_decide (s_id sub = sid)
            then mkSubject (s_id sub) (s_name sub)
                   (filter (λ lec, l_id lec ≠ lid) (s_lectures sub))
            else sub) <$> lib.
Proof.
  intros Hc Hs%str_truthy_true. unfold handleConfirmDelete.
  by rewrite confirmed_delete, Hs.
Qed.
End store_shape.

(** X3.  Deleting a lecture, once confirmed, removes the lectures with that
    id from the subjects with the given id and nothing else: every subject
    keeps its id and name, every other lecture stays in its order, and the
    lecture id is no longer found under the subject; when the item marked
    for deletion carries no subject id, nothing is deleted. *)
Theorem deleteLecture_removes_only_it (conf lid sid : jsstring) (lib : Library) :
  toLowerCase conf = js "delete" →
  (sid ≠ [] →
   let lib' := Store.handleConfirmDelete conf
                 (Some (Store.DelLecture lid (Some sid))) lib in
   Forall2 (lectures_removed sid lid) lib lib'
   ∧ lid ∉ lecture_ids sid lib')
  ∧ Store.handleConfirmDelete conf (Some (Store.DelLecture lid None)) lib = lib
  ∧ Store.handleConfirmDelete conf (Some (Store.DelLecture lid (Some []))) lib = lib.
Proof.
  intros Hc. split_and!.
  - intros Hs lib'.
    assert (H : Forall2 (lectures_removed sid lid) lib lib').
    { unfold lib'. rewrite deleteLecture_eq by done.
      apply Forall2_fmap_r, Forall_Forall2_diag, Forall_forall. intros s _.
      unfold lectures_removed, compose. case_bool_decide as Hid; simpl.
      - split_and!; [done|done|apply sublist_filter| |].
        + intros l Hl [Hne|Hne]; [done|]. by apply list_elem_of_filter.
        + intros _ (l & -> & [Hl _]%list_elem_of_filter)%list_elem_of_fmap. done.
      - split_and!; [done..|]. by intros ?. }
    split; [done|].
    intros (s' & Hl & Hs')%list_elem_of_bind.
    case_bool_decide as Hid; [|by apply not_elem_of_nil in Hl].
    apply list_elem_of_lookup in Hs' as [i Hi].
    destruct (Forall2_lookup_r _ _ _ _ _ H Hi) as (s & _ & Hrel).
    destruct Hrel as (Hsid & _ & _ & _ & Hgone).
    apply Hgone; [congruence|done].
  - unfold Store.handleConfirmDelete. by destruct (negb _).
  - unfold Store.handleConfirmDelete. by destruct (negb _).
Qed.

Lemma deleteLecture_removes_only_it_witness :
  js "b" ∉ lecture_ids (js "s")
      (Store.handleConfirmDelete (js "delete")
         (Some (Store.DelLecture (js "b") (Some (js "s")))) lib_abc).
Proof.
  refine (proj2 (proj1 (deleteLecture_removes_only_it (js "delete") (js "b") (js "s")
            lib_abc _) _)); by vm_compute.
Defined.

(** Case analysis on an id test, rewriting both polarities of it. *)
Ltac by_id X Y :=
  let E := fresh "E" in
  destruct (decide (X = Y)) as [E|E];
  [ repeat first
      [ rewrite (bool_decide_eq_true_2 (X = Y)) by done
      | rewrite (bool_decide_eq_false_2 (X ≠ Y)) by (by intros ?)
      | progress simpl ]
  | repeat first
      [ rewrite (bool_decide_eq_false_2 (X = Y)) by done
      | rewrite (bool_decide_eq_true_2 (X ≠ Y)) by done
      | progress simpl ] ].

Section store_questions.
Import Store.

Lemma question_ids_deleteQuestion sid lid qid sid' lid' lib :
  question_ids sid' lid' (handleDeleteQuestion sid lid qid lib)
  = if bool_decide (sid' = sid ∧ lid' = lid)
    then filter (λ k, k ≠ qid) (question_ids sid' lid' lib)
    else question_ids sid' lid' lib.
Proof.
  unfold question_ids, handleDeleteQuestion.
  assert (Hinner : ∀ s,
    ((λ lec, if bool_decide (l_id lec ≠ lid) then lec
             else mkLecture (l_id lec) (l_name lec)
                    (filter (λ q, q_id q ≠ qid) (l_questions lec))) <$> s_lectures s)
      ≫= (λ l, if bool_decide (l_id l = lid') then q_id <$> l_questions l else [])
    = if bool_decide (lid' = lid)
      then filter (λ k, k ≠ qid)
             (s_lectures s ≫= λ l, if bool_decide (l_id l = lid')
                                    then q_id <$> l_questions l else [])
      else s_lectures s ≫= λ l, if bool_decide (l_id l = lid')
                                 then q_id <$> l_questions l else []).
  { intros s. by_id lid' lid.
    - subst lid'. rewrite filter_bind. apply bind_fmap_ext. intros l _.
      by_id (l_id l) lid.
      + apply (filter_fmap_ids q_id).
      + done.
    - apply bind_fmap_ext. intros l _. by_id (l_id l) lid; [|done].
      by rewrite !bool_decide_eq_false_2 by congruence. }
  destruct (decide (sid' = sid ∧ lid' = lid)) as [Hboth|Hboth].
  - rewrite (bool_decide_eq_true_2 _ Hboth).
    destruct Hboth as [-> ->]. rewrite filter_bind. apply bind_fmap_ext.
    intros s _. by_id (s_id s) sid.
    + rewrite Hinner. by rewrite bool_decide_eq_true_2.
    + done.
  - rewrite (bool_decide_eq_false_2 _ Hboth).
    apply bind_fmap_ext. intros s _. by_id (s_id s) sid; [|done].
    by_id (s_id s) sid'; [|done]. rewrite Hinner.
    rewrite bool_decide_eq_false_2; [done|]. intros ->. apply Hboth. split; congruence.
Qed.

Lemma lecture_ids_deleteQuestion sid lid qid sid' lib :
  lecture_ids sid' (handleDeleteQuestion sid lid qid lib) = lecture_ids sid' lib.
Proof.
  unfold lecture_ids, handleDeleteQuestion. apply bind_fmap_ext. intros s _.
  by_id (s_id s) sid; [|done]. case_bool_decide; [|done].
  rewrite <-list_fmap_compose. apply list_fmap_ext. intros i l _. simpl.
  by case_bool_decide.
Qed.
End store_questions.

(** X4.  Deleting a question removes the questions with that id from the
    lectures with the given id under the subjects with the given id, and
    only there: the same id elsewhere is kept, no other question moves, and
    the subjects and lectures are as before. *)
Theorem deleteQuestion_is_scoped (sid lid qid : jsstring) (lib : Library) :
  let lib' := Store.handleDeleteQuestion sid lid qid lib in
  question_ids sid lid lib' = filter (λ k, k ≠ qid) (question_ids sid lid lib)
  ∧ (qid ∉ question_ids sid lid lib')
  ∧ (∀ sid' lid', sid' ≠ sid ∨ lid' ≠ lid →
       question_ids sid' lid' lib' = question_ids sid' lid' lib)
  ∧ subject_ids lib' = subject_ids lib
  ∧ (∀ sid', lecture_ids sid' lib' = lecture_ids sid' lib).
Proof.
  intros lib'. unfold lib'.
  assert (H1 : question_ids sid lid (Store.handleDeleteQuestion sid lid qid lib)
               = filter (λ k, k ≠ qid) (question_ids sid lid lib)).
  { rewrite question_ids_deleteQuestion. by rewrite bool_decide_eq_true_2. }
  split_and!; [done| | | |].
  - rewrite H1. by intros [? _]%list_elem_of_filter.
  - intros sid' lid' Hne. rewrite question_ids_deleteQuestion.
    rewrite bool_decide_eq_false_2; [done|]. intros [-> ->]. by destruct Hne.
  - unfold subject_ids, Store.handleDeleteQuestion. rewrite <-list_fmap_compose.
    apply list_fmap_ext. intros i s _. simpl. by case_bool_decide.
  - intros sid'. apply lecture_ids_deleteQuestion.
Qed.

(** X5.  A lecture added to a subject under an id that the subject does not
    hold yet and then deleted leaves the library as it was, whatever name
    was typed, when the id of the subject is not the empty string.  For a
    subject whose id is the empty string the confirmed delete removes
    nothing: the library stays as add lecture left it. *)
Theorem addLecture_then_delete (names : gmap jsstring jsstring)
    (sid conf : jsstring) (now : N) (lib added : Library) :
  Store.handleAddLecture names sid now lib = Store.Done added →
  (js "lec-" ++ decimal now) ∉ lecture_ids sid lib →
  toLowerCase conf = js "delete" →
  (sid ≠ [] →
   Store.handleConfirmDelete conf
     (Some (Store.DelLecture (js "lec-" ++ decimal now) (Some sid))) added = lib)
  ∧ (sid = [] →
     Store.handleConfirmDelete conf
       (Some (Store.DelLecture (js "lec-" ++ decimal now) (Some sid))) added
     = added).
Proof.
  intros Hadd Hfresh Hc. split.
  - intros Hs. revert Hadd. unfold Store.handleAddLecture.
    destruct (Store.lectureName names sid) as [|name|]; [| |done].
    { intros [= <-]. by apply deleteLecture_noop. }
    destruct (str_truthy name); intros [= <-]; [|by apply deleteLecture_noop].
    rewrite deleteLecture_eq by done. rewrite <-list_fmap_compose.
    apply fmap_fixed, Forall_forall. intros s Hin. simpl.
    by_id (s_id s) sid; [|done].
    rewrite filter_app_single; [by destruct s| |by intros H].
    by eapply lecture_ids_absent.
  - intros ->. unfold Store.handleConfirmDelete. rewrite Hc. by rewrite bool_decide_eq_true_2.
Qed.

Lemma addLecture_then_delete_witness :
  Store.handleConfirmDelete (js "DELETE")
    (Some (Store.DelLecture (js "lec-1700") (Some (js "s"))))
    ((λ sub, if bool_decide (s_id sub = js "s")
             then mkSubject (s_id sub) (s_name sub)
                    (s_lectures sub ++ [mkLecture (js "lec-1700") (js "Optics") []])
             else sub) <$> lib_abc)
  = lib_abc.
Proof.
  refine (proj1 (addLecture_then_delete {[js "s" := js " Optics "]} (js "s")
                   (js "DELETE") 1700 lib_abc _ _ _ _) _).
  - by vm_compute.
  - absent.
  - by vm_compute.
  - by vm_compute.
Defined.

Section store_rename.
Import Store.

Lemma lecture_names_saveLecture lid name sid sid' lid' lib :
  lecture_names sid' lid' (handleSaveLecture (Some (lid, name, sid)) lib)
  = if bool_decide (sid' = sid ∧ lid' = lid)
    then (λ _, name) <$> lecture_names sid' lid' lib
    else lecture_names sid' lid' lib.
Proof.
  unfold lecture_names, handleSaveLecture.
  assert (Hinner : ∀ s,
    ((λ lec, if bool_decide (l_id lec = lid)
             then mkLecture (l_id lec) name (l_questions lec) else lec)
       <$> s_lectures s)
      ≫= (λ l, if bool_decide (l_id l = lid') then [l_name l] else [])
    = if bool_decide (lid' = lid)
      then (λ _, name) <$> (s_lectures s
             ≫= λ l, if bool_decide (l_id l = lid') then [l_name l] else [])
      else s_lectures s ≫= λ l, if bool_decide (l_id l = lid') then [l_name l] else []).
  { intros s. by_id lid' lid.
    - subst lid'. rewrite fmap_bind_comm. apply bind_fmap_ext. intros l _.
      by_id (l_id l) lid; done.
    - apply bind_fmap_ext. intros l _. by_id (l_id l) lid; [|done].
      by rewrite !bool_decide_eq_false_2 by congruence. }
  destruct (decide (sid' = sid ∧ lid' = lid)) as [Hboth|Hboth].
  - rewrite (bool_decide_eq_true_2 _ Hboth).
    destruct Hboth as [-> ->]. rewrite fmap_bind_comm. apply bind_fmap_ext.
    intros s _. by_id (s_id s) sid; [|done].
    rewrite Hinner. by rewrite bool_decide_eq_true_2.
  - rewrite (bool_decide_eq_false_2 _ Hboth).
    apply bind_fmap_ext. intros s _. by_id (s_id s) sid; [|done].
    by_id (s_id s) sid'; [|done]. rewrite Hinner.
    rewrite bool_decide_eq_false_2; [done|]. intros ->. apply Hboth. split; congruence.
Qed.

Lemma skeleton_saveLecture editing lib :
  skeleton (handleSaveLecture editing lib) = skeleton lib.
Proof.
  destruct editing as [[[lid name] sid]|]; [|done].
  unfold skeleton, handleSaveLecture. rewrite <-list_fmap_compose.
  apply list_fmap_ext. intros i s _. simpl. case_bool_decide; [|done]. simpl.
  f_equal. rewrite <-list_fmap_compose. apply list_fmap_ext. intros j l _. simpl.
  by case_bool_decide.
Qed.
End store_rename.

(** X6.  Renaming a lecture stores the name exactly as given, blank or
    empty names included (nothing is trimmed or refused); the lectures
    under the given subject id and lecture id all take it, every other
    lecture keeps its name, subject names and all ids stay as they are. *)
Theorem saveLecture_stores_raw_name (lid name sid : jsstring) (lib : Library) :
  let lib' := Store.handleSaveLecture (Some (lid, name, sid)) lib in
  lecture_names sid lid lib' = (λ _, name) <$> lecture_names sid lid lib
  ∧ (∀ sid' lid', sid' ≠ sid ∨ lid' ≠ lid →
       lecture_names sid' lid' lib' = lecture_names sid' lid' lib)
  ∧ skeleton lib' = skeleton lib
  ∧ s_name <$> lib' = s_name <$> lib.
Proof.
  intros lib'. unfold lib'. split_and!.
  - rewrite lecture_names_saveLecture. by rewrite bool_decide_eq_true_2.
  - intros sid' lid' Hne. rewrite lecture_names_saveLecture.
    rewrite bool_decide_eq_false_2; [done|]. intros [-> ->]. by destruct Hne.
  - apply skeleton_saveLecture.
  - unfold Store.handleSaveLecture. rewrite <-list_fmap_compose.
    apply list_fmap_ext. intros i s _. simpl. by case_bool_decide.
Qed.

(** X7.  Saving an edited question replaces the questions with the edited
    id in every lecture of every subject, not only in the one on screen,
    and touches no other question; when the edited content still carries
    the id that is being edited, all ids of the library stay as they are.
    Without an edited content or with an empty id nothing changes. *)
Theorem saveEdit_replaces_everywhere (edited : Question) (qid : jsstring)
    (lib : Library) :
  (qid ≠ [] →
   all_questions (Store.handleSaveEdit (Some edited) (Some qid) lib)
   = (λ q, if bool_decide (q_id q = qid) then edited else q) <$> all_questions lib)
  ∧ (q_id edited = qid →
     skeleton (Store.handleSaveEdit (Some edited) (Some qid) lib) = skeleton lib)
  ∧ Store.handleSaveEdit None (Some qid) lib = lib
  ∧ Store.handleSaveEdit (Some edited) None lib = lib
  ∧ Store.handleSaveEdit (Some edited) (Some []) lib = lib.
Proof.
  split_and!; [| |done..].
  - intros Hq%str_truthy_true. unfold Store.handleSaveEdit, all_questions.
    rewrite Hq, fmap_bind_comm. apply bind_fmap_ext. intros s _. simpl.
    rewrite fmap_bind_comm. by apply bind_fmap_ext.
  - intros Hid. unfold Store.handleSaveEdit. destruct (str_truthy qid); [|done].
    unfold skeleton. rewrite <-list_fmap_compose.
    apply list_fmap_ext. intros i s _. simpl. f_equal.
    rewrite <-list_fmap_compose. apply list_fmap_ext. intros j l _. simpl. f_equal.
    rewrite <-list_fmap_compose. apply list_fmap_ext. intros k q _. simpl.
    case_bool_decide; congruence.
Qed.

Lemma saveEdit_replaces_everywhere_witness :
  all_questions
    (Store.handleSaveEdit (Some (ShortAnswerQuestion (js "q1") (JStr (js "New")) (JStr [])))
       (Some (js "q1")) lib_shared_id)
  = [ShortAnswerQuestion (js "q1") (JStr (js "New")) (JStr []);
     ShortAnswerQuestion (js "q1") (JStr (js "New")) (JStr [])]
  ∧ skeleton
      (Store.handleSaveEdit (Some (ShortAnswerQuestion (js "q1") (JStr (js "New")) (JStr [])))
         (Some (js "q1")) lib_shared_id)
    = skeleton lib_shared_id.
Proof.
  destruct (saveEdit_replaces_everywhere
              (ShortAnswerQuestion (js "q1") (JStr (js "New")) (JStr []))
              (js "q1") lib_shared_id) as (H1 & H2 & _).
  split.
  - rewrite H1; by vm_compute.
  - by apply H2.
Defined.

Section store_keys.
Import Store.

Lemma well_keyed_drop m sid t lib : well_keyed lib → well_keyed (handleDrop m sid t lib).
Proof.
  intros [Hs Hl].
  destruct (handleDrop_cases m sid t lib)
    as [->|(si & subject & di & ti & _ & _ & _ & Hsub & _ & _ & ->)]; [done|].
  split.
  - unfold subject_ids. rewrite list_fmap_insert. simpl.
    rewrite list_insert_id; [done|]. by rewrite list_lookup_fmap, Hsub.
  - apply Forall_insert; [done|]. simpl.
    rewrite Forall_forall in Hl. specialize (Hl subject (list_elem_of_lookup_2 _ _ _ Hsub)).
    by rewrite moveLecture_Permutation.
Qed.

Lemma well_keyed_filter id lib :
  well_keyed lib → well_keyed (filter (λ sub, s_id sub ≠ id) lib).
Proof.
  intros [Hs Hl]. split.
  - unfold subject_ids. rewrite filter_fmap_ids. by apply NoDup_filter.
  - apply Forall_forall. intros s [_ Hin]%list_elem_of_filter.
    rewrite Forall_forall in Hl. by apply Hl.
Qed.

Lemma well_keyed_fmap (f : Subject → Subject) lib :
  (∀ s, s_id (f s) = s_id s) →
  (∀ s, NoDup (l_id <$> s_lectures s) → NoDup (l_id <$> s_lectures (f s))) →
  well_keyed lib → well_keyed (f <$> lib).
Proof.
  intros Hid Hlec [Hs Hl]. split.
  - unfold subject_ids. rewrite <-list_fmap_compose.
    erewrite list_fmap_ext; [exact Hs|]. intros i s _. apply Hid.
  - apply Forall_fmap. eapply Forall_impl; [exact Hl|]. intros s. apply Hlec.
Qed.
End store_keys.

(** X8.  A library whose subject ids are pairwise distinct, and whose
    lecture ids are distinct within each subject, stays so under reorder,
    delete subject, delete lecture, delete question, the renames and the
    save of an edited question; it stays so under add subject and add
    lecture when the id made from the clock is not yet in use there. *)
Theorem store_keeps_ids_distinct (lib : Library) :
  well_keyed lib →
  (∀ m sid t, well_keyed (Store.handleDrop m sid t lib))
  ∧ (∀ conf item, well_keyed (Store.handleConfirmDelete conf item lib))
  ∧ (∀ sid lid qid, well_keyed (Store.handleDeleteQuestion sid lid qid lib))
  ∧ (∀ editing name, well_keyed (Store.handleUpdateSubject editing name lib))
  ∧ (∀ editing, well_keyed (Store.handleSaveLecture editing lib))
  ∧ (∀ edited qid, well_keyed (Store.handleSaveEdit edited qid lib))
  ∧ (∀ name now,
       (js "sub-" ++ decimal now) ∉ subject_ids lib →
       well_keyed (Store.handleAddSubject name now lib))
  ∧ (∀ names sid now added,
       (js "lec-" ++ decimal now) ∉ lecture_ids sid lib →
       Store.handleAddLecture names sid now lib = Store.Done added →
       well_keyed added).
Proof.
  intros Hk. split_and!.
  - intros m sid t. by apply well_keyed_drop.
  - intros conf item. unfold Store.handleConfirmDelete.
    destruct (negb _); [done|].
    destruct item as [[id|lid [sid|]]|]; [by apply well_keyed_filter| |done|done].
    destruct (str_truthy sid); [|done].
    apply well_keyed_fmap; [| |done].
    + intros s. by case_bool_decide.
    + intros s Hs. case_bool_decide; [|done]. simpl.
      rewrite filter_fmap_ids. by apply NoDup_filter.
  - intros sid lid qid. apply well_keyed_fmap; [| |done].
    + intros s. by case_bool_decide.
    + intros s Hs. case_bool_decide; [done|]. simpl.
      rewrite <-list_fmap_compose.
      erewrite list_fmap_ext; [exact Hs|]. intros i l _. simpl. by case_bool_decide.
  - intros [editing|] name; [|done]. unfold Store.handleUpdateSubject.
    destruct (str_truthy _); [|done].
    apply well_keyed_fmap; [| |done]; intros s; by case_bool_decide.
  - intros [[[lid name] sid]|]; [|done]. apply well_keyed_fmap; [| |done].
    + intros s. by case_bool_decide.
    + intros s Hs. case_bool_decide; [|done]. simpl.
      rewrite <-list_fmap_compose.
      erewrite list_fmap_ext; [exact Hs|]. intros i l _. simpl. by case_bool_decide.
  - intros [edited|] [qid|]; try done. unfold Store.handleSaveEdit.
    destruct (str_truthy qid); [|done].
    apply well_keyed_fmap; [done| |done].
    intros s Hs. simpl. rewrite <-list_fmap_compose.
    erewrite list_fmap_ext; [exact Hs|]. done.
  - intros name now Hfresh. unfold Store.handleAddSubject.
    destruct (str_truthy _); [|done]. destruct Hk as [Hs Hl]. split.
    + unfold subject_ids. rewrite fmap_app. apply NoDup_app. split_and!; [done| |].
      * intros x Hx [->|[]%not_elem_of_nil]%elem_of_cons. by apply Hfresh.
      * apply NoDup_singleton.
    + apply Forall_app. split; [done|]. repeat constructor.
  - intros names sid now added Hfresh. unfold Store.handleAddLecture.
    destruct (Store.lectureName names sid) as [|name|]; [by intros [= <-]| |done].
    destruct (str_truthy name); intros [= <-]; [|done].
    destruct Hk as [Hs Hl]. split.
    + unfold subject_ids. rewrite <-list_fmap_compose.
      erewrite list_fmap_ext; [exact Hs|]. intros i s _. simpl. by case_bool_decide.
    + apply Forall_fmap, Forall_forall. intros s Hin. simpl.
      rewrite Forall_forall in Hl. specialize (Hl s Hin).
      case_bool_decide as Hid; [|done]. simpl. rewrite fmap_app.
      apply NoDup_app. split_and!; [done| |apply NoDup_singleton].
      intros x Hx [->|[]%not_elem_of_nil]%elem_of_cons.
      apply Hfresh. by eapply lecture_ids_found.
Qed.

Lemma store_keeps_ids_distinct_witness :
  well_keyed (Store.handleDrop (js "a") (js "s") (js "c") lib_abc)
  ∧ well_keyed (Store.handleAddSubject (js "Optics") 1700 lib_abc)
  ∧ (∀ added,
       Store.handleAddLecture {[js "s" := js "D"]} (js "s") 1700 lib_abc
       = Store.Done added →
       well_keyed added).
Proof.
  assert (Hk : well_keyed lib_abc).
  { unfold well_keyed. apply (bool_decide_unpack _). by vm_compute. }
  destruct (store_keeps_ids_distinct lib_abc Hk) as (H1 & _ & _ & _ & _ & _ & H7 & H8).
  split_and!.
  - apply H1.
  - apply H7. absent.
  - intros added. apply H8. absent.
Defined.
(** ** Further properties of the staging workflow *)

(** X9.  Toggling a staged question twice restores the selection, and one
    toggle changes the membership of that question only. *)
Theorem toggle_twice_restores (questionId : jsstring) (st : Staging.State) :
  Staging.handleToggleStagedQuestion questionId
    (Staging.handleToggleStagedQuestion questionId st) = st
  ∧ (∀ other, other ≠ questionId →
       other ∈ Staging.selectedStagedIds
                 (Staging.handleToggleStagedQuestion questionId st)
       ↔ other ∈ Staging.selectedStagedIds st)
  ∧ (questionId ∈ Staging.selectedStagedIds
                    (Staging.handleToggleStagedQuestion questionId st)
     ↔ questionId ∉ Staging.selectedStagedIds st).
Proof.
  destruct st as [lib results sel]. unfold Staging.handleToggleStagedQuestion. simpl.
  split_and!.
  - f_equal. destruct (decide (questionId ∈ sel)) as [Hin|Hout].
    + rewrite (bool_decide_eq_true_2 _ Hin).
      rewrite bool_decide_eq_false_2 by set_solver.
      apply set_eq. intros x. destruct (decide (x = questionId)); set_solver.
    + rewrite (bool_decide_eq_false_2 _ Hout).
      rewrite bool_decide_eq_true_2 by set_solver. set_solver.
  - intros other Hne. case_bool_decide; set_solver.
  - case_bool_decide; set_solver.
Qed.

Section staging_more.
Import Staging StagingMore.

Lemma filter_fmap_comm {A B} (f : A → B) (P : B → Prop) `{!∀ x, Decision (P x)}
    (l : list A) :
  filter P (f <$> l) = f <$> filter (λ x, P (f x)) l.
Proof.
  induction l as [|x l IH]; [done|]. csimpl. rewrite !filter_cons. simpl.
  destruct (decide (P (f x))); csimpl; by rewrite IH.
Qed.

Lemma filter_ext_in {A} (P Q : A → Prop) `{!∀ x, Decision (P x)}
    `{!∀ x, Decision (Q x)} (l : list A) :
  (∀ x, x ∈ l → P x ↔ Q x) → filter P l = filter Q l.
Proof.
  induction l as [|x l IH]; intros Hpq; [done|]. rewrite !filter_cons.
  assert (Hx : P x ↔ Q x) by (apply Hpq; left).
  rewrite IH by (intros y Hy; apply Hpq; by right).
  destruct (decide (P x)), (decide (Q x)); tauto.
Qed.

Lemma fmap_ext_in {A B} (f g : A → B) (l : list A) :
  (∀ x, x ∈ l → f x = g x) → f <$> l = g <$> l.
Proof.
  intros H. apply list_fmap_ext. intros i x Hx. apply H.
  by eapply list_elem_of_lookup_2.
Qed.

Lemma filter_none {A} (P : A → Prop) `{!∀ x, Decision (P x)} (l : list A) :
  Forall (λ x, ¬ P x) l → filter P l = [].
Proof.
  induction 1 as [|x l Hx _ IH]; [done|]. by rewrite filter_cons_False.
Qed.

Lemma selectAll_selects_all st q :
  q ∈ staged st → q_id q ∈ selectedStagedIds (handleSelectAllStaged st).
Proof.
  intros Hq. simpl. apply elem_of_list_to_set. by apply list_elem_of_fmap_2.
Qed.

Lemma totalStagedQuestions_length_from n results :
  foldl (λ acc r, acc + length (r_questions r)) n results
  = n + length (results ≫= r_questions).
Proof.
  revert n. induction results as [|r results IH]; intros n; csimpl; [lia|].
  rewrite IH, length_app. lia.
Qed.

Lemma emptied_no_questions (l : list ExtractionResult) :
  ((λ r, mkResult (imageUrl r) [] (r_error r)) <$> l) ≫= r_questions = []
  ∧ hasStagedQuestions ((λ r, mkResult (imageUrl r) [] (r_error r)) <$> l) = false.
Proof. induction l as [|r l [IH1 IH2]]; [done|]. csimpl. by rewrite IH1, IH2. Qed.
End staging_more.



Section staging_answer.
Import Staging StagingMore.

Lemma staged_selectAnswer id k st :
  staged (handleSelectStagedAnswer id k st)
  = (λ q, match q with
          | MCQ i t o c => if bool_decide (i = id) then MCQ i t o (Some k) else q
          | ShortAnswerQuestion _ _ _ => q
          end) <$> staged st.
Proof.
  unfold staged, handleSelectStagedAnswer. simpl.
  rewrite fmap_bind_comm. by apply bind_fmap_ext.
Qed.
End staging_answer.

(** X11.  Choosing the answer of a staged question changes nothing but
    chosen answers: ids, texts, options and order of the staged questions,
    the image and error of every result, the selection and the library are
    as before; afterwards every staged multiple-choice question with that
    id carries the given option index, which is stored without any check
    against the number of options, and questions with another id are as
    they were. *)
Theorem selectAnswer_changes_answer_only (questionId : jsstring) (optionIndex : nat)
    (st : Staging.State) :
  let st' := StagingMore.handleSelectStagedAnswer questionId optionIndex st in
  without_answer <$> staged st' = without_answer <$> staged st
  ∧ (∀ q, q ∈ staged st' → q_id q = questionId → has_answer optionIndex q)
  ∧ (∀ q, q ∈ staged st → q_id q ≠ questionId → q ∈ staged st')
  ∧ Forall2 (λ r r', imageUrl r' = imageUrl r ∧ r_error r' = r_error r
                     ∧ length (r_questions r') = length (r_questions r))
      (Staging.extractionResults st) (Staging.extractionResults st')
  ∧ Staging.selectedStagedIds st' = Staging.selectedStagedIds st
  ∧ Staging.subjects st' = Staging.subjects st.
Proof.
  intros st'. unfold st'. rewrite staged_selectAnswer. split_and!; [| | | |done|done].
  - rewrite <-list_fmap_compose. apply list_fmap_ext. intros i [] _; simpl; [|done].
    by case_bool_decide.
  - intros q (q0 & -> & Hq0)%list_elem_of_fmap Hid. destruct q0; simpl in *; [|done].
    case_bool_decide; [done|]. simpl in Hid. done.
  - intros q Hq Hid. apply list_elem_of_fmap. exists q. split; [|done].
    destruct q; simpl in *; [|done]. by rewrite bool_decide_eq_false_2.
  - simpl. apply Forall2_fmap_r, Forall_Forall2_diag, Forall_forall.
    intros r _. simpl. by rewrite length_fmap.
Qed.

(** X12.  The two derived values that drive the staging panel agree: the
    count of staged questions is the length of the staged sequence, and
    "has staged questions" holds exactly when that count is positive. *)
Theorem staged_count_agrees (results : list ExtractionResult) :
  StagingMore.totalStagedQuestions results = length (results ≫= r_questions)
  ∧ (StagingMore.hasStagedQuestions results = true
     ↔ 0 < StagingMore.totalStagedQuestions results).
Proof.
  assert (Hlen : StagingMore.totalStagedQuestions results
                 = length (results ≫= r_questions)).
  { unfold StagingMore.totalStagedQuestions.
    by rewrite totalStagedQuestions_length_from. }
  split; [done|]. rewrite Hlen. clear Hlen. unfold StagingMore.hasStagedQuestions.
  induction results as [|r results IH]; csimpl.
  - split; [done|lia].
  - rewrite length_app, orb_true_iff, IH, Nat.ltb_lt. lia.
Qed.
(** ** Further properties of the extraction adapter *)

Section trim_facts.

Lemma skip_suffix p s : ∃ pre, s = pre ++ skip p s.
Proof. destruct (skip_split p s) as (pre & H & _). by exists pre. Qed.

Lemma skip_snoc p s c : p c = false → ∃ u, skip p (s ++ [c]) = u ++ [c].
Proof.
  intros Hc. induction s as [|a s [u IH]]; simpl.
  - rewrite Hc. by exists [].
  - destruct (p a); [by exists u|]. by exists (a :: s).
Qed.

Lemma trimEnd_prefix s : ∃ post, s = trimEnd s ++ post.
Proof.
  unfold trimEnd, trimStart. destruct (skip_suffix is_space (reverse s)) as [pre H].
  exists (reverse pre). rewrite <-reverse_app, <-H. by rewrite reverse_involutive.
Qed.

Lemma trimEnd_idem s : trimEnd (trimEnd s) = trimEnd s.
Proof. unfold trimEnd, trimStart. by rewrite reverse_involutive, skip_idem. Qed.

Lemma trimStart_trimEnd s :
  trimStart s = s → trimStart (trimEnd s) = trimEnd s.
Proof.
  unfold trimEnd, trimStart. intros Hs. destruct s as [|c s]; [done|].
  assert (Hc : is_space c = false).
  { simpl in Hs. destruct (is_space c) eqn:E; [|done].
    destruct (skip_suffix is_space s) as [pre Hpre].
    apply (f_equal length) in Hs. rewrite Hpre in Hs at 2.
    simpl in Hs. rewrite length_app in Hs. lia. }
  rewrite reverse_cons. destruct (skip_snoc is_space (reverse s) c Hc) as [u ->].
  rewrite reverse_app. simpl. by rewrite Hc.
Qed.

Lemma trim_idem s : trim (trim s) = trim s.
Proof.
  unfold trim. rewrite trimStart_trimEnd.
  - apply trimEnd_idem.
  - unfold trimStart. apply skip_idem.
Qed.

Lemma trim_infix s : ∃ pre post, s = pre ++ trim s ++ post.
Proof.
  unfold trim, trimStart. destruct (skip_suffix is_space s) as [pre H].
  destruct (trimEnd_prefix (skip is_space s)) as [post H'].
  exists pre, post. by rewrite <-H', <-H.
Qed.
End trim_facts.

(** X13.  The cleaned option text is a contiguous part of the text it was
    made from (nothing is added or reordered), it is never longer, and it
    has no blank at either end. *)
Theorem cleanOption_is_trimmed_part (s : jsstring) :
  (∃ pre post, s = pre ++ Extraction.cleanOption s ++ post)
  ∧ length (Extraction.cleanOption s) ≤ length s
  ∧ trim (Extraction.cleanOption s) = Extraction.cleanOption s.
Proof.
  assert (Hpart : ∃ pre post, s = pre ++ Extraction.cleanOption s ++ post).
  { unfold Extraction.cleanOption, Extraction.stripLabel.
    destruct (Extraction.labelEnd s) as [r|] eqn:Hr; simpl; [|apply trim_infix].
    apply labelEnd_Some in Hr as Hm.
    destruct Hm as (ws1 & al & d & ws2 & rest & Hm).
    pose proof (labelEnd_match _ _ _ _ _ _ Hm) as Hr'.
    rewrite Hr in Hr'. injection Hr' as ->.
    rewrite trim_skip. destruct Hm as (-> & _).
    destruct (trim_infix rest) as (pre & post & Hrest).
    exists (ws1 ++ al ++ d :: ws2 ++ pre), post.
    rewrite Hrest at 1. rewrite <-!app_assoc. simpl. by rewrite <-!app_assoc. }
  split_and!; [done| |apply trim_idem].
  destruct Hpart as (pre & post & H). rewrite H at 2. rewrite !length_app. lia.
Qed.

Section id_facts.
Import Extraction.

Lemma extId_inj a i j a' i' j' :
  extId a i j = extId a' i' j' → i = i' ∧ j = j'.
Proof.
  unfold extId. intros H%app_inv_head.
  change (js "-") with [45%N] in H. simpl in H.
  apply digits_dash_split in H as [_ H]; [|apply decimal_digits..].
  apply digits_dash_split in H as [Hi Hj]; [|apply decimal_digits..].
  apply decimal_inj in Hi, Hj. by apply Nat2N.inj in Hi, Hj.
Qed.

Lemma toQuestion_emits clock index j q qq :
  toQuestion clock index j q = Some (Some qq) →
  q_id qq = extId (clock index j) index j ∧ freshly_extracted qq.
Proof.
  destruct q; try done. simpl.
  destruct (field (js "type") fields) as [[]|]; try done.
  case_bool_decide; [|case_bool_decide; [by intros [= <-]|done]].
  destruct (mapM _ _) as [options|] eqn:Hopts; [|done]. intros [= <-]. simpl.
  split_and!; [done..|]. apply mapM_Some in Hopts.
  induction Hopts as [|opt o opts os Ho _ IH]; constructor; [|done].
  destruct (optionText opt) as [t|]; [|done]. injection Ho as <-.
  unfold cleanOption. apply trim_idem.
Qed.

Lemma mapM_toQuestion_ids clock index items n mapped :
  mapM (λ '(qIndex, q), toQuestion clock index qIndex q)
    (imap (λ i, pair (n + i)) items) = Some mapped →
  Forall (λ q, (∃ j, n ≤ j ∧ q_id q = extId (clock index j) index j)
               ∧ freshly_extracted q) (omap id mapped)
  ∧ NoDup (q_id <$> omap id mapped)
  ∧ length (omap id mapped) ≤ length items.
Proof.
  revert n mapped. induction items as [|q items IH]; intros n mapped.
  - intros [= <-]. split_and!; [constructor|constructor|done].
  - simpl. destruct (toQuestion clock index (n + 0) q) as [oq|] eqn:Hq; [|done].
    simpl. unfold compose.
    erewrite imap_ext; [|intros i x _; simpl;
                         by replace (n + S i) with (S n + i) by lia].
    destruct (mapM _ (imap (λ i, pair (S n + i)) items)) as [rest|] eqn:Hrest;
      [|done].
    simpl. intros [= <-]. destruct (IH _ _ Hrest) as (Hall & Hnd & Hlen).
    assert (Hall' : Forall (λ q, (∃ j, n ≤ j ∧ q_id q = extId (clock index j) index j)
                                 ∧ freshly_extracted q) (omap id rest)).
    { eapply Forall_impl; [exact Hall|]. intros x [(j & Hj & Hx) Hf].
      split; [|done]. exists j. split; [lia|done]. }
    destruct oq as [qq|]; csimpl; [|split_and!; [done|done|lia]].
    apply toQuestion_emits in Hq as [Hid Hf].
    split_and!; [|constructor; [|done]|lia].
    + constructor; [|done]. split; [|done]. exists (n + 0). split; [lia|done].
    + intros (x & Hx & Hin)%list_elem_of_fmap.
      rewrite Forall_forall in Hall. destruct (Hall x Hin) as [(j & Hj & Hxj) _].
      rewrite Hid, Hxj in Hx. apply extId_inj in Hx as [_ Hx]. lia.
Qed.

Lemma analyzeImage_questions urls clock index outcome :
  let r := analyzeImage urls clock index outcome in
  Forall (λ q, from_image index (q_id q) ∧ freshly_extracted q) (r_questions r)
  ∧ NoDup (q_id <$> r_questions r)
  ∧ (has_error r = true → r_questions r = []).
Proof.
  assert (Hfail : let r := failed urls index in
    Forall (λ q, from_image index (q_id q) ∧ freshly_extracted q) (r_questions r)
    ∧ NoDup (q_id <$> r_questions r)
    ∧ (has_error r = true → r_questions r = [])).
  { simpl. split_and!; [constructor|constructor|done]. }
  assert (Hempty : let r := mkResult (urls !! index) [] None in
    Forall (λ q, from_image index (q_id q) ∧ freshly_extracted q) (r_questions r)
    ∧ NoDup (q_id <$> r_questions r)
    ∧ (has_error r = true → r_questions r = [])).
  { simpl. split_and!; [constructor|constructor|done]. }
  destruct outcome as [|[v|]]; [exact Hfail| |exact Hfail].
  destruct v; try exact Hempty.
  unfold analyzeImage.
  destruct (mapM _ (imap pair items)) as [mapped|] eqn:Hm; [|exact Hfail].
  change (imap pair items) with (imap (λ i, pair (0 + i)) items) in Hm.
  apply mapM_toQuestion_ids in Hm as (Hall & Hnd & _). simpl.
  split_and!; [|done|done].
  eapply Forall_impl; [exact Hall|]. intros q [(j & _ & Hq) Hf]. split; [|done].
  by exists (clock index j), j.
Qed.

Lemma batch_ids (urls : list jsstring) (clock : nat → nat → N)
    (service : nat → File → Outcome) (images : list File) (n : nat) :
  let results := imap (λ i file, analyzeImage urls clock (n + i) (service (n + i) file))
                   images in
  Forall (λ q, (∃ i, n ≤ i ∧ from_image i (q_id q)) ∧ freshly_extracted q)
    (results ≫= r_questions)
  ∧ NoDup (q_id <$> (results ≫= r_questions)).
Proof.
  revert n. induction images as [|file images IH]; intros n.
  - simpl. split; constructor.
  - simpl. unfold compose.
    erewrite imap_ext; [|intros i x _; simpl;
                         by replace (n + S i) with (S n + i) by lia].
    destruct (IH (S n)) as [Hall Hnd]. simpl in Hall, Hnd.
    destruct (analyzeImage_questions urls clock (n + 0) (service (n + 0) file))
      as (Hhere & Hnd0 & _).
    split.
    + apply Forall_app. split.
      * eapply Forall_impl; [exact Hhere|]. intros q [Hq Hf]. split; [|done].
        exists (n + 0). split; [lia|done].
      * eapply Forall_impl; [exact Hall|]. intros q [(i & Hi & Hq) Hf].
        split; [|done]. exists i. split; [lia|done].
    + rewrite fmap_app. apply NoDup_app. split_and!; [done| |done].
      intros id (q & -> & Hq)%list_elem_of_fmap (q' & Heq & Hq')%list_elem_of_fmap.
      rewrite Forall_forall in Hhere, Hall.
      destruct (Hhere q Hq) as [(a & j & Hqid) _].
      destruct (Hall q' Hq') as [(i & Hi & a' & j' & Hq'id) _].
      rewrite Hqid, Hq'id in Heq. apply extId_inj in Heq as [Heq _]. lia.
Qed.
End id_facts.

(** X14.  In the results of one run over a batch, the ids of the staged
    questions are pairwise distinct, whatever the clock returns: selecting
    by id never selects two questions at once.  Each id names the position
    of its image. *)
Theorem staged_ids_are_distinct
    (service : nat → Extraction.File → Extraction.Outcome) (clock : nat → nat → N)
    (st : Extraction.State) :
  Extraction.images st ≠ [] →
  let results := Extraction.extractionResults
                   (Extraction.analyzeImages service clock st) in
  NoDup (q_id <$> (results ≫= r_questions))
  ∧ ∀ i r q, results !! i = Some r → q ∈ r_questions r → from_image i (q_id q).
Proof.
  intros Hne results. unfold results. rewrite analyzeImages_results by done.
  split.
  - apply (batch_ids (Extraction.imageUrls st) clock service (Extraction.images st) 0).
  - intros i r q Hr Hq. rewrite list_lookup_imap in Hr.
    destruct (Extraction.images st !! i) as [file|]; [|done].
    injection Hr as <-.
    destruct (analyzeImage_questions (Extraction.imageUrls st) clock i (service i file))
      as (Hall & _). rewrite Forall_forall in Hall. by apply Hall.
Qed.

Lemma staged_ids_are_distinct_witness :
  NoDup (q_id <$> (Extraction.extractionResults
                     (Extraction.analyzeImages service_3 (λ _ _, 1700%N) batch_3)
                   ≫= r_questions)).
Proof.
  apply (staged_ids_are_distinct service_3 (λ _ _, 1700%N) batch_3).
  by vm_compute.
Defined.

(** X15.  Every result of a run carries either an error and no question,
    or no error; a question comes out with no answer chosen and, when it is
    multiple-choice, with options that have no blank at either end; an
    image never yields more questions than its response has elements. *)
Theorem results_are_well_formed
    (urls : list jsstring) (clock : nat → nat → N) (index : nat)
    (outcome : Extraction.Outcome) :
  let r := Extraction.analyzeImage urls clock index outcome in
  (has_error r = true → r_questions r = [])
  ∧ Forall freshly_extracted (r_questions r)
  ∧ imageUrl r = urls !! index
  ∧ (∀ items, outcome = Extraction.Responds (Some (JArr items)) →
       length (r_questions r) ≤ length items).
Proof.
  intros r. destruct (analyzeImage_questions urls clock index outcome)
    as (Hall & _ & Herr). fold r in Hall, Herr.
  split_and!; [done| | |].
  - eapply Forall_impl; [exact Hall|]. by intros q [_ ?].
  - unfold r, Extraction.analyzeImage.
    destruct outcome as [|[[]|]]; try done. by destruct (mapM _ _).
  - intros items ->. unfold r, Extraction.analyzeImage.
    destruct (mapM _ (imap pair items)) as [mapped|] eqn:Hm; [|simpl; lia].
    change (imap pair items) with (imap (λ i, pair (0 + i)) items) in Hm.
    by apply mapM_toQuestion_ids in Hm as (_ & _ & Hlen).
Qed.

Lemma results_are_well_formed_witness :
  length (r_questions
            (Extraction.analyzeImage [js "blob:1"] (λ _ _, 1700%N) 0
               (Extraction.Responds (Some (JArr [JStr (js "note"); JNum (js "7")])))))
  ≤ 2.
Proof.
  apply (proj2 (proj2 (proj2 (results_are_well_formed [js "blob:1"] (λ _ _, 1700%N) 0
           (Extraction.Responds (Some (JArr [JStr (js "note"); JNum (js "7")])))))))
    with (items := [JStr (js "note"); JNum (js "7")]).
  reflexivity.
Defined.

(** X16.  The adapter of [index.tsx] is all or nothing on an array: either
    every element gives a question, in order, or the image gives the error
    result and no question at all; one element that is not an object is
    enough for the error. *)
Theorem indexTsx_all_or_nothing (urls : list jsstring) (clock : nat → nat → N)
    (index : nat) (items : list json) :
  let r := IndexTsx.analyzeImage urls clock index
             (Extraction.Responds (Some (JArr items))) in
  (r = IndexTsx.failed urls index
   ∨ IndexTsx.error r = None ∧ length (IndexTsx.questions r) = length items
     ∧ ∀ j q, IndexTsx.questions r !! j = Some q →
              IndexTsx.id q = Extraction.extId (clock index j) index j)
  ∧ ((∃ q, q ∈ items ∧ ∀ fields, q ≠ JObj fields) → r = IndexTsx.failed urls index).
Proof.
  intros r. unfold r, IndexTsx.analyzeImage. split.
  - destruct (mapM _ (imap pair items)) as [qs|] eqn:Hm; [right|by left]. simpl.
    split_and!; [done| |].
    + apply length_mapM in Hm. by rewrite length_imap in Hm.
    + intros j q Hq. apply mapM_Some_1 in Hm.
      destruct (Forall2_lookup_r _ _ _ _ _ Hm Hq) as ([k x] & Hx & Hfx).
      rewrite list_lookup_imap in Hx.
      destruct (items !! j) as [y|]; [|done]. injection Hx as <- <-.
      unfold IndexTsx.toQuestion in Hfx. destruct y; try done.
      destruct (Extraction.field _ _) as [[]|]; try done.
      destruct (mapM IndexTsx.cleanOption items0); [|done].
      simpl in Hfx. by injection Hfx as <-.
  - intros (q & Hq & Hobj).
    assert (Hm : mapM (λ '(qIndex, q), IndexTsx.toQuestion clock index qIndex q)
                   (imap pair items) = None).
    { apply mapM_None_2, Exists_exists.
      apply list_elem_of_lookup in Hq as [j Hj].
      exists (j, q). split.
      - apply list_elem_of_lookup. exists j. by rewrite list_lookup_imap, Hj.
      - destruct q; try done. by destruct (Hobj fields). }
    by rewrite Hm.
Qed.

Lemma indexTsx_all_or_nothing_witness :
  IndexTsx.analyzeImage [js "blob:1"] (λ _ _, 1700%N) 0
    (Extraction.Responds (Some (JArr
       [JObj [(js "question", JStr (js "Q")); (js "options", JArr [JStr (js "a) x")])];
        JStr (js "note")])))
  = IndexTsx.failed [js "blob:1"] 0.
Proof.
  apply (proj2 (indexTsx_all_or_nothing [js "blob:1"] (λ _ _, 1700%N) 0 _)).
  exists (JStr (js "note")). split; [|done]. right. left.
Defined.
(** ** Further properties of the sync engine *)

Lemma writes_grow (l : list (jsstring * option jsstring)) x : l ≠ l ++ [x].
Proof. intros H%(f_equal length). rewrite length_app in H. simpl in H. lia. Qed.

(** Closes the cases of a run in which the log of writes cannot be as
    assumed. *)
Ltac log_case :=
  repeat match goal with
  | H : ?l = ?l ++ [_] |- _ => by apply writes_grow in H
  | H : ?l ++ [_] = ?l |- _ => symmetry in H; by apply writes_grow in H
  | H : _ ++ [_] = _ ++ [_] |- _ => apply app_inj_tail in H as [_ H]; simplify_eq
  end.



(** X18.  The save task over the HTTP client.  When the read is answered
    with 404 and [btoa] encodes the document, the document is written with
    no expected version, that is, the file is created.  When [btoa] throws
    (the document holds a character above U+00FF), nothing is written and
    the run ends in [Error], whatever the read was answered with.  When
    the read is answered with a status outside 200..299 other than 404, or
    the request fails, nothing is written and the run ends in [Error].
    When the write is answered with a status outside 200..299 (a version
    conflict, for one), the run ends in [Error] and the local mirror is as
    before. *)
Theorem save_over_http
    (JSON_stringify : Library → jsstring) (btoa : jsstring → option jsstring)
    (get : Github.Http) (put : jsstring → option jsstring → Github.PutHttp)
    (subjects : Library) (st : Sync.State) :
  let run := Sync.saveTask JSON_stringify btoa
               (Github.asRead (Github.getGithubFile get))
               (λ content sha, (Github.saveGithubFile (put content sha)).1)
               subjects st in
  (∀ text body encoded,
     get = Github.Response 404 text body →
     btoa (JSON_stringify subjects) = Some encoded →
     Sync.writes run = Sync.writes st ++ [(encoded, None)])
  ∧ (btoa (JSON_stringify subjects) = None → run = Sync.saveFailed st)
  ∧ (∀ status text body,
       get = Github.Response status text body →
       status ≠ 404 → Github.ok status = false →
       run = Sync.saveFailed st)
  ∧ (∀ message, get = Github.FetchRejects message → run = Sync.saveFailed st)
  ∧ (∀ encoded expected status text body,
       Sync.writes run = Sync.writes st ++ [(encoded, expected)] →
       put encoded expected = Github.PutResponse status text body →
       Github.ok status = false →
       Sync.saveStatus run = Sync.Error
       ∧ Sync.localStorage run = Sync.localStorage st).
Proof.
  intros run. unfold run. split_and!.
  - intros text body encoded -> Hb. unfold Sync.saveTask. simpl. rewrite Hb.
    apply saveAndMirror_writes.
  - intros Hb. unfold Sync.saveTask. rewrite Hb.
    destruct get as [message|status text body]; [done|]. simpl.
    destruct (status =? 404); [done|]. destruct (negb (Github.ok status)); [done|].
    by destruct body.
  - intros status text body -> H404 Hok. unfold Sync.saveTask. simpl.
    apply Nat.eqb_neq in H404. by rewrite H404, Hok.
  - by intros message ->.
  - intros encoded expected status text body Hw Hput Hok.
    assert (Hrej : (Github.saveGithubFile (put encoded expected)).1 = Sync.WriteFails).
    { rewrite Hput. simpl. rewrite Hok. by destruct body. }
    revert Hw. unfold Sync.saveTask.
    assert (Hwrite : ∀ content enc exp,
      Sync.writes (Sync.saveAndMirror
                     (λ content sha, (Github.saveGithubFile (put content sha)).1)
                     content enc exp st)
      = Sync.writes st ++ [(encoded, expected)] →
      Sync.saveStatus (Sync.saveAndMirror
                     (λ content sha, (Github.saveGithubFile (put content sha)).1)
                     content enc exp st) = Sync.Error
      ∧ Sync.localStorage (Sync.saveAndMirror
                     (λ content sha, (Github.saveGithubFile (put content sha)).1)
                     content enc exp st) = Sync.localStorage st).
    { intros content enc exp. rewrite saveAndMirror_writes.
      intros [_ [= -> ->]]%app_inj_tail. unfold Sync.saveAndMirror. by rewrite Hrej. }
    destruct (Github.asRead (Github.getGithubFile get)) as [| |[remote|] sha|];
      try (by intros ?%writes_grow);
      (destruct (btoa (JSON_stringify subjects)) as [enc|];
       [|by intros ?%writes_grow]); try apply Hwrite.
    + case_bool_decide; [by intros ?%writes_grow|apply Hwrite].
    + by intros ?%writes_grow.
Qed.

Section load_facts.
Context (JSON_parse : jsstring → Load.ParseOutcome)
        (JSON_stringify : Library → jsstring)
        (atob : jsstring → Load.Result jsstring).

Lemma loadLocal_not_loaded storage st :
  Load.loadLocal JSON_parse storage = (st, false) →
  Load.subjects st = [] ∧ Load.pat st = None.
Proof.
  unfold Load.loadLocal. intros H.
  repeat case_match; by simplify_eq.
Qed.

Lemma loadLocal_pat storage :
  Load.pat (Load.loadLocal JSON_parse storage).1 = None.
Proof. unfold Load.loadLocal. by repeat case_match. Qed.

Lemma loadLocal_loaded storage st :
  Load.loadLocal JSON_parse storage = (st, true) →
  ∃ cached, storage !! js "qsnap_subjects" = Some cached
            ∧ JSON_parse cached = Load.IsArray (Load.subjects st)
            ∧ Load.localStorage st = storage.
Proof.
  unfold Load.loadLocal. intros H.
  repeat case_match; simplify_eq; eauto.
Qed.
Lemma loadLocal_array storage text lib :
  storage !! js "qsnap_subjects" = Some text → text ≠ [] →
  JSON_parse text = Load.IsArray lib →
  Load.loadLocal JSON_parse storage
  = (Load.mkState lib None false None storage true, true).
Proof.
  intros Hs Ht%str_truthy_true Hp. unfold Load.loadLocal. by rewrite Hs, Ht, Hp.
Qed.

Lemma loadLocal_unreadable storage text message :
  storage !! js "qsnap_subjects" = Some text → text ≠ [] →
  JSON_parse text = Load.ParseThrows message →
  Load.loadLocal JSON_parse storage
  = (Load.mkState [] None false None
       (delete (js "qsnap_sha") (delete (js "qsnap_subjects") storage)) true,
     false).
Proof.
  intros Hs Ht%str_truthy_true Hp. unfold Load.loadLocal. by rewrite Hs, Ht, Hp.
Qed.

Lemma loadLocal_nothing storage :
  storage !! js "qsnap_subjects" = None
  ∨ storage !! js "qsnap_subjects" = Some []
  ∨ (∃ text, storage !! js "qsnap_subjects" = Some text
             ∧ JSON_parse text = Load.NotArray) →
  Load.loadLocal JSON_parse storage
  = (Load.mkState [] None false None storage true, false).
Proof.
  unfold Load.loadLocal. intros [->|[->|(text & -> & Hp)]]; [done|done|].
  rewrite Hp. by destruct (str_truthy text).
Qed.
End load_facts.

Lemma loadFailed_true message st : Load.loadFailed true message st = st.
Proof. done. Qed.

Lemma loadFailed_storage loaded message st :
  Load.localStorage (Load.loadFailed loaded message st) = Load.localStorage st.
Proof. by destruct loaded. Qed.

Lemma loadFailed_subjects message st :
  Load.subjects (Load.loadFailed false message st) = [].
Proof. done. Qed.

Lemma loadFailed_error message st :
  Load.error (Load.loadFailed false message st) = Some (load_error message).
Proof. done. Qed.

Lemma loadFailed_pat loaded message st :
  Load.pat (Load.loadFailed loaded message st) = Load.pat st.
Proof. by destruct loaded. Qed.

Lemma transport_failure_loadFailed
    (JSON_parse : jsstring → Load.ParseOutcome)
    (JSON_stringify : Library → jsstring)
    (atob : jsstring → Load.Result jsstring)
    (storage : gmap jsstring jsstring) (token : Load.PatOutcome)
    (file : jsstring → Github.FileOutcome) st loaded :
  transport_failure token file →
  Load.loadLocal JSON_parse storage = (st, loaded) →
  ∃ message pat,
    Load.loadOnMount JSON_parse JSON_stringify atob storage token file
    = (let failed := Load.loadFailed loaded message
                       (Load.mkState (Load.subjects st) None (negb loaded) pat
                          (Load.localStorage st) (Load.isInitialLoad st)) in
       Load.mkState (Load.subjects failed) (Load.error failed) false
         (Load.pat failed) (Load.localStorage failed) false).
Proof.
  intros Hfail Hl. unfold Load.loadOnMount. rewrite Hl.
  destruct token as [m| |m|p]; cbn [transport_failure] in Hfail;
    [by eexists _, _..|].
  destruct (Load.present p); [|by eexists _, _].
  destruct Hfail as [m ->]. by eexists _, _.
Qed.

(** X19.  When the remote part of the load fails in transport (the token
    cannot be had or is empty, or the read of the file throws), the load
    still ends: the loading flag is down and saving is armed.  With a
    cached text that parses to an array, that library is shown, with no
    error, and the cache is as the load found it.  With a cached text that
    does not parse, the library is empty, the error names the cause of the
    remote failure, and both cache entries are gone: the local phase of
    the load removes them.  With no cached text, an empty one, or one that
    parses to something that is no array, the library is empty, the error
    names the cause and the cache is as the load found it. *)
Theorem load_survives_transport_failure
    (JSON_parse : jsstring → Load.ParseOutcome)
    (JSON_stringify : Library → jsstring)
    (atob : jsstring → Load.Result jsstring)
    (storage : gmap jsstring jsstring) (token : Load.PatOutcome)
    (file : jsstring → Github.FileOutcome) :
  transport_failure token file →
  let final := Load.loadOnMount JSON_parse JSON_stringify atob storage token file in
  Load.isDataLoading final = false
  ∧ Load.isInitialLoad final = false
  ∧ (∀ text lib,
       storage !! js "qsnap_subjects" = Some text → text ≠ [] →
       JSON_parse text = Load.IsArray lib →
       Load.subjects final = lib ∧ Load.error final = None
       ∧ Load.localStorage final = storage)
  ∧ (∀ text thrown,
       storage !! js "qsnap_subjects" = Some text → text ≠ [] →
       JSON_parse text = Load.ParseThrows thrown →
       Load.subjects final = []
       ∧ (∃ message, Load.error final = Some (load_error message))
       ∧ Load.localStorage final
         = delete (js "qsnap_sha") (delete (js "qsnap_subjects") storage))
  ∧ (storage !! js "qsnap_subjects" = None
     ∨ storage !! js "qsnap_subjects" = Some []
     ∨ (∃ text, storage !! js "qsnap_subjects" = Some text
                ∧ JSON_parse text = Load.NotArray) →
     Load.subjects final = []
     ∧ (∃ message, Load.error final = Some (load_error message))
     ∧ Load.localStorage final = storage).
Proof.
  intros Hfail final.
  split_and!.
  - unfold final, Load.loadOnMount. by destruct (Load.loadLocal JSON_parse storage).
  - unfold final, Load.loadOnMount. by destruct (Load.loadLocal JSON_parse storage).
  - intros text lib Hs Ht Hp.
    destruct (transport_failure_loadFailed JSON_parse JSON_stringify atob storage
                token file _ _ Hfail (loadLocal_array _ _ _ _ Hs Ht Hp))
      as (message & pat & Hfinal).
    unfold final. rewrite Hfinal. by rewrite loadFailed_true.
  - intros text thrown Hs Ht Hp.
    destruct (transport_failure_loadFailed JSON_parse JSON_stringify atob storage
                token file _ _ Hfail (loadLocal_unreadable _ _ _ _ Hs Ht Hp))
      as (message & pat & Hfinal).
    unfold final. rewrite Hfinal.
    cbn [Load.subjects Load.error Load.localStorage].
    rewrite loadFailed_subjects, loadFailed_error, loadFailed_storage. eauto.
  - intros Hnone.
    destruct (transport_failure_loadFailed JSON_parse JSON_stringify atob storage
                token file _ _ Hfail (loadLocal_nothing _ _ Hnone))
      as (message & pat & Hfinal).
    unfold final. rewrite Hfinal.
    cbn [Load.subjects Load.error Load.localStorage].
    rewrite loadFailed_subjects, loadFailed_error, loadFailed_storage. eauto.
Qed.

Lemma load_survives_transport_failure_witness :
  let final := Load.loadOnMount parse_sample (λ _, js "[]") atob_sample
                 {[ js "qsnap_subjects" := js "{" ]} Load.PatNotOk
                 (λ _, Github.FileNull) in
  Load.subjects final = [] ∧ Load.localStorage final = ∅.
Proof.
  assert (Hfail : transport_failure Load.PatNotOk (λ _, Github.FileNull)) by exact I.
  destruct (load_survives_transport_failure parse_sample (λ _, js "[]") atob_sample
              {[ js "qsnap_subjects" := js "{" ]} Load.PatNotOk
              (λ _, Github.FileNull) Hfail) as (_ & _ & _ & Hc & _).
  destruct (Hc (js "{") (js "Unexpected token")) as (Hs & _ & Hl);
    [done|by vm_compute|done|].
  intros final. unfold final. rewrite Hs, Hl. split; [done|]. by vm_compute.
Defined.

Lemma present_Some p : Load.present (Some p) = true → Load.stored (Some p) = p.
Proof. done. Qed.



(** X21.  With a usable token and a remote file that is not there (404),
    the load ends with an empty library and no error.  A cached library
    that had been loaded is dropped with it: both cache entries are
    removed.  A cached text that does not parse has lost both entries
    already, in the local phase.  With no cached text, an empty one, or
    one that parses to something that is no array, the cache is as the
    load found it. *)
Theorem remote_missing_clears_cache
    (JSON_parse : jsstring → Load.ParseOutcome)
    (JSON_stringify : Library → jsstring)
    (atob : jsstring → Load.Result jsstring)
    (storage : gmap jsstring jsstring) (file : jsstring → Github.FileOutcome)
    (p : jsstring) :
  Load.present (Some p) = true →
  file p = Github.FileNull →
  let final := Load.loadOnMount JSON_parse JSON_stringify atob storage
                 (Load.PatBody (Some p)) file in
  Load.subjects final = []
  ∧ Load.error final = None
  ∧ Load.pat final = Some p
  ∧ (∀ text, storage !! js "qsnap_subjects" = Some text → text ≠ [] →
       (∃ lib, JSON_parse text = Load.IsArray lib)
       ∨ (∃ thrown, JSON_parse text = Load.ParseThrows thrown) →
       Load.localStorage final
       = delete (js "qsnap_sha") (delete (js "qsnap_subjects") storage))
  ∧ (storage !! js "qsnap_subjects" = None
     ∨ storage !! js "qsnap_subjects" = Some []
     ∨ (∃ text, storage !! js "qsnap_subjects" = Some text
                ∧ JSON_parse text = Load.NotArray) →
     Load.localStorage final = storage).
Proof.
  intros Hp Hfile final.
  assert (Hfinal : ∀ st loaded,
    Load.loadLocal JSON_parse storage = (st, loaded) →
    final = Load.mkState [] None false (Some p)
              (if loaded
               then delete (js "qsnap_sha")
                      (delete (js "qsnap_subjects") (Load.localStorage st))
               else Load.localStorage st) false).
  { intros st loaded Hl. unfold final, Load.loadOnMount.
    rewrite Hl, Hp, (present_Some _ Hp), Hfile. unfold Load.useRemote.
    destruct loaded; cbn [Load.subjects Load.error Load.pat Load.localStorage];
      [done|]. by apply loadLocal_not_loaded in Hl as [-> _]. }
  split_and!.
  - destruct (Load.loadLocal JSON_parse storage) as [st loaded] eqn:Hl.
    by rewrite (Hfinal _ _ eq_refl).
  - destruct (Load.loadLocal JSON_parse storage) as [st loaded] eqn:Hl.
    by rewrite (Hfinal _ _ eq_refl).
  - destruct (Load.loadLocal JSON_parse storage) as [st loaded] eqn:Hl.
    by rewrite (Hfinal _ _ eq_refl).
  - intros text Hs Ht [[lib Hparse]|[thrown Hparse]].
    + by rewrite (Hfinal _ _ (loadLocal_array _ _ _ _ Hs Ht Hparse)).
    + by rewrite (Hfinal _ _ (loadLocal_unreadable _ _ _ _ Hs Ht Hparse)).
  - intros Hnone. by rewrite (Hfinal _ _ (loadLocal_nothing _ _ Hnone)).
Qed.

Lemma remote_missing_clears_cache_witness :
  let final := Load.loadOnMount parse_sample (λ _, js "[]") atob_sample
                 {[ js "qsnap_subjects" := js "[]" ]}
                 (Load.PatBody (Some (js "ghp_1"))) (λ _, Github.FileNull) in
  Load.localStorage final !! js "qsnap_subjects" = None.
Proof.
  destruct (remote_missing_clears_cache parse_sample (λ _, js "[]") atob_sample
              {[ js "qsnap_subjects" := js "[]" ]} (λ _, Github.FileNull)
              (js "ghp_1") eq_refl eq_refl) as (_ & _ & _ & Hc & _).
  intros final. unfold final.
  rewrite (Hc (js "[]")); [by vm_compute|done|by vm_compute|].
  left. by exists [].
Defined.

Lemma saveTask_written
    (JSON_stringify : Library → jsstring) (btoa : jsstring → option jsstring)
    (read : Sync.ReadOutcome) (write : jsstring → option jsstring → Sync.WriteOutcome)
    (subjects : Library) (st : Sync.State) encoded expected newSha :
  let run := Sync.saveTask JSON_stringify btoa read write subjects st in
  Sync.writes run = Sync.writes st ++ [(encoded, expected)] →
  write encoded expected = Sync.Written newSha →
  run = Sync.mkState Sync.Saved (Sync.error st)
          (let stored := <[js "qsnap_subjects" := JSON_stringify subjects]>
                           (Sync.localStorage st) in
           match Sync.orNull newSha with
           | Some s => <[js "qsnap_sha" := s]> stored
           | None => stored
           end)
          (Sync.writes st ++ [(encoded, expected)]).
Proof.
  intros run. unfold run, Sync.saveTask.
  assert (Hwrite : ∀ enc exp,
    Sync.writes (Sync.saveAndMirror write (JSON_stringify subjects) enc exp st)
    = Sync.writes st ++ [(encoded, expected)] →
    write encoded expected = Sync.Written newSha →
    Sync.saveAndMirror write (JSON_stringify subjects) enc exp st
    = Sync.mkState Sync.Saved (Sync.error st)
          (let stored := <[js "qsnap_subjects" := JSON_stringify subjects]>
                           (Sync.localStorage st) in
           match Sync.orNull newSha with
           | Some s => <[js "qsnap_sha" := s]> stored
           | None => stored
           end)
          (Sync.writes st ++ [(encoded, expected)])).
  { intros enc exp. rewrite saveAndMirror_writes.
    intros [_ [= -> ->]]%app_inj_tail Hw. unfold Sync.saveAndMirror. by rewrite Hw. }
  destruct read as [| |[remote|] sha|]; try (by intros ?%writes_grow);
    (destruct (btoa (JSON_stringify subjects)) as [enc|];
     [|by intros ?%writes_grow]); try apply Hwrite.
  - case_bool_decide; [by intros ?%writes_grow|apply Hwrite].
  - by intros ?%writes_grow.
Qed.



Lemma useRemote_pat
    (JSON_parse : jsstring → Load.ParseOutcome)
    (JSON_stringify : Library → jsstring)
    (atob : jsstring → Load.Result jsstring) loaded f st :
  Load.pat (Load.useRemote JSON_parse JSON_stringify atob loaded f st) = Load.pat st.
Proof. unfold Load.useRemote. repeat case_match; by rewrite ?loadFailed_pat. Qed.

(** X23.  Whether saving is armed after the load depends on the token
    alone.  With a usable token every later change of the library starts a
    save, also when the read of the remote file failed and the error says
    that data will not be saved.  Without one no save ever starts. *)
Theorem saving_follows_the_token
    (JSON_parse : jsstring → Load.ParseOutcome)
    (JSON_stringify : Library → jsstring)
    (atob : jsstring → Load.Result jsstring)
    (storage : gmap jsstring jsstring) (token : Load.PatOutcome)
    (file : jsstring → Github.FileOutcome) :
  let final := Load.loadOnMount JSON_parse JSON_stringify atob storage token file in
  (∀ p st, token = Load.PatBody p → Load.present p = true →
     Sync.saveEffect (Load.isInitialLoad final) (Load.pat final)
       (Load.isDataLoading final) st
     = Some (Sync.mkState Sync.Saving (Sync.error st) (Sync.localStorage st)
               (Sync.writes st)))
  ∧ ((∀ p, token = Load.PatBody p → Load.present p = false) →
     ∀ initial loading st,
       Sync.saveEffect initial (Load.pat final) loading st = None).
Proof.
  intros final. unfold final, Load.loadOnMount.
  pose proof (loadLocal_pat JSON_parse storage) as Hpat.
  destruct (Load.loadLocal JSON_parse storage) as [st0 loaded]. simpl in Hpat.
  split.
  - intros p st -> Hp. rewrite Hp. cbn [Load.isInitialLoad Load.isDataLoading Load.pat].
    rewrite useRemote_pat. cbn [Load.pat]. unfold Sync.saveEffect.
    destruct p as [p|]; [|done]. simpl in Hp. simpl. by rewrite Hp.
  - intros Hno initial loading st.
    cbn [Load.pat].
    match goal with
    | |- Sync.saveEffect _ (Load.pat ?m) _ _ = _ =>
        assert (Hnone : Load.pat m = None)
    end.
    { destruct token as [m| |m|p]; rewrite ?loadFailed_pat; try done.
      by rewrite (Hno p eq_refl), loadFailed_pat. }
    rewrite Hnone. unfold Sync.saveEffect. simpl. by rewrite orb_true_r.
Qed.
(** ** Further properties of the PDF export *)

Lemma foldl_pointwise {T X} (f g : T → X → T) (l : list X) :
  (∀ s x, f s x = g s x) → ∀ s, foldl f s l = foldl g s l.
Proof. intros H. induction l as [|x l IH]; intros s; simpl; [done|]. by rewrite H, IH. Qed.

Lemma foldl_invariant {T X} (P : T → Prop) (f : T → X → T) (l : list X) :
  (∀ s x, P s → P (f s x)) → ∀ s, P s → P (foldl f s l).
Proof. intros H. induction l as [|x l IH]; intros s Hs; simpl; [done|]. apply IH, H, Hs. Qed.

Lemma foldl_indexed_fmap {A B T} (f : T → nat * B → T) (g : T → nat * A → T)
    (h : A → B) (l : list A) :
  (∀ s i x, f s (i, h x) = g s (i, x)) →
  ∀ (k : nat → nat) s,
    foldl f s (imap (λ i x, (k i, x)) (h <$> l))
    = foldl g s (imap (λ i x, (k i, x)) l).
Proof.
  intros H. induction l as [|x l IH]; intros k s; simpl; [done|].
  rewrite H. apply (IH (k ∘ S)).
Qed.

Lemma foldl_fmap_pointwise {A B T} (f : T → B → T) (g : T → A → T) (h : A → B)
    (l : list A) :
  (∀ s x, f s (h x) = g s x) → ∀ s, foldl f s (h <$> l) = foldl g s l.
Proof. intros H. induction l as [|x l IH]; intros s; simpl; [done|]. by rewrite H, IH. Qed.


Section pdf_more.
Import Pdf.
Context (pageHeight pageWidth scaleFactor : float)
        (splitTextToSize : FontStyle → float → jsstring → float → list jsstring)
        (getTextDimensions :
           FontStyle → list jsstring → float → option float → float * float)
        (getStringUnitWidth : FontStyle → jsstring → float)
        (selected : gset jsstring)
        (pdfTextSize : float) (pdfShowAnswers : bool).

Lemma grows_refl d : grows d d.
Proof. by intros H. Qed.

Lemma grows_trans d1 d2 d3 : grows d1 d2 → grows d2 d3 → grows d1 d3.
Proof.
  intros H12 H23 H1. destruct (H12 H1) as [H2 Hl]. destruct (H23 H2) as [H3 Hl'].
  split; [done|lia].
Qed.

Lemma grows_same d d' :
  pages d' = pages d → current d' = current d → grows d d'.
Proof. intros Hp Hc [H1 H2]. unfold on_last. rewrite Hp, Hc. by split_and!. Qed.

Lemma grows_draw c d : grows d (draw c d).
Proof.
  intros [H1 H2]. unfold on_last, draw. simpl. rewrite length_alter. by split_and!.
Qed.

Lemma grows_addPage d : grows d (addPage d).
Proof.
  intros [H1 H2]. unfold on_last, addPage. simpl. rewrite length_app. simpl.
  split_and!; lia.
Qed.

Lemma grows_foldl {X} (f : Doc → X → Doc) (l : list X) :
  (∀ d x, grows d (f d x)) → ∀ d, grows d (foldl f d l).
Proof.
  intros H. induction l as [|x l IH]; intros d; simpl; [apply grows_refl|].
  eapply grows_trans; [apply H|apply IH].
Qed.

Lemma grows_highlightLines lines x yPos size d :
  grows d (highlightLines scaleFactor getTextDimensions getStringUnitWidth
             lines x yPos size d).
Proof.
  unfold highlightLines.
  apply grows_trans with (setFillColor gold d); [by apply grows_same|].
  apply grows_foldl. intros d0 [i ln]. apply grows_draw.
Qed.

Lemma grows_addWrappedText txt x yPos size style highlight d :
  grows d (addWrappedText pageHeight pageWidth scaleFactor splitTextToSize
             getTextDimensions getStringUnitWidth txt x yPos size style
             highlight d).1.
Proof.
  unfold addWrappedText.
  set (d1 := setFontSize size (setFont style d)).
  assert (H1 : grows d d1) by (by apply grows_same).
  clearbody d1.
  set (lines := splitTextToSize _ _ _ _). clearbody lines.
  set (h := (getTextDimensions _ _ _ _).2). clearbody h.
  set (b := PrimFloat.ltb _ _). clearbody b.
  assert (H2 : grows d (if b then (addPage d1, margin) else (d1, yPos)).1).
  { destruct b; simpl; [|done]. eapply grows_trans; [done|apply grows_addPage]. }
  destruct (if b then (addPage d1, margin) else (d1, yPos)) as [d2 y2]. simpl in H2.
  simpl.
  eapply grows_trans; [exact H2|].
  set (d3 := if highlight then highlightLines _ _ _ _ _ _ _ d2 else d2).
  assert (H3 : grows d2 d3).
  { unfold d3. destruct highlight; [apply grows_highlightLines|apply grows_refl]. }
  clearbody d3. eapply grows_trans; [exact H3|].
  set (d4 := text _ _ _ _ _ _).
  assert (H4 : grows d3 d4).
  { unfold d4, text. eapply grows_trans; [|apply grows_draw]. by apply grows_same. }
  clearbody d4. eapply grows_trans; [exact H4|].
  destruct highlight; [by apply grows_same|apply grows_refl].
Qed.

Lemma quiet_refl st : quiet st st.
Proof. split; [done|apply grows_refl]. Qed.

Lemma quiet_trans st1 st2 st3 : quiet st1 st2 → quiet st2 st3 → quiet st1 st3.
Proof.
  intros [Ht Hg] [Ht' Hg']. split; [congruence|by eapply grows_trans].
Qed.

Lemma quiet_foldl {X} (f : Layout → X → Layout) (l : list X) :
  (∀ st x, quiet st (f st x)) → ∀ st, quiet st (foldl f st l).
Proof.
  intros H. induction l as [|x l IH]; intros st; simpl; [apply quiet_refl|].
  eapply quiet_trans; [apply H|apply IH].
Qed.

Lemma quiet_put txt x size style highlight gap st :
  quiet st (put pageHeight pageWidth scaleFactor splitTextToSize getTextDimensions
              getStringUnitWidth txt x size style highlight gap st).
Proof.
  unfold put.
  pose proof (grows_addWrappedText txt x (y st) size style highlight (doc st)) as Hg.
  destruct (addWrappedText _ _ _ _ _ _ _ _ _ _ _ _ _) as [d y']. by split.
Qed.

Lemma quiet_breakIfNeeded needed st : quiet st (breakIfNeeded pageHeight needed st).
Proof.
  unfold breakIfNeeded. destruct (PrimFloat.ltb _ _); [|apply quiet_refl].
  split; [done|apply grows_addPage].
Qed.

Lemma quiet_renderOption correctAnswer st io :
  quiet st (renderOption pageHeight pageWidth scaleFactor splitTextToSize
              getTextDimensions getStringUnitWidth pdfTextSize pdfShowAnswers
              correctAnswer st io).
Proof. destruct io as [oIndex opt]. apply quiet_put. Qed.

Lemma quiet_renderQuestion st iq :
  quiet st (renderQuestion pageHeight pageWidth scaleFactor splitTextToSize
              getTextDimensions getStringUnitWidth pdfTextSize pdfShowAnswers st iq).
Proof.
  destruct iq as [qIndex q]. unfold renderQuestion.
  match goal with
  | |- quiet _ (mkLayout (doc ?m) _ (toc ?m)) =>
      assert (Hm : quiet st m); [|by destruct Hm]
  end.
  destruct q as [i t o c|i t a].
  - eapply quiet_trans; [apply quiet_put|].
    apply quiet_foldl. intros. apply quiet_renderOption.
  - destruct (pdfShowAnswers && truthy a); [|apply quiet_put].
    eapply quiet_trans; apply quiet_put.
Qed.

Lemma toc_ok_quiet st st' : quiet st st' → toc_ok st → toc_ok st'.
Proof.
  intros [Ht Hg] (Hl & Hs & Hb). destruct (Hg Hl) as [Hl' Hlen].
  unfold toc_ok. rewrite Ht. split_and!; [done|done|].
  eapply Forall_impl; [exact Hb|]. simpl. intros e ?. lia.
Qed.

Lemma toc_ok_pushToc name lvl st : toc_ok st → toc_ok (pushToc name lvl st).
Proof.
  intros (Hl & Hs & Hb). unfold toc_ok, pushToc. simpl. split_and!; [done| |].
  - rewrite fmap_app. simpl.
    assert (Hle : Forall (λ n, n ≤ getNumberOfPages (doc st)) (page <$> toc st)).
    { apply Forall_fmap. eapply Forall_impl; [exact Hb|]. simpl.
      unfold getNumberOfPages. intros e ?. lia. }
    clear Hb. induction Hs as [|n l Hs IH Hall]; simpl.
    + by repeat constructor.
    + apply Forall_cons in Hle as [Hn' Hle]. constructor; [by apply IH|].
      apply Forall_app. split; [done|]. by constructor.
  - apply Forall_app. split; [done|]. constructor; [|done]. simpl.
    unfold getNumberOfPages. destruct Hl. lia.
Qed.

Lemma heading_quiet st st' : quiet st st' → heading <$> toc st' = heading <$> toc st.
Proof. by intros [-> _]. Qed.

Lemma renderLecture_spec st lecture :
  let st' := renderLecture pageHeight pageWidth scaleFactor splitTextToSize
               getTextDimensions getStringUnitWidth pdfTextSize pdfShowAnswers
               st lecture in
  heading <$> toc st' = (heading <$> toc st) ++ [(l_name lecture, LectureLevel)]
  ∧ (toc_ok st → toc_ok st').
Proof.
  unfold renderLecture.
  set (st1 := breakIfNeeded _ _ st).
  assert (H1 : quiet st st1) by apply quiet_breakIfNeeded. clearbody st1.
  set (st2 := pushToc _ _ st1).
  set (st3 := put _ _ _ _ _ _ _ _ _ _ _ _ st2).
  assert (H3 : quiet st2 st3) by apply quiet_put. clearbody st3.
  set (st4 := foldl _ st3 _).
  assert (H4 : quiet st3 st4).
  { apply quiet_foldl. intros. apply quiet_renderQuestion. }
  clearbody st4. simpl. split.
  - rewrite (heading_quiet _ _ H4), (heading_quiet _ _ H3). unfold st2, pushToc.
    simpl. rewrite fmap_app. simpl. by rewrite (heading_quiet _ _ H1).
  - intros Hok. eapply toc_ok_quiet; [exact H4|]. eapply toc_ok_quiet; [exact H3|].
    apply toc_ok_pushToc. by eapply toc_ok_quiet.
Qed.

Lemma renderLectures_spec lectures : ∀ st,
  let st' := foldl (renderLecture pageHeight pageWidth scaleFactor splitTextToSize
                      getTextDimensions getStringUnitWidth pdfTextSize
                      pdfShowAnswers) st lectures in
  heading <$> toc st'
  = (heading <$> toc st) ++ ((λ lec, (l_name lec, LectureLevel)) <$> lectures)
  ∧ (toc_ok st → toc_ok st').
Proof.
  induction lectures as [|lec lectures IH]; intros st; simpl.
  - by rewrite app_nil_r.
  - destruct (IH (renderLecture pageHeight pageWidth scaleFactor splitTextToSize
                    getTextDimensions getStringUnitWidth pdfTextSize pdfShowAnswers
                    st lec)) as [Hh Hok].
    destruct (renderLecture_spec st lec) as [Hh1 Hok1].
    split; [|by auto]. rewrite Hh, Hh1. by rewrite <-app_assoc.
Qed.

Lemma renderSubject_spec st subject :
  let st' := renderSubject pageHeight pageWidth scaleFactor splitTextToSize
               getTextDimensions getStringUnitWidth selected pdfTextSize
               pdfShowAnswers st subject in
  heading <$> toc st' = (heading <$> toc st) ++ outline [subject] selected
  ∧ (toc_ok st → toc_ok st').
Proof.
  unfold renderSubject, outline. simpl. rewrite app_nil_r.
  destruct (filter (λ lec, l_id lec ∈ selected) (s_lectures subject))
    as [|lec ls] eqn:Hf.
  - simpl. by rewrite app_nil_r.
  - cbn [length Nat.eqb].
    set (st1 := breakIfNeeded _ _ st).
    assert (H1 : quiet st st1) by apply quiet_breakIfNeeded. clearbody st1.
    set (st2 := pushToc _ _ st1).
    set (st3 := put _ _ _ _ _ _ _ _ _ _ _ _ st2).
    assert (H3 : quiet st2 st3) by apply quiet_put. clearbody st3.
    destruct (renderLectures_spec (lec :: ls) st3) as [Hh Hok].
    split.
    + rewrite Hh, (heading_quiet _ _ H3). unfold st2, pushToc. simpl.
      rewrite fmap_app. simpl. rewrite (heading_quiet _ _ H1).
      by rewrite <-app_assoc.
    + intros Hst. apply Hok. eapply toc_ok_quiet; [exact H3|].
      apply toc_ok_pushToc. by eapply toc_ok_quiet.
Qed.

Lemma renderSubjects_spec subjects : ∀ st,
  let st' := foldl (renderSubject pageHeight pageWidth scaleFactor splitTextToSize
                      getTextDimensions getStringUnitWidth selected pdfTextSize
                      pdfShowAnswers) st subjects in
  heading <$> toc st' = (heading <$> toc st) ++ outline subjects selected
  ∧ (toc_ok st → toc_ok st').
Proof.
  induction subjects as [|s subjects IH]; intros st; simpl.
  - by rewrite app_nil_r.
  - destruct (IH (renderSubject pageHeight pageWidth scaleFactor splitTextToSize
                    getTextDimensions getStringUnitWidth selected pdfTextSize
                    pdfShowAnswers st s)) as [Hh Hok].
    destruct (renderSubject_spec st s) as [Hh1 Hok1].
    split; [|by auto]. rewrite Hh, Hh1. rewrite <-app_assoc. f_equal.
    unfold outline. simpl. by rewrite app_nil_r.
Qed.

Lemma contentPass_spec subjects :
  let content := contentPass pageHeight pageWidth scaleFactor splitTextToSize
                   getTextDimensions getStringUnitWidth subjects selected
                   pdfTextSize pdfShowAnswers in
  heading <$> toc content = outline subjects selected ∧ toc_ok content.
Proof.
  unfold contentPass.
  destruct (renderSubjects_spec subjects
              (mkLayout (setTextColor defaultTextColor newDoc) margin []))
    as [Hh Hok].
  split; [done|]. apply Hok. split_and!; simpl; [done|constructor|constructor].
  Unshelve. all: simpl; lia.
Qed.
End pdf_more.

(** X24.  The table of contents follows the selection: its entries are, in
    library order, each subject that has a selected lecture followed by
    its selected lectures, and a subject without one is left out.  The page
    numbers of the entries never decrease and each is the number of a
    content page; pass 1 ends with the cursor on the last page. *)
Theorem toc_follows_selection
    (pageHeight pageWidth scaleFactor : float)
    (splitTextToSize : Pdf.FontStyle → float → jsstring → float → list jsstring)
    (getTextDimensions :
       Pdf.FontStyle → list jsstring → float → option float → float * float)
    (getStringUnitWidth : Pdf.FontStyle → jsstring → float)
    (subjects : Library) (selectedPdfLectures : gset jsstring)
    (pdfTextSize : float) (pdfShowAnswers : bool) :
  let content :=
    Pdf.contentPass pageHeight pageWidth scaleFactor splitTextToSize
      getTextDimensions getStringUnitWidth subjects selectedPdfLectures
      pdfTextSize pdfShowAnswers in
  heading <$> Pdf.toc content = outline subjects selectedPdfLectures
  ∧ StronglySorted le (Pdf.page <$> Pdf.toc content)
  ∧ Forall (λ e, 1 ≤ Pdf.page e ≤ Pdf.getNumberOfPages (Pdf.doc content))
      (Pdf.toc content)
  ∧ Pdf.current (Pdf.doc content) = Pdf.getNumberOfPages (Pdf.doc content).
Proof.
  intros content.
  destruct (contentPass_spec pageHeight pageWidth scaleFactor splitTextToSize
              getTextDimensions getStringUnitWidth selectedPdfLectures pdfTextSize
              pdfShowAnswers subjects) as (Hh & [Hc Hpos] & Hs & Hb).
  by split_and!.
Qed.

Section pdf_hidden.
Import Pdf.
Context (pageHeight pageWidth scaleFactor : float)
        (splitTextToSize : FontStyle → float → jsstring → float → list jsstring)
        (getTextDimensions :
           FontStyle → list jsstring → float → option float → float * float)
        (getStringUnitWidth : FontStyle → jsstring → float)
        (selected : gset jsstring)
        (pdfTextSize : float).

Lemma renderQuestion_hidden st i q :
  renderQuestion pageHeight pageWidth scaleFactor splitTextToSize getTextDimensions
    getStringUnitWidth pdfTextSize false st (i, hide_answer q)
  = renderQuestion pageHeight pageWidth scaleFactor splitTextToSize
      getTextDimensions getStringUnitWidth pdfTextSize false st (i, q).
Proof.
  destruct q as [k t o c|k t a]; [|done]. unfold renderQuestion, hide_answer.
  f_equal; f_equal; apply foldl_pointwise; by intros s [oIndex opt].
Qed.

Lemma renderLecture_hidden st l :
  renderLecture pageHeight pageWidth scaleFactor splitTextToSize getTextDimensions
    getStringUnitWidth pdfTextSize false st
    (mkLecture (l_id l) (l_name l) (hide_answer <$> l_questions l))
  = renderLecture pageHeight pageWidth scaleFactor splitTextToSize
      getTextDimensions getStringUnitWidth pdfTextSize false st l.
Proof.
  unfold renderLecture. simpl.
  exact (foldl_indexed_fmap _ _ hide_answer (l_questions l)
           (λ s i x, renderQuestion_hidden s i x) id _).
Qed.

Lemma renderSubject_hidden st s :
  renderSubject pageHeight pageWidth scaleFactor splitTextToSize getTextDimensions
    getStringUnitWidth selected pdfTextSize false st
    (mkSubject (s_id s) (s_name s)
       ((λ l, mkLecture (l_id l) (l_name l) (hide_answer <$> l_questions l))
          <$> s_lectures s))
  = renderSubject pageHeight pageWidth scaleFactor splitTextToSize
      getTextDimensions getStringUnitWidth selected pdfTextSize false st s.
Proof.
  unfold renderSubject. cbn [s_lectures s_name].
  rewrite filter_fmap_comm. cbn [l_id]. rewrite length_fmap.
  destruct (length (filter _ (s_lectures s)) =? 0); [done|].
  apply foldl_fmap_pointwise. intros. apply renderLecture_hidden.
Qed.

Lemma contentPass_hidden subjects :
  contentPass pageHeight pageWidth scaleFactor splitTextToSize getTextDimensions
    getStringUnitWidth (hide_answers subjects) selected pdfTextSize false
  = contentPass pageHeight pageWidth scaleFactor splitTextToSize getTextDimensions
      getStringUnitWidth subjects selected pdfTextSize false.
Proof.
  unfold contentPass, hide_answers.
  apply foldl_fmap_pointwise. intros. apply renderSubject_hidden.
Qed.
End pdf_hidden.

(** X25.  An export without answers shows nothing of them: with "show
    answers" off, the document is the same as for the library with every
    chosen option and every written answer taken out. *)
Theorem hidden_answers_do_not_show
    (pageHeight pageWidth scaleFactor : float)
    (splitTextToSize : Pdf.FontStyle → float → jsstring → float → list jsstring)
    (getTextDimensions :
       Pdf.FontStyle → list jsstring → float → option float → float * float)
    (getStringUnitWidth : Pdf.FontStyle → jsstring → float)
    (subjects : Library) (selectedPdfLectures : gset jsstring)
    (pdfTextSize : float) :
  Pdf.generatePdf pageHeight pageWidth scaleFactor splitTextToSize
    getTextDimensions getStringUnitWidth (hide_answers subjects)
    selectedPdfLectures pdfTextSize false
  = Pdf.generatePdf pageHeight pageWidth scaleFactor splitTextToSize
      getTextDimensions getStringUnitWidth subjects selectedPdfLectures
      pdfTextSize false.
Proof. unfold Pdf.generatePdf. by rewrite contentPass_hidden. Qed.

Section pdf_selection.
Import PdfSelect.

Lemma elem_of_foldl_add (l : list Lecture) : ∀ (acc : gset jsstring) id,
  id ∈ foldl (λ ids lec, ids ∪ {[l_id lec]}) acc l ↔ id ∈ acc ∨ id ∈ l_id <$> l.
Proof.
  induction l as [|lec l IH]; intros acc id; simpl.
  - rewrite elem_of_nil. tauto.
  - rewrite IH, elem_of_cons, elem_of_union, elem_of_singleton. tauto.
Qed.

Lemma elem_of_foldl_delete (l : list Lecture) : ∀ (acc : gset jsstring) id,
  id ∈ foldl (λ ids lec, ids ∖ {[l_id lec]}) acc l ↔ id ∈ acc ∧ id ∉ l_id <$> l.
Proof.
  induction l as [|lec l IH]; intros acc id; simpl.
  - rewrite elem_of_nil. tauto.
  - rewrite IH, not_elem_of_cons, elem_of_difference, elem_of_singleton. tauto.
Qed.

Lemma elem_of_selectAll_from (subjects : Library) : ∀ (acc : gset jsstring) id,
  id ∈ foldl (λ allLectureIds sub,
                foldl (λ ids lec, ids ∪ {[l_id lec]}) allLectureIds (s_lectures sub))
         acc subjects
  ↔ id ∈ acc ∨ id ∈ all_lecture_ids subjects.
Proof.
  induction subjects as [|s subjects IH]; intros acc id; simpl.
  - unfold all_lecture_ids. simpl. rewrite elem_of_nil. tauto.
  - rewrite IH, elem_of_foldl_add. unfold all_lecture_ids. simpl.
    rewrite elem_of_app. tauto.
Qed.

Lemma elem_of_selectAllForPdf (subjects : Library) (id : jsstring) :
  id ∈ selectAllForPdf subjects ↔ id ∈ all_lecture_ids subjects.
Proof.
  unfold selectAllForPdf. rewrite elem_of_selectAll_from. set_solver.
Qed.

Lemma outline_full (subjects : Library) (selected : gset jsstring) :
  (∀ id, id ∈ all_lecture_ids subjects → id ∈ selected) →
  outline subjects selected = full_outline subjects.
Proof.
  induction subjects as [|s subjects IH]; intros Hall; [done|].
  assert (Hrest : outline subjects selected = full_outline subjects).
  { apply IH. intros id Hid. apply Hall. unfold all_lecture_ids.
    rewrite bind_cons. apply elem_of_app. by right. }
  unfold outline, full_outline in *. rewrite !bind_cons, Hrest.
  rewrite filter_fixed; [done|]. apply Forall_forall. intros lec Hlec.
  apply Hall. unfold all_lecture_ids. rewrite bind_cons. apply elem_of_app. left.
  by apply list_elem_of_fmap_2.
Qed.

Lemma outline_none (subjects : Library) (selected : gset jsstring) :
  (∀ id, id ∈ all_lecture_ids subjects → id ∉ selected) →
  Forall (λ s, filter (λ lec, l_id lec ∈ selected) (s_lectures s) = []) subjects.
Proof.
  unfold all_lecture_ids. intros Hnone. apply Forall_forall. intros s Hs.
  apply filter_none, Forall_forall. intros lec Hlec. apply Hnone.
  apply list_elem_of_bind. exists s. split; [|done]. by apply list_elem_of_fmap_2.
Qed.
End pdf_selection.

(** X26.  When no lecture of the library is in the selection (it is empty,
    or it holds only ids of lectures that are gone), pass 1 draws nothing
    and gathers no entry, and the saved document is the page of the table
    of contents with its title alone and one content page that holds only
    the footer ["Page 1 of 1"]; when the title does not fit on its page, it
    goes to a third page instead. *)
Theorem nothing_selected_exports_empty
    (pageHeight pageWidth scaleFactor : float)
    (splitTextToSize : Pdf.FontStyle → float → jsstring → float → list jsstring)
    (getTextDimensions :
       Pdf.FontStyle → list jsstring → float → option float → float * float)
    (getStringUnitWidth : Pdf.FontStyle → jsstring → float)
    (subjects : Library) (selectedPdfLectures : gset jsstring)
    (pdfTextSize : float) (pdfShowAnswers : bool) :
  (∀ id, id ∈ all_lecture_ids subjects → id ∉ selectedPdfLectures) →
  let content :=
    Pdf.contentPass pageHeight pageWidth scaleFactor splitTextToSize
      getTextDimensions getStringUnitWidth subjects selectedPdfLectures
      pdfTextSize pdfShowAnswers in
  let final :=
    Pdf.generatePdf pageHeight pageWidth scaleFactor splitTextToSize
      getTextDimensions getStringUnitWidth subjects selectedPdfLectures
      pdfTextSize pdfShowAnswers in
  Pdf.toc content = []
  ∧ Pdf.pages (Pdf.doc content) = [[]]
  ∧ let title :=
      Pdf.Text
        (splitTextToSize Pdf.Bold (Pdf.subjectFontSize pdfTextSize)
           (js "Table of Contents") (pageWidth - Pdf.margin - Pdf.margin)%float)
        Pdf.margin Pdf.margin false (Some 1.25%float) Pdf.Bold
        (Pdf.subjectFontSize pdfTextSize) Pdf.defaultTextColor in
    Pdf.pages final
    = [[title]; Pdf.footer pageHeight pageWidth getTextDimensions 1 1]
    ∨ Pdf.pages final
      = [[]; Pdf.footer pageHeight pageWidth getTextDimensions 1 1; [title]].
Proof.
  intros Hnone content final.
  assert (Hc : content
               = Pdf.mkLayout (Pdf.setTextColor Pdf.defaultTextColor Pdf.newDoc)
                   Pdf.margin []).
  { unfold content, Pdf.contentPass.
    pose proof (outline_none subjects selectedPdfLectures Hnone) as Hall.
    clear Hnone. generalize (Pdf.mkLayout (Pdf.setTextColor Pdf.defaultTextColor Pdf.newDoc)
                  Pdf.margin []).
    induction Hall as [|s l Hs _ IH]; intros st; simpl; [done|].
    rewrite IH. unfold Pdf.renderSubject. by rewrite Hs. }
  unfold final, Pdf.generatePdf. fold content. rewrite Hc.
  split_and!; [done|done|].
  cbn [Pdf.doc Pdf.toc]. unfold Pdf.addWrappedText.
  match goal with
  | |- context [PrimFloat.ltb ?a ?b] => destruct (PrimFloat.ltb a b)
  end; [right|left]; reflexivity.
Qed.

Lemma nothing_selected_exports_empty_witness :
  PdfSelect.generateDisabled {[js "gone"]} = false
  ∧ page_texts <$> Pdf.pages (sample_pdf lib_two_lectures {[js "gone"]})
    = [[js "Table of Contents"]; [js "Page 1 of 1"]].
Proof.
  split; [by vm_compute|].
  assert (Hnone : ∀ id, id ∈ all_lecture_ids lib_two_lectures
                        → id ∉ ({[js "gone"]} : gset jsstring)).
  { intros id Hid Hin. apply elem_of_singleton in Hin. subst id. revert Hid.
    apply (bool_decide_unpack _). by vm_compute. }
  destruct (nothing_selected_exports_empty 60%float 210%float 1%float
              (λ _ _ txt _, [txt])
              (λ _ lines _ _, (40, Pdf.number (length lines) * 8)%float)
              (λ _ txt, Pdf.number (length txt))
              lib_two_lectures {[js "gone"]} 12%float false Hnone)
    as (_ & _ & _).
  by vm_compute.
Defined.

(** X27.  The buttons of the lecture view of the export dialog.  "Select
    all in subject" leaves every lecture of the subject selected and
    "deselect all in subject" none of them; neither changes the count of
    a subject that shares no lecture id with it.  The selection is a set
    of lecture ids alone, so "deselect all" after "select all" does not
    bring back what was selected before: it is the old selection without
    the lectures of the subject.  A check box sets the membership of its
    lecture to the state of the box. *)
Theorem subject_selection_buttons (subject : Subject)
    (selectedPdfLectures : gset jsstring) :
  PdfSelect.selectedCount subject
    (PdfSelect.handleSubjectSelectAll subject selectedPdfLectures)
  = length (s_lectures subject)
  ∧ PdfSelect.selectedCount subject
      (PdfSelect.handleSubjectDeselectAll subject selectedPdfLectures) = 0
  ∧ (∀ other,
       (∀ id, id ∈ l_id <$> s_lectures other → id ∉ l_id <$> s_lectures subject) →
       PdfSelect.selectedCount other
         (PdfSelect.handleSubjectSelectAll subject selectedPdfLectures)
       = PdfSelect.selectedCount other selectedPdfLectures
       ∧ PdfSelect.selectedCount other
           (PdfSelect.handleSubjectDeselectAll subject selectedPdfLectures)
         = PdfSelect.selectedCount other selectedPdfLectures)
  ∧ PdfSelect.handleSubjectDeselectAll subject
      (PdfSelect.handleSubjectSelectAll subject selectedPdfLectures)
    = selectedPdfLectures ∖ list_to_set (l_id <$> s_lectures subject)
  ∧ (∀ checked lecture,
       l_id lecture ∈ PdfSelect.toggleLecture checked lecture selectedPdfLectures
       ↔ checked = true).
Proof.
  unfold PdfSelect.selectedCount, PdfSelect.handleSubjectSelectAll,
    PdfSelect.handleSubjectDeselectAll.
  split_and!.
  - rewrite filter_fixed; [done|]. apply Forall_forall. intros lec Hlec.
    apply elem_of_foldl_add. right. by apply list_elem_of_fmap_2.
  - rewrite filter_none; [done|]. apply Forall_forall. intros lec Hlec.
    rewrite elem_of_foldl_delete. intros [_ Hout]. apply Hout.
    by apply list_elem_of_fmap_2.
  - intros other Hdisjoint. split; f_equal; apply filter_ext_in; intros lec Hlec.
    + rewrite elem_of_foldl_add. split; [|by left].
      intros [?|Hin]; [done|]. destruct (Hdisjoint (l_id lec)); [|done].
      by apply list_elem_of_fmap_2.
    + rewrite elem_of_foldl_delete. split; [by intros [? _]|].
      intros Hin. split; [done|]. apply Hdisjoint. by apply list_elem_of_fmap_2.
  - apply set_eq. intros id.
    rewrite elem_of_foldl_delete, elem_of_foldl_add, elem_of_difference,
      elem_of_list_to_set. tauto.
  - intros checked lecture. unfold PdfSelect.toggleLecture.
    destruct checked; set_solver.
Qed.

(** X28.  After "select all" the export lists the whole library: the table
    of contents has an entry for every subject that has a lecture, and for
    each of its lectures, in library order.  The Generate button is then
    disabled exactly when the library has no lecture at all. *)
Theorem selectAll_exports_everything
    (pageHeight pageWidth scaleFactor : float)
    (splitTextToSize : Pdf.FontStyle → float → jsstring → float → list jsstring)
    (getTextDimensions :
       Pdf.FontStyle → list jsstring → float → option float → float * float)
    (getStringUnitWidth : Pdf.FontStyle → jsstring → float)
    (subjects : Library) (pdfTextSize : float) (pdfShowAnswers : bool) :
  let content :=
    Pdf.contentPass pageHeight pageWidth scaleFactor splitTextToSize
      getTextDimensions getStringUnitWidth subjects
      (PdfSelect.selectAllForPdf subjects) pdfTextSize pdfShowAnswers in
  heading <$> Pdf.toc content = full_outline subjects
  ∧ (PdfSelect.generateDisabled (PdfSelect.selectAllForPdf subjects) = true
     ↔ all_lecture_ids subjects = []).
Proof.
  intros content. split.
  - destruct (contentPass_spec pageHeight pageWidth scaleFactor splitTextToSize
                getTextDimensions getStringUnitWidth
                (PdfSelect.selectAllForPdf subjects) pdfTextSize pdfShowAnswers
                subjects) as [Hh _].
    unfold content. rewrite Hh. apply outline_full.
    intros id. by rewrite elem_of_selectAllForPdf.
  - unfold PdfSelect.generateDisabled. rewrite Nat.eqb_eq, size_empty_iff.
    split.
    + intros Hempty. destruct (all_lecture_ids subjects) as [|id ids] eqn:Hids;
        [done|].
      assert (Hin : id ∈ PdfSelect.selectAllForPdf subjects).
      { apply elem_of_selectAllForPdf. rewrite Hids. by left. }
      by apply Hempty in Hin.
    + intros Hnil id. rewrite elem_of_selectAllForPdf, Hnil. set_solver.
Qed.
